(** * alx-polly: access control, vote integrity, sanitisation and rate limiting

    A shallow embedding of the server actions of [app/lib/actions/poll-actions.ts]
    and [app/lib/actions/auth-actions.ts], of the page
    [app/(dashboard)/polls/[id]/edit/page.tsx] and of the request middleware
    [lib/supabase/middleware.ts], with the properties the specification states
    about them and further properties that the code has.

    Conventions.
    - A JavaScript string is its sequence of UTF-16 code units ([JsString]).
      Messages that the code only passes around (literals, backend error
      texts) are kept as [string].
    - The Supabase store is a record of tables; every request to it is one
      atomic step that may fail, is logged, and returns a
      success-or-failure response as the client library types it.
    - An [async] server action is a computation over the [World] that can
      return early.
    - The rules of the setup script on [votes] (trigger, check, unique
      index), its checks on [polls] (length of the question, number of
      options) and its cascade from [polls] are part of the store. Its
      row-level policies repeat the tests that the actions make (a poll is
      updated by its owner, deleted by its owner or an admin; a vote is
      inserted by a logged-in user) and are not modelled.
    - The auth service of [login], [register] and [logout] is what it
      answers to what it is sent ([AuthService]); its accounts are not
      modelled. *)

From Stdlib Require Import Ascii String NArith ZArith QArith Lia.
From stdpp Require Import base option list strings gmap pretty.

Local Open Scope Z_scope.
Local Open Scope list_scope.

(* ===================================================================== *)
(** * JavaScript strings                                                  *)
(* ===================================================================== *)

(** One UTF-16 code unit. *)
Abbreviation CodeUnit := N.

(** A JavaScript string, as the regular expressions without the [u] flag and
    [String.prototype.length] see it. *)
Abbreviation JsString := (list N).

(** The code units of an ASCII literal. *)
Fixpoint js (s : string) : JsString :=
  match s with
  | EmptyString => []
  | String a rest => N_of_ascii a :: js rest
  end.

(** The code units that the sanitiser names. *)
Module Ch.
Definition lt : CodeUnit := 60%N.      (* < *)
Definition gt : CodeUnit := 62%N.      (* > *)
Definition quot : CodeUnit := 34%N.    (* double quote *)
Definition apos : CodeUnit := 39%N.    (* apostrophe *)
Definition amp : CodeUnit := 38%N.     (* & *)
Definition semi : CodeUnit := 59%N.    (* ; *)
End Ch.

(** ECMAScript [WhiteSpace] and [LineTerminator] code points: what
    [String.prototype.trim] removes. *)
Definition isWhiteSpace (c : CodeUnit) : bool :=
  ((9 <=? c) && (c <=? 13) || (c =? 32) || (c =? 160) || (c =? 5760)
   || (8192 <=? c) && (c <=? 8202) || (c =? 8232) || (c =? 8233)
   || (c =? 8239) || (c =? 8287) || (c =? 12288) || (c =? 65279))%N.

Fixpoint trimStart (s : JsString) : JsString :=
  match s with
  | [] => []
  | c :: rest => if isWhiteSpace c then trimStart rest else s
  end.

Definition trimEnd (s : JsString) : JsString := reverse (trimStart (reverse s)).

(** [s.trim()] *)
Definition trim (s : JsString) : JsString := trimEnd (trimStart s).

(** [!s] on a string: only the empty string is falsy. *)
Definition falsy (s : JsString) : bool :=
  match s with [] => true | _ => false end.

(** [a || b] on strings that may be absent ([null] / [undefined]). *)
Definition orElse (a : option JsString) (b : JsString) : JsString :=
  match a with
  | Some s => if falsy s then b else s
  | None => b
  end.

(* ===================================================================== *)
(** * poll-actions.ts: sanitizeInput                                      *)
(* ===================================================================== *)

(** Is there a [>] further on? Decides whether [/<[^>]*>/] matches at a [<]. *)
Definition hasGt (s : JsString) : bool := existsb (N.eqb Ch.gt) s.

(** [.replace(/<[^>]*>/g, "")], scanning left to right. At a [<] the
    expression matches when some [>] follows, and the match ends at the first
    one ([[^>]*] cannot cross it); the scan resumes after the match. With
    [inTag] the scan is inside a match. *)
Fixpoint stripTagsFrom (inTag : bool) (s : JsString) : JsString :=
  match s with
  | [] => []
  | c :: rest =>
      if inTag then
        if (c =? Ch.gt)%N then stripTagsFrom false rest
        else stripTagsFrom true rest
      else if ((c =? Ch.lt)%N && hasGt rest)%bool then stripTagsFrom true rest
      else c :: stripTagsFrom false rest
  end.

Definition stripTags (s : JsString) : JsString := stripTagsFrom false s.

(** The [entities] table of the replacer, [entities[char] || char]. *)
Definition entity (c : CodeUnit) : JsString :=
  if (c =? Ch.lt)%N then js "&lt;"
  else if (c =? Ch.gt)%N then js "&gt;"
  else if (c =? Ch.quot)%N then js "&quot;"
  else if (c =? Ch.apos)%N then js "&#x27;"
  else if (c =? Ch.amp)%N then js "&amp;"
  else [c].

(** The second [.replace], whose character class holds the five keys of
    [entities]: each such code unit is replaced by its entity. *)
Definition escapeEntities (s : JsString) : JsString := flat_map entity s.

(** [sanitizeInput(input)] for a string [input], the parameter's type; for
    anything else the [typeof] guard returns the empty string (see
    [createPoll]). *)
Definition sanitizeInput (input : JsString) : JsString :=
  trim (escapeEntities (stripTags input)).

(* ===================================================================== *)
(** * poll-actions.ts: validatePollInput                                  *)
(* ===================================================================== *)

Definition MAX_QUESTION_LENGTH : nat := 500.
Definition MAX_OPTION_LENGTH : nat := 200.
Definition MAX_OPTIONS : nat := 10.
Definition MIN_OPTIONS : nat := 2.

(** Case folding of a regular expression with the [i] flag and without the
    [u] flag, on the code units an ASCII pattern can match: a code unit of
    128 or more never folds onto an ASCII letter. *)
Definition asciiUpper (c : CodeUnit) : CodeUnit :=
  if ((97 <=? c) && (c <=? 122))%N then (c - 32)%N else c.

Definition eqIgnoreCase (c p : CodeUnit) : bool :=
  (asciiUpper c =? asciiUpper p)%N.

(** Does the literal pattern match at the start of [s]? *)
Fixpoint matchesAt (pat s : JsString) : bool :=
  match pat, s with
  | [], _ => true
  | _ :: _, [] => false
  | p :: pat', c :: s' => eqIgnoreCase c p && matchesAt pat' s'
  end.

(** [/pat/i.test(s)] for a literal pattern. *)
Fixpoint testIgnoreCase (pat s : JsString) : bool :=
  matchesAt pat s ||
  match s with
  | [] => false
  | _ :: rest => testIgnoreCase pat rest
  end.

(** [/<script|javascript:|data:/i.test(s)] *)
Definition suspicious (s : JsString) : bool :=
  testIgnoreCase (js "<script") s
  || testIgnoreCase (js "javascript:") s
  || testIgnoreCase (js "data:") s.

(** [!s || s.trim().length === 0] *)
Definition blank (s : JsString) : bool :=
  falsy s || (length (trim s) =? 0)%nat.

(** The functions of the JavaScript runtime that the actions call and that
    are not modelled here. *)
Class JsRuntime := {
  (** [String.prototype.toLowerCase] *)
  toLowerCase : JsString -> JsString
}.

(** A runtime for inputs in ASCII, where [toLowerCase] only moves [A]-[Z]. *)
Definition asciiLower (c : CodeUnit) : CodeUnit :=
  if ((65 <=? c) && (c <=? 90))%N then (c + 32)%N else c.

Definition asciiRuntime : JsRuntime := {| toLowerCase := map asciiLower |}.

(** The loop over [options], from index [i]. *)
Fixpoint validateOptions (i : nat) (options : list JsString) : option string :=
  match options with
  | [] => None
  | opt :: rest =>
      if blank opt then
        Some ("Option " +:+ pretty (i + 1)%nat +:+ " cannot be empty")
      else if (MAX_OPTION_LENGTH <? length opt)%nat then
        Some ("Option " +:+ pretty (i + 1)%nat +:+ " must be "
              +:+ pretty MAX_OPTION_LENGTH +:+ " characters or less")
      else if suspicious opt then
        Some ("Option " +:+ pretty (i + 1)%nat +:+ " contains invalid content")
      else validateOptions (S i) rest
  end.

(** [new Set(options.map((opt) => opt.toLowerCase().trim()))] *)
Definition uniqueOptions `{JsRuntime} (options : list JsString) : gset JsString :=
  list_to_set (map (fun opt => trim (toLowerCase opt)) options).

(** [validatePollInput(question, options)]; [question] is what
    [formData.get] gave, [None] for [null]. *)
Definition validatePollInput `{JsRuntime}
    (question : option JsString) (options : list JsString) : option string :=
  match question with
  | None => Some "Question is required"
  | Some question =>
      if blank question then Some "Question is required"
      else if (MAX_QUESTION_LENGTH <? length question)%nat then
        Some ("Question must be " +:+ pretty MAX_QUESTION_LENGTH
              +:+ " characters or less")
      else if suspicious question then Some "Question contains invalid content"
      else if (length options <? MIN_OPTIONS)%nat then
        Some ("At least " +:+ pretty MIN_OPTIONS +:+ " options are required")
      else if (MAX_OPTIONS <? length options)%nat then
        Some ("Maximum " +:+ pretty MAX_OPTIONS +:+ " options allowed")
      else
        match validateOptions 0 options with
        | Some e => Some e
        | None =>
            if negb (size (uniqueOptions options) =? length options)%nat
            then Some "All options must be unique"
            else None
        end
  end.

(* ===================================================================== *)
(** * The Supabase store                                                  *)
(* ===================================================================== *)

(** Row identifiers and user identifiers are UUIDs in text form. *)
Abbreviation Id := (list N).

(** Timestamps, in milliseconds since the epoch. *)
Abbreviation Millis := Z.

(** A row of [polls]. *)
Record Poll := mkPoll {
  poll_id : Id;
  poll_user_id : Id;
  poll_question : JsString;
  poll_options : list JsString
}.

(** A row of [user_roles]. *)
Record UserRole := mkUserRole {
  role_user_id : Id;
  role_name : JsString
}.

(** A row of [votes]. *)
Record Vote := mkVote {
  vote_poll_id : Id;
  vote_user_id : option Id;
  vote_option_index : Z;
  vote_created_at : Millis
}.

Record Database := mkDatabase {
  polls : list Poll;
  user_roles : list UserRole;
  votes : list Vote
}.

Inductive Table := TPolls | TUserRoles | TVotes.
Inductive Verb := VSelect | VInsert | VUpdate | VDelete.

#[global] Instance Table_eq_dec : EqDecision Table.
Proof. solve_decision. Defined.
#[global] Instance Verb_eq_dec : EqDecision Verb.
Proof. solve_decision. Defined.

(** What a server action runs against.
    - [db]: the tables.
    - [faults]: what the store will answer to the coming requests, one entry
      per request: [Some m] makes the request fail with message [m] whatever
      it asks (outage, timeout, a rule of the store that is not modelled),
      [None] lets it run; when the list is used up every request runs.
    - [journal]: the requests made so far, latest first.
    - [clock]: what [Date.now()] and the store's [NOW()] read.
    - [uuid], [serial]: [gen_random_uuid()] of the store. *)
Record World := mkWorld {
  db : Database;
  faults : list (option string);
  journal : list (Table * Verb);
  clock : Millis;
  uuid : nat -> Id;
  serial : nat
}.

Definition with_db (d : Database) (w : World) : World :=
  mkWorld d (faults w) (journal w) (clock w) (uuid w) (serial w).

(** What the client library resolves a request to: the pair
    [{ data, error }] where exactly one is non-null. *)
Inductive Response (A : Type) :=
| Success (data : A)
| Failure (message : string).
Arguments Success {A} data.
Arguments Failure {A} message.

(** The [data] of [const { data } = await ...]. *)
Definition data_of {A} (r : Response A) : option A :=
  match r with Success d => Some d | Failure _ => None end.

(** The [error] of [const { error } = await ...], as its message. *)
Definition error_of {A} (r : Response A) : option string :=
  match r with Success _ => None | Failure m => Some m end.

(** One request reaches the store: it is written to the journal and the next
    fault, if any, is taken. *)
Definition reach (t : Table) (v : Verb) (w : World) : option string * World :=
  let w' f := mkWorld (db w) f ((t, v) :: journal w) (clock w) (uuid w) (serial w) in
  match faults w with
  | [] => (None, w' [])
  | f :: fs => (f, w' fs)
  end.

(** A request that only reads: [rows] computes the answer from the tables. *)
Definition query {A} (t : Table) (rows : Database -> Response A)
    (w : World) : Response A * World :=
  match reach t VSelect w with
  | (Some m, w') => (Failure m, w')
  | (None, w') => (rows (db w'), w')
  end.

(** A request that writes: [change] gives the new tables or the message of
    the rule it breaks. *)
Definition mutate (t : Table) (v : Verb) (change : World -> Database + string)
    (w : World) : Response unit * World :=
  match reach t v w with
  | (Some m, w') => (Failure m, w')
  | (None, w') =>
      match change w' with
      | inl d => (Success tt, with_db d w')
      | inr m => (Failure m, w')
      end
  end.

(** [.single()]: exactly one row, or an error. *)
Definition single {A} (rows : list A) : Response A :=
  match rows with
  | [r] => Success r
  | _ => Failure "JSON object requested, multiple (or no) rows returned"
  end.

(** [from("polls").select(...).eq("id", id).single()] *)
Definition selectPollById (id : Id) : World -> Response Poll * World :=
  query TPolls (fun d => single (filter (fun p => poll_id p = id) (polls d))).

(** [from("user_roles").select("role").eq("user_id", u).eq("role", r).single()] *)
Definition selectRole (u : Id) (r : JsString) : World -> Response UserRole * World :=
  query TUserRoles (fun d =>
    single (filter (fun x => role_user_id x = u /\ role_name x = r) (user_roles d))).

(** [from("votes").select("id").eq("poll_id", p).eq("user_id", u).single()] *)
Definition selectVote (p u : Id) : World -> Response Vote * World :=
  query TVotes (fun d =>
    single (filter (fun v => vote_poll_id v = p /\ vote_user_id v = Some u) (votes d))).

(** [from("votes").select("id").eq("user_id", u).gte("created_at", since)] *)
Definition selectVotesSince (u : Id) (since : Millis)
    : World -> Response (list Vote) * World :=
  query TVotes (fun d =>
    Success (filter (fun v => vote_user_id v = Some u /\ since <= vote_created_at v)
                    (votes d))).

(** [length(text)] of the store counts characters: the two code units of
    a surrogate pair are one character. A surrogate outside a pair is
    counted as one. *)
Definition isHighSurrogate (c : CodeUnit) : bool := ((55296 <=? c) && (c <=? 56319))%N.
Definition isLowSurrogate (c : CodeUnit) : bool := ((56320 <=? c) && (c <=? 57343))%N.

Fixpoint charLength (s : JsString) : nat :=
  match s with
  | [] => 0
  | c :: rest =>
      match rest with
      | d :: rest' =>
          if isHighSurrogate c && isLowSurrogate d then S (charLength rest')
          else S (charLength rest)
      | [] => 1
      end
  end.

(** The checks of the table [polls] in the setup script:
    [CHECK (length(question) <= 500)] and
    [CHECK (jsonb_array_length(options) >= 2 AND jsonb_array_length(options) <= 10)],
    on the row that is written. *)
Definition questionCheck : string :=
  "new row for relation polls violates check constraint polls_question_check".
Definition optionsCheck : string :=
  "new row for relation polls violates check constraint polls_options_check".

Definition pollRuleBroken (question : JsString) (options : list JsString) : option string :=
  if (500 <? charLength question)%nat then Some questionCheck
  else if (length options <? 2)%nat || (10 <? length options)%nat then Some optionsCheck
  else None.

(** [from("polls").insert([{ user_id, question, options }])]; the store
    draws the id of the row, used or not. *)
Definition insertPoll (u : Id) (question : JsString) (options : list JsString)
    : World -> Response unit * World :=
  fun w =>
    let row := mkPoll (uuid w (serial w)) u question options in
    let (r, w') :=
      mutate TPolls VInsert (fun w =>
        match pollRuleBroken question options with
        | Some m => inr m
        | None =>
            inl (mkDatabase (polls (db w) ++ [row]) (user_roles (db w)) (votes (db w)))
        end) w in
    (r, mkWorld (db w') (faults w') (journal w') (clock w') (uuid w') (S (serial w'))).

(** The rules on [votes] in the setup script: the trigger
    [validate_vote_option_index] (the poll exists and the index is below its
    number of options), the check [option_index >= 0], and the unique index
    [idx_votes_unique_user_poll] on [(poll_id, user_id)] for a non-null
    user. *)
Definition voteRuleBroken (d : Database) (v : Vote) : option string :=
  if negb (bool_decide (Exists (fun p => poll_id p = vote_poll_id v
                                  /\ vote_option_index v < Z.of_nat (length (poll_options p)))
                               (polls d)))
  then Some "Invalid option index for poll"
  else if vote_option_index v <? 0
  then Some "new row for relation votes violates check constraint votes_option_index_check"
  else if bool_decide (is_Some (vote_user_id v)
                       /\ Exists (fun x => vote_poll_id x = vote_poll_id v
                                        /\ vote_user_id x = vote_user_id v) (votes d))
  then Some "duplicate key value violates unique constraint idx_votes_unique_user_poll"
  else None.

(** [from("votes").insert([{ poll_id, user_id, option_index }])] *)
Definition insertVote (p : Id) (u : option Id) (i : Z) : World -> Response unit * World :=
  mutate TVotes VInsert (fun w =>
    let v := mkVote p u i (clock w) in
    match voteRuleBroken (db w) v with
    | Some m => inr m
    | None => inl (mkDatabase (polls (db w)) (user_roles (db w)) (votes (db w) ++ [v]))
    end).

(** [from("polls").delete().eq("id", id)]; the votes of a deleted poll go
    with it ([ON DELETE CASCADE]). *)
Definition deletePollRow (id : Id) : World -> Response unit * World :=
  mutate TPolls VDelete (fun w =>
    inl (mkDatabase (filter (fun p => poll_id p <> id) (polls (db w)))
                    (user_roles (db w))
                    (filter (fun v => vote_poll_id v <> id) (votes (db w))))).

(** [from("polls").update({ question, options }).eq("id", id).eq("user_id", u)];
    the checks of the table are made on the rows that the update writes,
    so that an update that selects no row breaks none. *)
Definition updatePollRow (id u : Id) (question : JsString) (options : list JsString)
    : World -> Response unit * World :=
  mutate TPolls VUpdate (fun w =>
    let selected p := poll_id p = id /\ poll_user_id p = u in
    match (if bool_decide (Exists selected (polls (db w)))
           then pollRuleBroken question options else None) with
    | Some m => inr m
    | None =>
        inl (mkDatabase
               (map (fun p => if bool_decide (selected p)
                              then mkPoll (poll_id p) (poll_user_id p) question options
                              else p) (polls (db w)))
               (user_roles (db w)) (votes (db w)))
    end).

(* ===================================================================== *)
(** * Server actions as computations                                      *)
(* ===================================================================== *)

(** An [async] function body over the world: after a step it has either
    returned ([inl], the value of a [return]) or goes on with a value
    ([inr]). *)
Definition Action (R A : Type) : Type := World -> (R + A) * World.

(** [return r;] *)
Definition Return {R A} (r : R) : Action R A := fun w => (inl r, w).

(** [await request], one request to the store. *)
Definition await {R A} (request : World -> A * World) : Action R A :=
  fun w => let (a, w') := request w in (inr a, w').

(** Falling out of an [if] whose branch did not return. *)
Definition proceed {R} : Action R unit := fun w => (inr tt, w).

(** [Date.now()] *)
Definition dateNow {R} : Action R Millis := fun w => (inr (clock w), w).

Definition andThen {R A B} (m : Action R A) (k : A -> Action R B) : Action R B :=
  fun w =>
    match m w with
    | (inl r, w') => (inl r, w')
    | (inr a, w') => k a w'
    end.

Notation "'let*' x ':=' m 'in' k" := (andThen m (fun x => k))
  (at level 10, x name, m at level 100, k at level 200).

(** The call of an action: its result and the world it leaves. *)
Definition call {R} (body : Action R R) (w : World) : R * World :=
  match body w with
  | (inl r, w') => (r, w')
  | (inr r, w') => (r, w')
  end.

(** [{ error: ... }], the result of the mutating actions. *)
Record ActionResult := mkResult { error : option string }.

Definition failed (m : string) : ActionResult := mkResult (Some m).
Definition ok : ActionResult := mkResult None.

(** [{ poll, error }], the result of [getPollById]. *)
Record PollResult := mkPollResult { poll : option Poll; poll_error : option string }.

(** The user of the session, and what [supabase.auth.getUser()] resolves to:
    [{ data: { user }, error }]. *)
Record User := mkUser { user_id : Id }.
Record UserResponse := mkUserResponse { user : option User; userError : option string }.

Definition authenticated (p : Id) : UserResponse := mkUserResponse (Some (mkUser p)) None.
Definition anonymous : UserResponse := mkUserResponse None None.

(** [user?.id] when truthy. *)
Definition userIdOf (u : option User) : option Id :=
  match u with
  | Some u => if falsy (user_id u) then None else Some (user_id u)
  | None => None
  end.

(** What the forms send: [formData.get("question")] and
    [formData.getAll("options")]. *)
Record FormData := mkFormData {
  get_question : option JsString;
  getAll_options : list JsString
}.

(** [formData.getAll("options").filter(Boolean)] *)
Definition rawOptionsOf (formData : FormData) : list JsString :=
  List.filter (fun s => negb (falsy s)) (getAll_options formData).

(** A JavaScript number: a finite value, as the rational it denotes, or one
    of the three special values. *)
Inductive JsNumber :=
| Finite (q : Q)
| NaN
| PosInfinity
| NegInfinity.

(** [n < 0] *)
Definition ltZero (n : JsNumber) : bool :=
  match n with
  | Finite q => Qnum q <? 0
  | NegInfinity => true
  | NaN | PosInfinity => false
  end.

(** [Number.isInteger(n)] *)
Definition isInteger (n : JsNumber) : bool :=
  match n with
  | Finite q => Qnum q mod Zpos (Qden q) =? 0
  | _ => false
  end.

(** [n >= len] for an array length *)
Definition geLength (n : JsNumber) (len : nat) : bool :=
  match n with
  | Finite q => Z.of_nat len * Zpos (Qden q) <=? Qnum q
  | PosInfinity => true
  | NaN | NegInfinity => false
  end.

(** The integer a number is, once [isInteger] holds; what the store receives
    as [option_index]. *)
Definition integerOf (n : JsNumber) : Z :=
  match n with
  | Finite q => Qnum q / Zpos (Qden q)
  | _ => 0
  end.

(* --------------------------------------------------------------------- *)
(** ** auth-actions.ts                                                    *)
(* --------------------------------------------------------------------- *)

Definition ADMIN : JsString := js "admin".

(** [isAdmin(userId?)] *)
Definition isAdmin (userId : option Id) : World -> bool * World :=
  call (
    match userId with
    | None => Return false
    | Some userId =>
        if falsy userId then Return false
        else
          let* roleData := await (selectRole userId ADMIN) in
          Return (bool_decide (is_Some (data_of roleData)))
    end).

(* --------------------------------------------------------------------- *)
(** ** poll-actions.ts                                                    *)
(* --------------------------------------------------------------------- *)

(** [createPoll(formData)]; [default []] is the [typeof] guard of
    [sanitizeInput] for a missing question. *)
Definition createPoll `{JsRuntime} (session : UserResponse) (formData : FormData)
    : World -> ActionResult * World :=
  call (
    let rawQuestion := get_question formData in
    let rawOptions := rawOptionsOf formData in
    match validatePollInput rawQuestion rawOptions with
    | Some validationError => Return (failed validationError)
    | None =>
        let question := sanitizeInput (default [] rawQuestion) in
        let options := map sanitizeInput rawOptions in
        match userError session with
        | Some message => Return (failed message)
        | None =>
            match user session with
            | None => Return (failed "You must be logged in to create a poll.")
            | Some user =>
                let* inserted := await (insertPoll (user_id user) question options) in
                match error_of inserted with
                | Some message => Return (failed message)
                | None => Return ok
                end
            end
        end
    end).

(** [getPollById(id)] *)
Definition getPollById (id : Id) : World -> PollResult * World :=
  call (
    let* found := await (selectPollById id) in
    match error_of found with
    | Some message => Return (mkPollResult None (Some message))
    | None => Return (mkPollResult (data_of found) None)
    end).

(** [!pollId || typeof pollId !== "string" || pollId.length < 10] *)
Definition badPollId (pollId : JsString) : bool :=
  falsy pollId || (length pollId <? 10)%nat.

(** [submitVote(pollId, optionIndex)]; the [typeof] tests hold of the
    parameters' types, [string] and [number]. *)
Definition submitVote (session : UserResponse) (pollId : JsString) (optionIndex : JsNumber)
    : World -> ActionResult * World :=
  call (
    if badPollId pollId then Return (failed "Invalid poll ID")
    else if ltZero optionIndex || negb (isInteger optionIndex)
    then Return (failed "Invalid option selection")
    else
      let* found := await (selectPollById pollId) in
      match found with
      | Failure _ => Return (failed "Poll not found")
      | Success pollData =>
          if geLength optionIndex (length (poll_options pollData))
          then Return (failed "Invalid option selected")
          else
            match userIdOf (user session) with
            | None => Return (failed "Please log in to vote")
            | Some userId =>
                let* existingVote := await (selectVote pollId userId) in
                if bool_decide (is_Some (data_of existingVote))
                then Return (failed "You have already voted on this poll")
                else
                  let* now := dateNow in
                  let oneMinuteAgo := now - 60000 in
                  let* recentVotes := await (selectVotesSince userId oneMinuteAgo) in
                  if match data_of recentVotes with
                     | Some rows => (5 <=? length rows)%nat
                     | None => false
                     end
                  then Return (failed "Too many votes. Please wait a moment.")
                  else
                    let* inserted :=
                      await (insertVote pollId (Some userId) (integerOf optionIndex)) in
                    match error_of inserted with
                    | Some _ => Return (failed "Failed to submit vote. Please try again.")
                    | None => Return ok
                    end
            end
      end).

(** [deletePoll(id)] *)
Definition deletePoll (session : UserResponse) (id : Id)
    : World -> ActionResult * World :=
  call (
    match userError session with
    | Some _ => Return (failed "Authentication failed")
    | None =>
        match user session with
        | None => Return (failed "You must be logged in to delete a poll")
        | Some user =>
            let* fetched := await (selectPollById id) in
            match fetched with
            | Failure _ => Return (failed "Poll not found")
            | Success pollData =>
                let* _ :=
                  if bool_decide (poll_user_id pollData <> user_id user) then
                    let* roleData := await (selectRole (user_id user) ADMIN) in
                    if negb (bool_decide (is_Some (data_of roleData)))
                    then Return (failed "You can only delete your own polls")
                    else proceed
                  else proceed in
                let* deleted := await (deletePollRow id) in
                match error_of deleted with
                | Some _ => Return (failed "Failed to delete poll")
                | None => Return ok
                end
            end
        end
    end).

(** [updatePoll(pollId, formData)] *)
Definition updatePoll `{JsRuntime} (session : UserResponse) (pollId : JsString)
    (formData : FormData) : World -> ActionResult * World :=
  call (
    let rawQuestion := get_question formData in
    let rawOptions := rawOptionsOf formData in
    if badPollId pollId then Return (failed "Invalid poll ID")
    else
      match validatePollInput rawQuestion rawOptions with
      | Some validationError => Return (failed validationError)
      | None =>
          let question := sanitizeInput (default [] rawQuestion) in
          let options := map sanitizeInput rawOptions in
          match userError session with
          | Some message => Return (failed message)
          | None =>
              match user session with
              | None => Return (failed "You must be logged in to update a poll.")
              | Some user =>
                  let* updated :=
                    await (updatePollRow pollId (user_id user) question options) in
                  match error_of updated with
                  | Some message => Return (failed message)
                  | None => Return ok
                  end
              end
          end
      end).

(* --------------------------------------------------------------------- *)
(** ** submitVote, one store request at a time                            *)
(* --------------------------------------------------------------------- *)

(** Where a call of [submitVote] stands: not yet run, suspended at one of
    its four requests to the store with what it carries across the [await],
    or returned. *)
Inductive VoteTask :=
| Called
| AwaitingPoll
| AwaitingExisting (userId : Id)
| AwaitingRecent (userId : Id) (oneMinuteAgo : Millis)
| AwaitingInsert (userId : Id)
| Returned (result : ActionResult).

(** One turn of a call: the store serves the request the call is suspended
    at, and the call runs on to its next request or to its [return]. The
    first turn runs the checks that come before the first request. *)
Definition voteStep (session : UserResponse) (pollId : JsString) (optionIndex : JsNumber)
    (t : VoteTask) (w : World) : VoteTask * World :=
  match t with
  | Called =>
      if badPollId pollId then (Returned (failed "Invalid poll ID"), w)
      else if ltZero optionIndex || negb (isInteger optionIndex)
      then (Returned (failed "Invalid option selection"), w)
      else (AwaitingPoll, w)
  | AwaitingPoll =>
      let (found, w') := selectPollById pollId w in
      match found with
      | Failure _ => (Returned (failed "Poll not found"), w')
      | Success pollData =>
          if geLength optionIndex (length (poll_options pollData))
          then (Returned (failed "Invalid option selected"), w')
          else
            match userIdOf (user session) with
            | None => (Returned (failed "Please log in to vote"), w')
            | Some userId => (AwaitingExisting userId, w')
            end
      end
  | AwaitingExisting userId =>
      let (existingVote, w') := selectVote pollId userId w in
      if bool_decide (is_Some (data_of existingVote))
      then (Returned (failed "You have already voted on this poll"), w')
      else (AwaitingRecent userId (clock w' - 60000), w')
  | AwaitingRecent userId oneMinuteAgo =>
      let (recentVotes, w') := selectVotesSince userId oneMinuteAgo w in
      if match data_of recentVotes with
         | Some rows => (5 <=? length rows)%nat
         | None => false
         end
      then (Returned (failed "Too many votes. Please wait a moment."), w')
      else (AwaitingInsert userId, w')
  | AwaitingInsert userId =>
      let (inserted, w') := insertVote pollId (Some userId) (integerOf optionIndex) w in
      match error_of inserted with
      | Some _ => (Returned (failed "Failed to submit vote. Please try again."), w')
      | None => (Returned ok, w')
      end
  | Returned r => (Returned r, w)
  end.

(** A call in flight: its [optionIndex] and where it stands. *)
Record VoteCall := mkCall { call_index : JsNumber; call_task : VoteTask }.

Definition at_time (t : Millis) (w : World) : World :=
  mkWorld (db w) (faults w) (journal w) t (uuid w) (serial w).

(** Concurrent calls of [submitVote] by one session on one poll. An entry
    [(i, t)] of a schedule gives call [i] its next turn, at clock [t]. *)
Definition concurrentStep (session : UserResponse) (pollId : JsString)
    (s : World * list VoteCall) (e : nat * Millis) : World * list VoteCall :=
  match s.2 !! e.1 with
  | None => s
  | Some c =>
      let (task', w') :=
        voteStep session pollId (call_index c) (call_task c) (at_time e.2 s.1) in
      (w', <[e.1 := mkCall (call_index c) task']> s.2)
  end.

Definition runConcurrent (session : UserResponse) (pollId : JsString)
    (schedule : list (nat * Millis)) (s : World * list VoteCall)
    : World * list VoteCall :=
  fold_left (concurrentStep session pollId) schedule s.

Definition hasReturned (c : VoteCall) : bool :=
  match call_task c with Returned _ => true | _ => false end.

Definition returnedWith (r : ActionResult) (c : VoteCall) : Prop :=
  call_task c = Returned r.

#[global] Instance ActionResult_eq_dec : EqDecision ActionResult.
Proof. solve_decision. Defined.
#[global] Instance VoteTask_eq_dec : EqDecision VoteTask.
Proof. solve_decision. Defined.
#[global] Instance returnedWith_dec r c : Decision (returnedWith r c).
Proof. unfold returnedWith. apply _. Defined.

(* ===================================================================== *)
(** * middleware.ts: the rate limiter                                     *)
(* ===================================================================== *)

(** The value type of the [rateLimit] map. *)
Record RateEntry := mkEntry { count : Z; timestamp : Millis }.

(** What the middleware reads of a [NextRequest]. *)
Record Request := mkRequest {
  request_ip : option JsString;
  x_forwarded_for : option JsString;
  user_agent : option JsString
}.

(** [getRateLimitKey(request)] *)
Definition getRateLimitKey (request : Request) : JsString :=
  let ip := orElse (request_ip request) (orElse (x_forwarded_for request) (js "unknown")) in
  let userAgent := orElse (user_agent request) (js "unknown") in
  ip ++ js "-" ++ take 50 userAgent.

Definition windowMs : Z := 5 * 60 * 1000.
Definition maxRequests : Z := 100.

(** [isRateLimited(request)] on the [rateLimit] map, with [now] what
    [Date.now()] reads. [current.count++] writes through to the map. *)
Definition isRateLimited (request : Request) (now : Millis)
    (rateLimit : gmap JsString RateEntry) : bool * gmap JsString RateEntry :=
  let key := getRateLimitKey request in
  match rateLimit !! key with
  | None => (false, <[key := mkEntry 1 now]> rateLimit)
  | Some current =>
      if windowMs <? now - timestamp current
      then (false, <[key := mkEntry 1 now]> rateLimit)
      else if maxRequests <=? count current then (true, rateLimit)
      else (false, <[key := mkEntry (count current + 1) (timestamp current)]> rateLimit)
  end.

(** The body of the [setInterval] sweep, run at [now]. *)
Definition sweep (now : Millis) (rateLimit : gmap JsString RateEntry)
    : gmap JsString RateEntry :=
  let fiveMinutesAgo := now - 5 * 60 * 1000 in
  filter (fun kv => ~ (timestamp kv.2 < fiveMinutesAgo)) rateLimit.

Record HttpResponse := mkHttpResponse {
  status : Z;
  headers : list (string * string);
  body : string
}.

(** The response of [updateSession] to a limited request; [now] is the
    [Date.now()] of the [X-RateLimit-Reset] header. *)
Definition tooManyRequests (now : Millis) : HttpResponse :=
  mkHttpResponse 429
    [("Retry-After", "300");
     ("X-RateLimit-Limit", "100");
     ("X-RateLimit-Remaining", "0");
     ("X-RateLimit-Reset", pretty (now + 5 * 60 * 1000))]
    "Too many requests".

(** [headers.get(name)] *)
Definition header (name : string) (r : HttpResponse) : option string :=
  snd <$> List.find (fun h => bool_decide (h.1 = name)) (headers r).

(** What happens to the map over time: a request arrives, with the two
    readings of [Date.now()] that serving it takes, or the sweep runs. *)
Inductive Event :=
| Arrives (request : Request) (now now' : Millis)
| Sweeps (now : Millis).

Definition eventTime (e : Event) : Millis :=
  match e with Arrives _ now _ => now | Sweeps now => now end.

Section Middleware.
(** What [updateSession] does with a request that passed the rate limit:
    the CSRF check, the session refresh and the redirects. *)
Variable passedOn : Request -> HttpResponse.

(** [updateSession(request)]; [now] and [now'] are its two readings of
    [Date.now()]. *)
Definition updateSession (request : Request) (now now' : Millis)
    (rateLimit : gmap JsString RateEntry) : HttpResponse * gmap JsString RateEntry :=
  let (limited, rateLimit') := isRateLimited request now rateLimit in
  if limited then (tooManyRequests now', rateLimit')
  else (passedOn request, rateLimit').

(** The responses to the requests among the events, in order. *)
Fixpoint serve (events : list Event) (rateLimit : gmap JsString RateEntry)
    : list (Request * HttpResponse) :=
  match events with
  | [] => []
  | Arrives request now now' :: rest =>
      let (response, rateLimit') := updateSession request now now' rateLimit in
      (request, response) :: serve rest rateLimit'
  | Sweeps now :: rest => serve rest (sweep now rateLimit)
  end.
End Middleware.

(* ===================================================================== *)
(** * What the properties are stated with                                 *)
(* ===================================================================== *)

(* --------------------------------------------------------------------- *)
(** ** Sanitised text                                                     *)
(* --------------------------------------------------------------------- *)

(** The four code units that no entity text contains. *)
Definition markup (c : CodeUnit) : Prop :=
  c = Ch.lt \/ c = Ch.gt \/ c = Ch.quot \/ c = Ch.apos.

(** The keys of the [entities] table. *)
Definition special (c : CodeUnit) : bool :=
  ((c =? Ch.lt) || (c =? Ch.gt) || (c =? Ch.quot) || (c =? Ch.apos) || (c =? Ch.amp))%N.

(** Neither the first nor the last code unit is white space. *)
Definition trimmed (s : JsString) : Prop :=
  (forall c, head s = Some c -> isWhiteSpace c = false) /\
  (forall c, last s = Some c -> isWhiteSpace c = false).

Definition angleFree (s : JsString) : Prop := (Ch.lt ∉ s) /\ (Ch.gt ∉ s).

Definition angleFreePoll (p : Poll) : Prop :=
  angleFree (poll_question p) /\ Forall angleFree (poll_options p).

(* --------------------------------------------------------------------- *)
(** ** Rows, roles and the journal                                        *)
(* --------------------------------------------------------------------- *)

(** The rows of [polls] with a given id. *)
Definition pollRows (id : Id) (d : Database) : list Poll :=
  filter (fun p => poll_id p = id) (polls d).

(** The rows that the role lookup of [u] selects. *)
Definition roleRows (u : Id) (r : JsString) (d : Database) : list UserRole :=
  filter (fun x => role_user_id x = u /\ role_name x = r) (user_roles d).

(** The rows of [votes] that the duplicate check selects. *)
Definition voteRows (p u : Id) (d : Database) : list Vote :=
  filter (fun v => vote_poll_id v = p /\ vote_user_id v = Some u) (votes d).

(** The rows of [votes] that the ceiling counts. *)
Definition recentRows (u : Id) (since : Millis) (d : Database) : list Vote :=
  filter (fun v => vote_user_id v = Some u /\ since <= vote_created_at v) (votes d).

(** [hasRole(u, r)] of the specification: the lookup in [user_roles], as
    [isAdmin] and [deletePoll] make it, finds the row. *)
Definition hasRole (u : Id) (r : JsString) (w : World) : bool :=
  bool_decide (is_Some (data_of (selectRole u r w).1)).

(** The requests [rs], latest first, are what the journal gained. *)
Definition journalled (rs : list (Table * Verb)) (w w' : World) : Prop :=
  journal w' = rs ++ journal w.

(** The world after a request that the store served without a fault and
    that changed no table. *)
Definition logged (t : Table) (v : Verb) (w : World) : World :=
  mkWorld (db w) [] ((t, v) :: journal w) (clock w) (uuid w) (serial w).

(** The authorization error of [deletePoll]. *)
Definition notPermitted : ActionResult := failed "You can only delete your own polls".

(* --------------------------------------------------------------------- *)
(** ** The gates of submitVote                                            *)
(* --------------------------------------------------------------------- *)

Inductive Gate :=
| PollIdFormat | IndexWellFormed | PollLookup | IndexBounds
| Authenticated | Duplicate | Ceiling | StoreInsert.

(** Does a gate, taken on its own, stop the call? On a store that answers
    every request. *)
Definition gateFails (session : UserResponse) (pollId : JsString) (optionIndex : JsNumber)
    (w : World) (g : Gate) : bool :=
  match g with
  | PollIdFormat => badPollId pollId
  | IndexWellFormed => ltZero optionIndex || negb (isInteger optionIndex)
  | PollLookup => bool_decide (data_of (single (pollRows pollId (db w))) = None)
  | IndexBounds =>
      match single (pollRows pollId (db w)) with
      | Success pollData => geLength optionIndex (length (poll_options pollData))
      | Failure _ => false
      end
  | Authenticated => bool_decide (userIdOf (user session) = None)
  | Duplicate =>
      match userIdOf (user session) with
      | Some u => bool_decide (is_Some (data_of (single (voteRows pollId u (db w)))))
      | None => false
      end
  | Ceiling =>
      match userIdOf (user session) with
      | Some u => (5 <=? length (recentRows u (clock w - 60000) (db w)))%nat
      | None => false
      end
  | StoreInsert =>
      match userIdOf (user session) with
      | Some u =>
          bool_decide (is_Some (voteRuleBroken (db w)
                                  (mkVote pollId (Some u) (integerOf optionIndex) (clock w))))
      | None => false
      end
  end.

Definition gateMessage (g : Gate) : string :=
  match g with
  | PollIdFormat => "Invalid poll ID"
  | IndexWellFormed => "Invalid option selection"
  | PollLookup => "Poll not found"
  | IndexBounds => "Invalid option selected"
  | Authenticated => "Please log in to vote"
  | Duplicate => "You have already voted on this poll"
  | Ceiling => "Too many votes. Please wait a moment."
  | StoreInsert => "Failed to submit vote. Please try again."
  end.

(** The order of the gates in the body of [submitVote]. *)
Definition codeOrder : list Gate :=
  [PollIdFormat; IndexWellFormed; PollLookup; IndexBounds;
   Authenticated; Duplicate; Ceiling; StoreInsert].

(** The order of section 4.5 of the specification, steps 1 to 7. *)
Definition specOrder : list Gate :=
  [Authenticated; IndexWellFormed; PollLookup; IndexBounds;
   Duplicate; Ceiling; StoreInsert].

(** The message of the first gate of [order] that fails. *)
Definition firstRejection (order : list Gate) (session : UserResponse) (pollId : JsString)
    (optionIndex : JsNumber) (w : World) : option string :=
  gateMessage <$> List.find (gateFails session pollId optionIndex w) order.

(** The vote that a call inserts. *)
Definition voteOf (session : UserResponse) (pollId : JsString) (optionIndex : JsNumber)
    (w : World) : Vote :=
  mkVote pollId (userIdOf (user session)) (integerOf optionIndex) (clock w).

(** The number is the integer [k]. *)
Definition denotes (n : JsNumber) (k : Z) : Prop :=
  match n with
  | Finite q => (q == inject_Z k)%Q
  | _ => False
  end.

(** The number is an index into an array of [len] elements. *)
Definition inRange (n : JsNumber) (len : nat) : Prop :=
  exists k : Z, denotes n k /\ 0 <= k < Z.of_nat len.

(** The two invalid-option answers of [submitVote]. *)
Definition invalidOption (r : ActionResult) : Prop :=
  r = failed "Invalid option selection" \/ r = failed "Invalid option selected".

(* --------------------------------------------------------------------- *)
(** ** Messages                                                           *)
(* --------------------------------------------------------------------- *)

(** The messages that [deletePoll] can return: literals of its body. *)
Definition deletePollMessages : list string :=
  ["Authentication failed"; "You must be logged in to delete a poll";
   "Poll not found"; "You can only delete your own polls"; "Failed to delete poll"].

(** The messages that [submitVote] can return: literals of its body. *)
Definition submitVoteMessages : list string := map gateMessage codeOrder.

(* --------------------------------------------------------------------- *)
(** ** Races between calls of submitVote                                  *)
(* --------------------------------------------------------------------- *)

(** [n] turns of one call. *)
Fixpoint voteSteps (n : nat) (session : UserResponse) (pollId : JsString)
    (optionIndex : JsNumber) (t : VoteTask) (w : World) : VoteTask * World :=
  match n with
  | O => (t, w)
  | S n =>
      let (t', w') := voteStep session pollId optionIndex t w in
      voteSteps n session pollId optionIndex t' w'
  end.

(** The calls of a race, none run yet. *)
Definition callsOf (indices : list JsNumber) : list VoteCall :=
  map (fun i => mkCall i Called) indices.

(** What the calls that did not win a race answer. *)
Definition lostMessages : list string :=
  ["You have already voted on this poll";
   "Too many votes. Please wait a moment.";
   "Failed to submit vote. Please try again."].

Definition lost (c : VoteCall) : Prop :=
  exists m, m ∈ lostMessages /\ returnedWith (failed m) c.

Section RaceModel.
(** The user [p] races on the poll [pollData] with id [pollId], from the
    world [w0]. *)
Variables (p pollId : Id) (pollData : Poll) (w0 : World).

(** Where a call can stand before any call has inserted. *)
Definition early (t : VoteTask) : Prop :=
  match t with
  | Called | AwaitingPoll => True
  | AwaitingExisting u | AwaitingInsert u => u = p
  | AwaitingRecent u since => u = p /\ (length (recentRows p since (db w0)) < 5)%nat
  | Returned _ => False
  end.

(** Where a call can stand after one has. *)
Definition late (t : VoteTask) : Prop :=
  match t with
  | Called | AwaitingPoll => True
  | AwaitingExisting u | AwaitingInsert u | AwaitingRecent u _ => u = p
  | Returned r => r = ok \/ exists m, m ∈ lostMessages /\ r = failed m
  end.

(** A vote of [p] on the poll. *)
Definition theVote (v : Vote) : Prop :=
  vote_poll_id v = pollId /\ vote_user_id v = Some p.

(** The calls all carry an index into the options of the poll. *)
Definition validCalls (calls : list VoteCall) : Prop :=
  Forall (fun c => inRange (call_index c) (length (poll_options pollData))) calls.

(** No call has inserted yet. *)
Definition raceOpen (s : World * list VoteCall) : Prop :=
  votes (db s.1) = votes (db w0) /\ Forall (fun c => early (call_task c)) s.2.

(** One call has inserted, and it is the only one to have returned
    without an error. *)
Definition raceWon (s : World * list VoteCall) : Prop :=
  (exists v, theVote v /\ votes (db s.1) = votes (db w0) ++ [v]) /\
  Forall (fun c => late (call_task c)) s.2 /\
  length (filter (returnedWith ok) s.2) = 1%nat.

Definition raceInvariant (s : World * list VoteCall) : Prop :=
  faults s.1 = [] /\ polls (db s.1) = polls (db w0) /\ validCalls s.2 /\
  (raceOpen s \/ raceWon s).

(** The clock reading of a turn sees fewer than five votes of [p] in the
    minute before it. *)
Definition quiet (e : nat * Millis) : Prop :=
  (length (recentRows p (e.2 - 60000) (db w0)) < 5)%nat.
End RaceModel.

(** The three answers of [submitVote] to a call that lost a race. *)
Definition alreadyVoted : ActionResult := failed "You have already voted on this poll".
Definition tooManyVotes : ActionResult := failed "Too many votes. Please wait a moment.".
Definition failedInsert : ActionResult := failed "Failed to submit vote. Please try again.".

(** Where a call that stood at [t2] when the winning call had just
    inserted can stand afterwards. A call whose duplicate check was still
    to come ([Called], [AwaitingPoll], [AwaitingExisting]) gets no further
    than that check; a call that had passed it goes on to the ceiling and to
    the insert. *)
Definition pursues (p : Id) (t2 t : VoteTask) : Prop :=
  match t2 with
  | Called | AwaitingPoll | AwaitingExisting _ =>
      match t with
      | Called | AwaitingPoll => True
      | AwaitingExisting u => u = p
      | Returned r => r = alreadyVoted
      | AwaitingRecent _ _ | AwaitingInsert _ => False
      end
  | AwaitingRecent _ _ =>
      match t with
      | AwaitingRecent u _ | AwaitingInsert u => u = p
      | Returned r => r = tooManyVotes \/ r = failedInsert
      | Called | AwaitingPoll | AwaitingExisting _ => False
      end
  | AwaitingInsert _ =>
      match t with
      | AwaitingInsert u => u = p
      | Returned r => r = failedInsert
      | _ => False
      end
  | Returned r => t = Returned r
  end.

(** What a call that stood at [t2] when the winning call had just inserted
    has answered in the end: the duplicate-vote message when its duplicate
    check was still to come; the message of the ceiling or of the failed
    insert when it had passed the duplicate check and not the ceiling; the
    message of the failed insert when it had passed both; and what it had
    answered, when it had returned (the winning call). *)
Definition answerAfterWin (t2 : VoteTask) (c : VoteCall) : Prop :=
  match t2 with
  | Called | AwaitingPoll | AwaitingExisting _ => returnedWith alreadyVoted c
  | AwaitingRecent _ _ => returnedWith tooManyVotes c \/ returnedWith failedInsert c
  | AwaitingInsert _ => returnedWith failedInsert c
  | Returned r => returnedWith r c
  end.

(** The race after the winning insert of [v], against the calls [calls2]
    as they stood just after it. *)
Definition afterWin (p pollId : Id) (pollData : Poll) (w0 : World)
    (calls2 : list VoteCall) (v : Vote) (s : World * list VoteCall) : Prop :=
  faults s.1 = [] /\ polls (db s.1) = polls (db w0) /\ validCalls pollData s.2 /\
  votes (db s.1) = votes (db w0) ++ [v] /\
  Forall2 (fun c2 c => pursues p (call_task c2) (call_task c)) calls2 s.2.

(* --------------------------------------------------------------------- *)
(** ** Windows of the rate limiter                                        *)
(* --------------------------------------------------------------------- *)

(** The window of a key is stale at [now], or the key has none. *)
Definition stale (k : JsString) (now : Millis) (rateLimit : gmap JsString RateEntry) : Prop :=
  match rateLimit !! k with
  | None => True
  | Some current => windowMs < now - timestamp current
  end.

(** A served request of the client [k]. *)
Definition fromKey (k : JsString) (x : Request * HttpResponse) : Prop :=
  getRateLimitKey x.1 = k.

#[global] Instance fromKey_dec k x : Decision (fromKey k x).
Proof. unfold fromKey. apply _. Defined.

(* --------------------------------------------------------------------- *)
(** ** The scenarios of the specification                                 *)
(* --------------------------------------------------------------------- *)

Module Sample.
Definition alice : Id := js "a11ce000-0000-4000-8000-000000000001".
Definition bob : Id := js "b0b00000-0000-4000-8000-000000000002".
Definition carol : Id := js "ca501000-0000-4000-8000-000000000003".
Definition colors : Id := js "c0105000-0000-4000-8000-00000000000a".
Definition fresh : Id := js "f5e50000-0000-4000-8000-00000000000b".

(** Alice's poll. *)
Definition bestColor : Poll :=
  mkPoll colors alice (js "Best color?") [js "Red"; js "Blue"].

(** Bob is an admin, Carol is not. *)
Definition tables : Database := mkDatabase [bestColor] [mkUserRole bob ADMIN] [].

Definition world : World := mkWorld tables [] [] 1700000000000 (fun _ => fresh) 0.

(** The same world with the store failing its next request. *)
Definition outage (m : string) : World :=
  mkWorld tables [Some m] [] 1700000000000 (fun _ => fresh) 0.

Definition newColors : FormData :=
  mkFormData (Some (js "Best colour?")) [js "Red"; js "Green"].

(** What a store that cannot reach its database says. *)
Definition refused : string :=
  "connection to server at 10.0.3.17, port 5432 failed: FATAL: password authentication failed for user supabase_admin".

(** Two calls of one user, turn by turn. *)
Definition lockstep : list (nat * Millis) :=
  map (fun i => (i, clock world)) [0; 1; 0; 1; 0; 1; 0; 1; 0; 1]%nat.

Definition browser : Request :=
  mkRequest (Some (js "203.0.113.7")) None (Some (js "Mozilla/5.0")).
Definition other : Request :=
  mkRequest None (Some (js "198.51.100.2")) None.
Definition page : HttpResponse := mkHttpResponse 200 [] "".
Definition passedOn (_ : Request) : HttpResponse := page.
End Sample.


(* ===================================================================== *)
(** * The other actions, the edit page, the CSRF check                    *)
(* ===================================================================== *)

(* --------------------------------------------------------------------- *)
(** ** poll-actions.ts: getUserPolls                                      *)
(* --------------------------------------------------------------------- *)

(** [{ polls, error }], the result of [getUserPolls]. *)
Record PollsResult := mkPollsResult { polls_found : list Poll; polls_error : option string }.

Section GetUserPolls.
(** [.order("created_at", { ascending: false })]: the rows of [polls] carry
    no [created_at] here, so the order that the store gives them is taken
    from outside. *)
Variable newestFirst : list Poll -> list Poll.

(** [from("polls").select("*").eq("user_id", u).order("created_at", ...)] *)
Definition selectPollsByUser (u : Id) : World -> Response (list Poll) * World :=
  query TPolls (fun d =>
    Success (newestFirst (filter (fun p => poll_user_id p = u) (polls d)))).

(** [getUserPolls()] *)
Definition getUserPolls (session : UserResponse) : World -> PollsResult * World :=
  call (
    match user session with
    | None => Return (mkPollsResult [] (Some "Not authenticated"))
    | Some user =>
        let* found := await (selectPollsByUser (user_id user)) in
        match error_of found with
        | Some message => Return (mkPollsResult [] (Some message))
        | None => Return (mkPollsResult (default [] (data_of found)) None)
        end
    end).
End GetUserPolls.

(* --------------------------------------------------------------------- *)
(** ** auth-actions.ts: passwords, login, register                        *)
(* --------------------------------------------------------------------- *)

(** [/[a-z]/], [/[A-Z]/] and [/\d/] on one code unit. *)
Definition isLowerLetter (c : CodeUnit) : bool := ((97 <=? c) && (c <=? 122))%N.
Definition isUpperLetter (c : CodeUnit) : bool := ((65 <=? c) && (c <=? 90))%N.
Definition isDigit (c : CodeUnit) : bool := ((48 <=? c) && (c <=? 57))%N.

(** The characters of the class of special characters of
    [validatePassword], in the order of the class. *)
Definition passwordSpecials : JsString :=
  js "!@#$%^&*()_+-=[]{};':" ++ [Ch.quot] ++ js "\|,.<>/?".

Definition isPasswordSpecial (c : CodeUnit) : bool :=
  existsb (N.eqb c) passwordSpecials.

Definition commonPasswords : list JsString :=
  map js ["password"; "123456"; "12345678"; "qwerty"; "abc123";
          "password123"; "admin"; "letmein"; "welcome"; "monkey"].

(** [validatePassword(password)] *)
Definition validatePassword `{JsRuntime} (password : JsString) : option string :=
  if falsy password || (length password <? 8)%nat
  then Some "Password must be at least 8 characters long"
  else if (128 <? length password)%nat
  then Some "Password must be less than 128 characters"
  else if negb (existsb isLowerLetter password)
  then Some "Password must contain at least one lowercase letter"
  else if negb (existsb isUpperLetter password)
  then Some "Password must contain at least one uppercase letter"
  else if negb (existsb isDigit password)
  then Some "Password must contain at least one number"
  else if negb (existsb isPasswordSpecial password)
  then Some "Password must contain at least one special character"
  else if bool_decide (toLowerCase password ∈ commonPasswords)
  then Some "This password is too common. Please choose a stronger password"
  else None.

(** [sanitizeEmail(email)] *)
Definition sanitizeEmail `{JsRuntime} (email : JsString) : JsString :=
  toLowerCase (trim email).

(** Does [s] start with [pat]? *)
Fixpoint startsWith (pat s : JsString) : bool :=
  match pat, s with
  | [], _ => true
  | _ :: _, [] => false
  | p :: pat', c :: s' => (c =? p)%N && startsWith pat' s'
  end.

(** [s.includes(pat)] *)
Fixpoint includes (pat s : JsString) : bool :=
  startsWith pat s ||
  match s with
  | [] => false
  | _ :: rest => includes pat rest
  end.

(** [!email || !email.includes("@") || email.length > 254] *)
Definition badEmail (email : JsString) : bool :=
  falsy email || negb (includes (js "@") email) || (254 <? length email)%nat.

(** What the auth service answers to what it is sent: the message of its
    error, or nothing. Its accounts are not modelled. *)
Class AuthService := {
  (** [supabase.auth.signInWithPassword({ email, password })] *)
  signInWithPassword : JsString -> JsString -> option string;
  (** [supabase.auth.signUp({ email, password, options: { data: { name } } })] *)
  signUp : JsString -> JsString -> JsString -> option string;
  (** [supabase.auth.signOut()] *)
  signOut : option string
}.

(** The fields that [login] and [register] read of their argument. *)
Record LoginFormData := mkLogin { login_email : JsString; login_password : JsString }.
Record RegisterFormData := mkRegister {
  register_name : JsString;
  register_email : JsString;
  register_password : JsString
}.

(** [login(data)] *)
Definition login `{JsRuntime} `{AuthService} (data : LoginFormData) : ActionResult :=
  let email := sanitizeEmail (login_email data) in
  if badEmail email then failed "Please enter a valid email address"
  else if falsy (login_password data) then failed "Password is required"
  else
    match signInWithPassword email (login_password data) with
    | Some message =>
        if includes (js "Invalid login credentials") (js message)
        then failed "Invalid email or password"
        else failed "Login failed. Please try again."
    | None => ok
    end.

(** The name that [register] sends:
    [data.name.trim().replace(/<[^>]*>/g, "")]. *)
Definition registeredName (name : JsString) : JsString := stripTags (trim name).

(** [register(data)] *)
Definition register `{JsRuntime} `{AuthService} (data : RegisterFormData) : ActionResult :=
  let email := sanitizeEmail (register_email data) in
  if badEmail email then failed "Please enter a valid email address"
  else if blank (register_name data) then failed "Name is required"
  else if (100 <? length (register_name data))%nat
  then failed "Name must be less than 100 characters"
  else
    let name := registeredName (register_name data) in
    match validatePassword (register_password data) with
    | Some passwordError => failed passwordError
    | None =>
        match signUp email (register_password data) name with
        | Some message =>
            if includes (js "already registered") (js message)
            then failed "An account with this email already exists"
            else failed "Registration failed. Please try again."
        | None => ok
        end
    end.

(** [logout()] *)
Definition logout `{AuthService} : ActionResult :=
  match signOut with
  | Some _ => failed "Logout failed. Please try again."
  | None => ok
  end.

(** [getCurrentUser()] *)
Definition getCurrentUser (session : UserResponse) : option User := user session.

(** [requireAuth()]; [inl] is the message of the [Error] it throws. *)
Definition requireAuth (session : UserResponse) : string + User :=
  match getCurrentUser session with
  | None => inl "Authentication required"
  | Some user => inr user
  end.

(** [requireAdmin()] *)
Definition requireAdmin (session : UserResponse) (w : World) : (string + User) * World :=
  match requireAuth session with
  | inl message => (inl message, w)
  | inr user =>
      let (isUserAdmin, w') := isAdmin (Some (user_id user)) w in
      if isUserAdmin then (inr user, w')
      else (inl "Admin access required", w')
  end.

(* --------------------------------------------------------------------- *)
(** ** polls/[id]/edit/page.tsx                                           *)
(* --------------------------------------------------------------------- *)

(** How the page ends: [notFound()], [redirect(url)], or the form for the
    poll. *)
Inductive PageOutcome :=
| NotFound
| RedirectTo (url : string)
| Renders (poll : Poll).

(** [EditPollPage({ params })] with [params.id = id] *)
Definition EditPollPage (session : UserResponse) (id : JsString)
    : World -> PageOutcome * World :=
  call (
    if badPollId id then Return NotFound
    else
      match getCurrentUser session with
      | None => Return (RedirectTo "/login")
      | Some user =>
          let* fetched := await (getPollById id) in
          match poll_error fetched, poll fetched with
          | None, Some poll =>
              if bool_decide (poll_user_id poll <> user_id user)
              then Return (RedirectTo "/polls?error=unauthorized")
              else Return (Renders poll)
          | _, _ => Return NotFound
          end
      end).

(* --------------------------------------------------------------------- *)
(** ** Histories of calls                                                 *)
(* --------------------------------------------------------------------- *)

(** A call of one of the actions on the store. *)
Inductive Call :=
| CallCreatePoll (session : UserResponse) (formData : FormData)
| CallUpdatePoll (session : UserResponse) (pollId : JsString) (formData : FormData)
| CallDeletePoll (session : UserResponse) (id : Id)
| CallSubmitVote (session : UserResponse) (pollId : JsString) (optionIndex : JsNumber)
| CallGetPollById (id : Id)
| CallIsAdmin (userId : option Id)
| CallRequireAdmin (session : UserResponse)
| CallEditPollPage (session : UserResponse) (id : JsString).

(** The world that a call leaves. *)
Definition perform `{JsRuntime} (c : Call) (w : World) : World :=
  match c with
  | CallCreatePoll session formData => (createPoll session formData w).2
  | CallUpdatePoll session pollId formData => (updatePoll session pollId formData w).2
  | CallDeletePoll session id => (deletePoll session id w).2
  | CallSubmitVote session pollId optionIndex => (submitVote session pollId optionIndex w).2
  | CallGetPollById id => (getPollById id w).2
  | CallIsAdmin userId => (isAdmin userId w).2
  | CallRequireAdmin session => (requireAdmin session w).2
  | CallEditPollPage session id => (EditPollPage session id w).2
  end.

(** What happens to the world: an action is called, or time passes and the
    store gets into another condition. *)
Inductive Happening :=
| Calls (c : Call)
| Passes (clock : Millis) (faults : list (option string)).

Definition happen `{JsRuntime} (w : World) (h : Happening) : World :=
  match h with
  | Calls c => perform c w
  | Passes t fs => mkWorld (db w) fs (journal w) t (uuid w) (serial w)
  end.

(** The world after a history. *)
Definition after `{JsRuntime} (history : list Happening) (w : World) : World :=
  fold_left happen history w.

(** What holds of [votes] at all times: every vote has its voter, a
    non-negative index and its poll, and nobody has two votes on one
    poll. *)
Definition votesSound (d : Database) : Prop :=
  Forall (fun v => is_Some (vote_user_id v) /\ 0 <= vote_option_index v
                   /\ Exists (fun p => poll_id p = vote_poll_id v) (polls d)) (votes d)
  /\ forall p u, (length (voteRows p u d) <= 1)%nat.

(** What [updatePoll] does to a row, for the caller [u]. *)
Definition revised (pollId u : Id) (question : JsString) (options : list JsString)
    (x : Poll) : Poll :=
  if bool_decide (poll_id x = pollId /\ poll_user_id x = u)
  then mkPoll (poll_id x) (poll_user_id x) question options
  else x.

(** The form passes [validatePollInput], said without the loop and the
    set. *)
Definition wellFormedPoll `{JsRuntime} (question : option JsString)
    (options : list JsString) : Prop :=
  (exists q, question = Some q /\ blank q = false
             /\ (length q <= MAX_QUESTION_LENGTH)%nat /\ suspicious q = false) /\
  (MIN_OPTIONS <= length options <= MAX_OPTIONS)%nat /\
  Forall (fun o => blank o = false /\ (length o <= MAX_OPTION_LENGTH)%nat
                   /\ suspicious o = false) options /\
  NoDup (map (fun o => trim (toLowerCase o)) options).

(** [mid] is [pat] up to the case of ASCII letters. *)
Definition sameIgnoringCase (mid pat : JsString) : Prop :=
  Forall2 (fun c p => eqIgnoreCase c p = true) mid pat.

(** The password has what [validatePassword] asks for. *)
Definition strongPassword (password : JsString) : Prop :=
  (8 <= length password <= 128)%nat /\
  Exists (fun c => isLowerLetter c = true) password /\
  Exists (fun c => isUpperLetter c = true) password /\
  Exists (fun c => isDigit c = true) password /\
  Exists (fun c => isPasswordSpecial c = true) password.

(** The messages that [login] and [register] can return. *)
Definition loginMessages : list string :=
  ["Please enter a valid email address"; "Password is required";
   "Invalid email or password"; "Login failed. Please try again."].

Definition passwordMessages : list string :=
  ["Password must be at least 8 characters long";
   "Password must be less than 128 characters";
   "Password must contain at least one lowercase letter";
   "Password must contain at least one uppercase letter";
   "Password must contain at least one number";
   "Password must contain at least one special character";
   "This password is too common. Please choose a stronger password"].

Definition registerMessages : list string :=
  ["Please enter a valid email address"; "Name is required";
   "Name must be less than 100 characters";
   "An account with this email already exists";
   "Registration failed. Please try again."] ++ passwordMessages.

(* --------------------------------------------------------------------- *)
(** ** The rate-limit map over time                                       *)
(* --------------------------------------------------------------------- *)

(** The map after the events. *)
Fixpoint tableAfter (events : list Event) (rateLimit : gmap JsString RateEntry)
    : gmap JsString RateEntry :=
  match events with
  | [] => rateLimit
  | Arrives request now _ :: rest => tableAfter rest (isRateLimited request now rateLimit).2
  | Sweeps now :: rest => tableAfter rest (sweep now rateLimit)
  end.

(** Every window has counted at least one request and at most the
    maximum. *)
Definition countsBounded (rateLimit : gmap JsString RateEntry) : Prop :=
  forall k e, rateLimit !! k = Some e -> 1 <= count e <= maxRequests.

(** The event is a request of the client [k], or a sweep. *)
Definition concerns (k : JsString) (e : Event) : Prop :=
  match e with
  | Arrives request _ _ => getRateLimitKey request = k
  | Sweeps _ => True
  end.

#[global] Instance concerns_dec k e : Decision (concerns k e).
Proof. destruct e; simpl; apply _. Defined.

(* --------------------------------------------------------------------- *)
(** ** Tags                                                               *)
(* --------------------------------------------------------------------- *)

(** No [<] of the text has a [>] after it: [/<[^>]*>/] matches nowhere. *)
Fixpoint tagFree (s : JsString) : bool :=
  match s with
  | [] => true
  | c :: rest => negb ((c =? Ch.lt)%N && hasGt rest) && tagFree rest
  end.

(* --------------------------------------------------------------------- *)
(** ** What the auth service is sent                                      *)
(* --------------------------------------------------------------------- *)

(** What [login] lets through to [signInWithPassword]. *)
Definition loginChecked (email password : JsString) : Prop :=
  badEmail email = false /\ password <> [].

(** What [register] lets through to [signUp]. *)
Definition registerChecked (email password name : JsString) : Prop :=
  badEmail email = false /\ strongPassword password /\ tagFree name = true
  /\ (length name <= 100)%nat.

(** [toLowerCase] leaves the special characters of passwords where they
    are. *)
Definition keepsSpecials `{JsRuntime} : Prop :=
  forall s c, isPasswordSpecial c = true -> c ∈ s -> c ∈ toLowerCase s.

Module SampleAuth.
(** A service that knows nobody and has every address taken. *)
Definition closed : AuthService := {|
  signInWithPassword := fun _ _ => Some "Invalid login credentials";
  signUp := fun _ _ _ => Some "User already registered";
  signOut := None
|}.

(** A service that takes everybody. *)
Definition open : AuthService := {|
  signInWithPassword := fun _ _ => None;
  signUp := fun _ _ _ => None;
  signOut := None
|}.

(** A service with a password rule of its own. *)
Definition picky : AuthService := {|
  signInWithPassword := fun _ _ => None;
  signUp := fun _ password _ =>
    if (length password <? 8)%nat then Some "Password should be at least 8 characters"
    else None;
  signOut := None
|}.

Definition weak : RegisterFormData :=
  mkRegister (js "Dave") (js "dave@example.com") (js "pass").
End SampleAuth.

(** The event is a request. *)
Definition arrival (e : Event) : Prop :=
  match e with
  | Arrives _ _ _ => True
  | Sweeps _ => False
  end.

#[global] Instance arrival_dec e : Decision (arrival e).
Proof. destruct e; simpl; apply _. Defined.

(** The events come in the order of their times, none before [t]. *)
Fixpoint inTimeOrder (t : Millis) (events : list Event) : Prop :=
  match events with
  | [] => True
  | e :: rest => t <= eventTime e /\ inTimeOrder (eventTime e) rest
  end.

(** [swept] is [whole] without some windows that were stale by [t]. *)
Definition sweptBy (t : Millis) (swept whole : gmap JsString RateEntry) : Prop :=
  forall k,
    swept !! k = whole !! k
    \/ (swept !! k = None
        /\ exists e, whole !! k = Some e /\ timestamp e < t - 5 * 60 * 1000).

(* --------------------------------------------------------------------- *)
(** ** middleware.ts: hasCSRFProtection                                   *)
(* --------------------------------------------------------------------- *)

(** What [hasCSRFProtection] reads of a request: the method and three
    headers, [None] for a header that is not sent. *)
Record CsrfView := mkCsrfView {
  csrf_method : JsString;
  csrf_token : option JsString;
  csrf_origin : option JsString;
  csrf_host : option JsString
}.

(** A header that is sent and not empty. *)
Definition truthy (h : option JsString) : bool :=
  match h with
  | Some s => negb (falsy s)
  | None => false
  end.

Section Csrf.
(** [new URL(origin).host]; [None] when the constructor throws. *)
Variable urlHost : JsString -> option JsString.

(** [hasCSRFProtection(request)]; [None] when it throws. *)
Definition hasCSRFProtection (request : CsrfView) : option bool :=
  if bool_decide (csrf_method request ∈ map js ["GET"; "HEAD"; "OPTIONS"])
  then Some true
  else
    match csrf_origin request, csrf_host request with
    | Some origin, Some host =>
        if negb (falsy origin) && negb (falsy host)
        then
          match urlHost origin with
          | Some originHost => Some (bool_decide (originHost = host))
          | None => None
          end
        else Some (truthy (csrf_token request))
    | _, _ => Some (truthy (csrf_token request))
    end.
End Csrf.

(** The request with another [x-csrf-token] header. *)
Definition withToken (token : option JsString) (request : CsrfView) : CsrfView :=
  mkCsrfView (csrf_method request) token (csrf_origin request) (csrf_host request).

Module SampleCsrf.
(** A form post with no [Origin] header. *)
Definition bare : CsrfView :=
  mkCsrfView (js "POST") (Some (js "anything")) None (Some (js "polly.example")).
(** The host of the origin of the site. *)
Definition urlHost (origin : JsString) : option JsString :=
  if bool_decide (origin = js "https://polly.example") then Some (js "polly.example")
  else None.
End SampleCsrf.

(* --------------------------------------------------------------------- *)
(** ** Votes and the options of their polls                               *)
(* --------------------------------------------------------------------- *)

(** Every vote is for an option that its poll has. *)
Definition votesInRange (d : Database) : Prop :=
  Forall (fun v => Exists (fun p => poll_id p = vote_poll_id v
                             /\ 0 <= vote_option_index v < Z.of_nat (length (poll_options p)))
                     (polls d)) (votes d).

(** What happens is not a call of [updatePoll]. *)
Definition noUpdate (h : Happening) : Prop :=
  match h with
  | Calls (CallUpdatePoll _ _ _) => False
  | _ => True
  end.

(* --------------------------------------------------------------------- *)
(** ** What sanitising is to do                                           *)
(* --------------------------------------------------------------------- *)

(** [out] is [s] with its tags removed. Reading from the left, a [<] that
    has a [>] somewhere after it opens a tag, the tag ends at the first
    such [>], and the reading resumes after it; every other code unit is
    kept. *)
Inductive TagsRemoved : JsString -> JsString -> Prop :=
| TagsRemoved_end : TagsRemoved [] []
| TagsRemoved_tag (body rest out : JsString) :
    (Ch.gt ∉ body) -> TagsRemoved rest out ->
    TagsRemoved (Ch.lt :: body ++ Ch.gt :: rest) out
| TagsRemoved_keep (c : CodeUnit) (rest out : JsString) :
    (c = Ch.lt -> Ch.gt ∉ rest) -> TagsRemoved rest out ->
    TagsRemoved (c :: rest) (c :: out).

(** The entities and the characters they stand for, as a reader of HTML
    has them. *)
Definition namedEntities : list (JsString * CodeUnit) :=
  [(js "&lt;", Ch.lt); (js "&gt;", Ch.gt); (js "&quot;", Ch.quot);
   (js "&#x27;", Ch.apos); (js "&amp;", Ch.amp)].

(** The entity that [s] starts with, if any. *)
Definition entityAt (s : JsString) : option (JsString * CodeUnit) :=
  List.find (fun e => startsWith e.1 s) namedEntities.

(** Reading the entities back, from the left; [skip] code units of an
    entity that was read are still to pass over. *)
Fixpoint decodeFrom (skip : nat) (s : JsString) : JsString :=
  match s with
  | [] => []
  | c :: rest =>
      match skip with
      | S k => decodeFrom k rest
      | O =>
          match entityAt s with
          | Some (name, d) => d :: decodeFrom (length name - 1) rest
          | None => c :: decodeFrom 0 rest
          end
      end
  end.

Definition decodeEntities (s : JsString) : JsString := decodeFrom 0 s.

(* ===================================================================== *)
(** * Properties                                                          *)
(* ===================================================================== *)

(** Unfolds the plumbing of an action, keeping the requests folded. *)
Ltac run_action := unfold call, andThen, await, proceed, Return, dateNow in *.

(** Unfolds an action down to the tables. *)
Ltac step_action :=
  unfold call, andThen, await, proceed, Return, dateNow,
    selectPollById, selectRole, selectVote, selectVotesSince,
    insertPoll, insertVote, deletePollRow, updatePollRow,
    query, mutate, reach, with_db in *.

Lemma filter_none {A} (P : A -> Prop) `{forall x, Decision (P x)} (l : list A) :
  (forall x, x ∈ l -> ~ P x) -> filter P l = [].
Proof.
  induction l as [|a l IH]; [done|]. intros H'.
  rewrite filter_cons_False by (apply H'; left).
  apply IH. intros x Hx. apply H'. by right.
Qed.

(** Replacing one element changes a count by what the two elements count. *)
Lemma count_insert {A} (P : A -> Prop) `{forall x, Decision (P x)} (l : list A) i x y :
  l !! i = Some x ->
  (length (filter P (<[i := y]> l)) + (if decide (P x) then 1 else 0)
   = length (filter P l) + (if decide (P y) then 1 else 0))%nat.
Proof.
  revert i. induction l as [|a l IH]; intros i Hi; [done|].
  destruct i as [|i]; simpl in *.
  - injection Hi as ->. rewrite !filter_cons. repeat case_decide; simpl; lia.
  - specialize (IH i Hi). rewrite !filter_cons. repeat case_decide; simpl in *; lia.
Qed.

Lemma Forall2_with_r {A B} (P R : A -> B -> Prop) (Q : B -> Prop) l k :
  Forall2 P l k -> Forall Q k -> (forall x y, P x y -> Q y -> R x y) -> Forall2 R l k.
Proof.
  intros HP HQ Himp. induction HP as [|x y l k Hxy HP IH]; [constructor|].
  apply Forall_cons in HQ as [Hy HQ]. constructor; auto.
Qed.

(* --------------------------------------------------------------------- *)
(** ** sanitizeInput                                                      *)
(* --------------------------------------------------------------------- *)

Section Sanitizer.
Implicit Types (s x : JsString) (c d : CodeUnit).

Lemma entity_plain c : special c = false -> entity c = [c].
Proof.
  unfold special, entity. intros H.
  repeat (apply orb_false_elim in H; destruct H as [H ?]).
  by repeat match goal with E : (_ =? _)%N = false |- _ => rewrite E; clear E end.
Qed.

(** An entity is [&], a name without markup, and [;]. *)
Lemma entity_special c :
  special c = true ->
  exists name, entity c = Ch.amp :: name ++ [Ch.semi]
               /\ Forall (fun d => ~ markup d /\ d <> Ch.amp) name.
Proof.
  unfold special, entity, markup. intros H.
  destruct (c =? Ch.lt)%N; [exists (js "lt")|
  destruct (c =? Ch.gt)%N; [exists (js "gt")|
  destruct (c =? Ch.quot)%N; [exists (js "quot")|
  destruct (c =? Ch.apos)%N; [exists (js "#x27")|
  destruct (c =? Ch.amp)%N; [exists (js "amp")| done]]]]];
    (split; [reflexivity|]);
    repeat constructor; unfold Ch.lt, Ch.gt, Ch.quot, Ch.apos, Ch.amp; simpl; lia.
Qed.

Lemma special_markup c : special c = false -> ~ markup c /\ c <> Ch.amp.
Proof.
  unfold special, markup. rewrite !orb_false_iff, !N.eqb_neq.
  intros ((((? & ?) & ?) & ?) & ?). split; [|done].
  intros [?|[?|[?|?]]]; contradiction.
Qed.

Lemma not_special c : ~ markup c -> c <> Ch.amp -> special c = false.
Proof.
  unfold markup, special. intros H1 H2.
  repeat (apply orb_false_intro); apply N.eqb_neq; naive_solver.
Qed.

Lemma entity_no_markup c d : d ∈ entity c -> ~ markup d.
Proof.
  destruct (special c) eqn:E.
  - destruct (entity_special c E) as (name & -> & Hname).
    rewrite elem_of_cons, elem_of_app, list_elem_of_singleton.
    intros [->|[Hd| ->]].
    + unfold markup, Ch.amp, Ch.lt, Ch.gt, Ch.quot, Ch.apos. lia.
    + rewrite Forall_forall in Hname. by apply Hname.
    + unfold markup, Ch.semi, Ch.lt, Ch.gt, Ch.quot, Ch.apos. lia.
  - rewrite (entity_plain c E), list_elem_of_singleton. intros ->.
    by apply special_markup.
Qed.

Lemma escapeEntities_no_markup s d : d ∈ escapeEntities s -> ~ markup d.
Proof.
  unfold escapeEntities. rewrite list_elem_of_In, in_flat_map.
  intros (c & _ & Hd). apply (entity_no_markup c). by apply list_elem_of_In.
Qed.

Lemma trimStart_elem s d : d ∈ trimStart s -> d ∈ s.
Proof.
  induction s as [|c s IH]; simpl; [done|].
  destruct (isWhiteSpace c); [|done].
  intros H. right. by apply IH.
Qed.

Lemma trim_elem s d : d ∈ trim s -> d ∈ s.
Proof.
  unfold trim, trimEnd. rewrite elem_of_reverse.
  intros H%trimStart_elem. apply trimStart_elem. by rewrite <- elem_of_reverse.
Qed.

Lemma sanitizeInput_no_markup x d : d ∈ sanitizeInput x -> ~ markup d.
Proof. intros H%trim_elem. by apply escapeEntities_no_markup in H. Qed.

Lemma sanitizeInput_angleFree x : angleFree (sanitizeInput x).
Proof.
  split; intros H%sanitizeInput_no_markup; apply H; unfold markup; auto.
Qed.

Lemma trimStart_head s c : head (trimStart s) = Some c -> isWhiteSpace c = false.
Proof.
  induction s as [|d s IH]; simpl; [done|].
  destruct (isWhiteSpace d) eqn:E; [done|]. simpl. by intros [= <-].
Qed.

Lemma trimStart_fixed s :
  (forall c, head s = Some c -> isWhiteSpace c = false) -> trimStart s = s.
Proof. destruct s as [|d s]; simpl; [done|]. intros H. by rewrite (H d). Qed.

(** [trimStart] takes a white prefix off. *)
Lemma trimStart_split s :
  exists white, s = white ++ trimStart s /\ Forall (fun c => isWhiteSpace c = true) white.
Proof.
  induction s as [|d s (white & E & Hw)]; simpl.
  - by exists [].
  - destruct (isWhiteSpace d) eqn:Ed.
    + exists (d :: white). split; [by rewrite E at 1 | by constructor].
    + by exists [].
Qed.

Lemma trim_trimmed s : trimmed (trim s).
Proof.
  unfold trim, trimEnd. set (t := trimStart s).
  split; intros c Hc.
  - destruct (trimStart_split (reverse t)) as (white & E & _).
    apply (f_equal reverse) in E. rewrite reverse_involutive, reverse_app in E.
    apply (trimStart_head s). fold t. rewrite E.
    destruct (reverse (trimStart (reverse t))); [done|]. exact Hc.
  - rewrite last_reverse in Hc. by apply trimStart_head in Hc.
Qed.

Lemma trim_fixed s : trimmed s -> trim s = s.
Proof.
  intros [Hh Hl]. unfold trim, trimEnd.
  rewrite (trimStart_fixed s Hh), trimStart_fixed; [apply reverse_involutive|].
  intros c. rewrite head_reverse. apply Hl.
Qed.

Lemma entity_head c d : head (entity c) = Some d -> d = c \/ d = Ch.amp.
Proof.
  destruct (special c) eqn:E.
  - destruct (entity_special c E) as (name & -> & _). simpl. intros [= <-]. by right.
  - rewrite (entity_plain c E). simpl. intros [= <-]. by left.
Qed.

Lemma entity_last c d : last (entity c) = Some d -> d = c \/ d = Ch.semi.
Proof.
  destruct (special c) eqn:E.
  - destruct (entity_special c E) as (name & -> & _).
    change (Ch.amp :: name ++ [Ch.semi]) with ((Ch.amp :: name) ++ [Ch.semi]).
    rewrite last_snoc. intros [= <-]. by right.
  - rewrite (entity_plain c E). simpl. intros [= <-]. by left.
Qed.

Lemma entity_nonempty c : entity c <> [].
Proof.
  destruct (special c) eqn:E.
  - by destruct (entity_special c E) as (name & -> & _).
  - by rewrite (entity_plain c E).
Qed.

Lemma escapeEntities_trimmed s : trimmed s -> trimmed (escapeEntities s).
Proof.
  intros [Hh Hl]. split; intros d Hd.
  - destruct s as [|c s]; [done|]. simpl in Hd.
    destruct (entity c) as [|e es] eqn:E; [by apply entity_nonempty in E|].
    simpl in Hd. injection Hd as ->.
    destruct (entity_head c d) as [->| ->]; [by rewrite E| by apply Hh | reflexivity].
  - destruct s as [|c s' _] using rev_ind; [done|].
    unfold escapeEntities in Hd. rewrite flat_map_app in Hd. simpl in Hd.
    rewrite app_nil_r, last_app in Hd.
    destruct (last (entity c)) as [e|] eqn:E.
    + injection Hd as ->.
      destruct (entity_last c d E) as [->| ->]; [|reflexivity].
      apply Hl. apply last_snoc.
    + apply last_None in E. by apply entity_nonempty in E.
Qed.

Lemma stripTags_plain s : Ch.lt ∉ s -> stripTags s = s.
Proof.
  unfold stripTags. induction s as [|c s IH]; simpl; [done|].
  rewrite not_elem_of_cons. intros [Hc Hs].
  apply not_eq_sym, N.eqb_neq in Hc. rewrite Hc. simpl. by rewrite IH.
Qed.

Lemma escapeEntities_plain s :
  (forall c, c ∈ s -> special c = false) -> escapeEntities s = s.
Proof.
  induction s as [|c s IH]; simpl; [done|]. intros H.
  rewrite entity_plain by (apply H; left).
  simpl. f_equal. apply IH. intros d Hd. apply H. by right.
Qed.

Lemma entity_length c : (1 <= length (entity c))%nat.
Proof.
  destruct (entity c) eqn:E; [by apply entity_nonempty in E | simpl; lia].
Qed.

Lemma escapeEntities_length s : (length s <= length (escapeEntities s))%nat.
Proof.
  induction s as [|c s IH]; simpl; [done|].
  rewrite length_app. pose proof (entity_length c). lia.
Qed.

(** Escaping an ampersand makes the text longer. *)
Lemma escapeEntities_grows s :
  Ch.amp ∈ s -> (length s < length (escapeEntities s))%nat.
Proof.
  induction s as [|c s IH]; [by rewrite elem_of_nil|].
  rewrite elem_of_cons. simpl. rewrite length_app. intros [<-|H].
  - pose proof (escapeEntities_length s). change (entity Ch.amp) with (js "&amp;").
    simpl. lia.
  - pose proof (entity_length c). apply IH in H. lia.
Qed.

(** A second pass finds no tag and nothing to trim: it only escapes again. *)
Lemma sanitizeInput_again x :
  sanitizeInput (sanitizeInput x) = escapeEntities (sanitizeInput x).
Proof.
  set (y := sanitizeInput x). unfold sanitizeInput at 1.
  rewrite stripTags_plain.
  - apply trim_fixed, escapeEntities_trimmed, trim_trimmed.
  - intros H%sanitizeInput_no_markup. apply H. by left.
Qed.
End Sanitizer.

(** C7, as the claim states it, fails: the first pass turns [&] into
    [&amp;], and the second pass escapes the [&] of that entity again. *)
Lemma sanitizeInput_not_idempotent :
  sanitizeInput (js "Tom & Jerry") = js "Tom &amp; Jerry" /\
  sanitizeInput (sanitizeInput (js "Tom & Jerry")) = js "Tom &amp;amp; Jerry" /\
  sanitizeInput (sanitizeInput (js "Tom & Jerry")) <> sanitizeInput (js "Tom & Jerry").
Proof. repeat split; [vm_compute; reflexivity .. | vm_compute; discriminate]. Qed.

(** C7, amended: a second pass of [sanitizeInput] escapes the output of the
    first once more, so that [sanitizeInput (sanitizeInput x)] equals
    [sanitizeInput x] exactly when [sanitizeInput x] holds no [&]. *)
Theorem sanitizeInput_idempotent_iff (x : JsString) :
  sanitizeInput (sanitizeInput x) = escapeEntities (sanitizeInput x) /\
  (sanitizeInput (sanitizeInput x) = sanitizeInput x <-> Ch.amp ∉ sanitizeInput x).
Proof.
  split; [apply sanitizeInput_again|].
  rewrite sanitizeInput_again. split.
  - intros E Hamp. apply escapeEntities_grows in Hamp. rewrite E in Hamp. lia.
  - intros Hamp. apply escapeEntities_plain. intros c Hc.
    apply not_special; [by apply (sanitizeInput_no_markup x) | by intros ->].
Qed.

Lemma sanitized_poll u i q opts :
  angleFreePoll (mkPoll i u (sanitizeInput q) (map sanitizeInput opts)).
Proof.
  split; simpl; [apply sanitizeInput_angleFree|].
  apply Forall_map, Forall_true. intros o. apply sanitizeInput_angleFree.
Qed.

(** A row of [polls] after [createPoll] was there before or is sanitised. *)
Lemma createPoll_stores_sanitized `{JsRuntime} session formData w p :
  p ∈ polls (db (createPoll session formData w).2) ->
  p ∈ polls (db w) \/ angleFreePoll p.
Proof.
  unfold createPoll, call.
  destruct (validatePollInput _ _); [by left|].
  destruct (userError session); [by left|].
  destruct (user session) as [u|]; [|by left].
  unfold andThen, await, insertPoll, mutate, reach.
  destruct (faults w) as [|[m|] fs]; simpl; try (by left).
  all: destruct (pollRuleBroken _ _); simpl; try (by left).
  all: rewrite elem_of_app, list_elem_of_singleton; intros [?| ->]; [by left|right];
    apply sanitized_poll.
Qed.

Lemma updatePoll_stores_sanitized `{JsRuntime} session pollId formData w p :
  p ∈ polls (db (updatePoll session pollId formData w).2) ->
  p ∈ polls (db w) \/ angleFreePoll p.
Proof.
  unfold updatePoll, call.
  destruct (badPollId pollId); [by left|].
  destruct (validatePollInput _ _); [by left|].
  destruct (userError session); [by left|].
  destruct (user session) as [u|]; [|by left].
  unfold andThen, await, updatePollRow, mutate, reach.
  destruct (faults w) as [|[m|] fs]; simpl; try (by left).
  all: destruct (if bool_decide _ then _ else _); simpl; try (by left).
  all: rewrite list_elem_of_fmap; intros (p0 & -> & Hp0); case_bool_decide;
    [right; apply sanitized_poll | by left].
Qed.

(** *** Tags are removed *)

Lemma hasGt_elem s : hasGt s = true <-> Ch.gt ∈ s.
Proof.
  unfold hasGt. rewrite existsb_exists. split.
  - intros (x & Hx & ->%N.eqb_eq). by apply list_elem_of_In.
  - intros H. exists Ch.gt. split; [by apply list_elem_of_In|]. apply N.eqb_refl.
Qed.

(** Inside a tag the scan drops everything up to the first [>]. *)
Lemma stripTagsFrom_inTag s :
  Ch.gt ∈ s ->
  exists body rest, s = body ++ Ch.gt :: rest /\ (Ch.gt ∉ body)
                    /\ stripTagsFrom true s = stripTagsFrom false rest.
Proof.
  induction s as [|c s IH]; [by intros ?%elem_of_nil|]. intros Hin. simpl.
  destruct (N.eqb_spec c Ch.gt) as [->|Hc].
  - exists [], s. split; [done|]. split; [apply not_elem_of_nil|done].
  - apply elem_of_cons in Hin as [?|Hin]; [done|].
    destruct (IH Hin) as (body & rest & -> & Hbody & E).
    exists (c :: body), rest. split; [done|]. split; [|done].
    apply not_elem_of_cons. split; [by apply not_eq_sym|done].
Qed.

Lemma stripTags_removes n : forall s,
  (length s <= n)%nat -> TagsRemoved s (stripTags s).
Proof.
  unfold stripTags. induction n as [|n IH]; intros s Hn.
  - destruct s; [constructor|simpl in Hn; lia].
  - destruct s as [|c s]; [constructor|]. simpl in *.
    destruct ((c =? Ch.lt)%N && hasGt s) eqn:E.
    + apply andb_true_iff in E as [->%N.eqb_eq Hgt%hasGt_elem].
      destruct (stripTagsFrom_inTag s Hgt) as (body & rest & -> & Hbody & ->).
      apply TagsRemoved_tag; [done|]. apply IH.
      rewrite length_app in Hn. simpl in Hn. lia.
    + apply TagsRemoved_keep; [|apply IH; lia].
      intros ->. rewrite N.eqb_refl in E. simpl in E. intros ?%hasGt_elem. congruence.
Qed.

(** *** What is left is escaped, and can be read back *)

Lemma entityAt_plain c rest : c <> Ch.amp -> entityAt (c :: rest) = None.
Proof.
  intros H%N.eqb_neq. unfold entityAt, namedEntities.
  change (js "&lt;") with (Ch.amp :: js "lt;").
  change (js "&gt;") with (Ch.amp :: js "gt;").
  change (js "&quot;") with (Ch.amp :: js "quot;").
  change (js "&#x27;") with (Ch.amp :: js "#x27;").
  change (js "&amp;") with (Ch.amp :: js "amp;").
  cbn [List.find fst startsWith]. by rewrite H.
Qed.

Lemma decodeFrom_entity c rest :
  decodeFrom 0 (entity c ++ rest) = c :: decodeFrom 0 rest.
Proof.
  unfold entity.
  destruct (N.eqb_spec c Ch.lt) as [->|H1]; [reflexivity|].
  destruct (N.eqb_spec c Ch.gt) as [->|H2]; [reflexivity|].
  destruct (N.eqb_spec c Ch.quot) as [->|H3]; [reflexivity|].
  destruct (N.eqb_spec c Ch.apos) as [->|H4]; [reflexivity|].
  destruct (N.eqb_spec c Ch.amp) as [->|H5]; [reflexivity|].
  cbn [app decodeFrom]. by rewrite entityAt_plain.
Qed.

Lemma decodeEntities_escapeEntities s : decodeEntities (escapeEntities s) = s.
Proof.
  unfold decodeEntities. induction s as [|c s IH]; [done|].
  simpl. by rewrite decodeFrom_entity, IH.
Qed.

(** *** Trimming what is escaped *)

Lemma white_plain c : isWhiteSpace c = true -> special c = false.
Proof.
  intros Hw. unfold special.
  destruct (N.eqb_spec c Ch.lt) as [->|_]; [done|].
  destruct (N.eqb_spec c Ch.gt) as [->|_]; [done|].
  destruct (N.eqb_spec c Ch.quot) as [->|_]; [done|].
  destruct (N.eqb_spec c Ch.apos) as [->|_]; [done|].
  by destruct (N.eqb_spec c Ch.amp) as [->|_].
Qed.

Lemma escapeEntities_white white :
  Forall (fun c => isWhiteSpace c = true) white -> escapeEntities white = white.
Proof.
  intros Hw. apply escapeEntities_plain. intros c Hc.
  rewrite Forall_forall in Hw. by apply white_plain, Hw.
Qed.

Lemma escapeEntities_app s1 s2 :
  escapeEntities (s1 ++ s2) = escapeEntities s1 ++ escapeEntities s2.
Proof. apply flat_map_app. Qed.

Lemma trimStart_white white s :
  Forall (fun c => isWhiteSpace c = true) white -> trimStart (white ++ s) = trimStart s.
Proof.
  induction 1 as [|c white Hc _ IH]; [done|]. simpl. by rewrite Hc.
Qed.

Lemma trimStart_all_white white :
  Forall (fun c => isWhiteSpace c = true) white -> trimStart white = [].
Proof.
  intros Hw. rewrite <- (app_nil_r white). by rewrite trimStart_white.
Qed.

(** [trim] takes a white prefix and a white suffix off. *)
Lemma trim_split s :
  exists before after,
    s = before ++ trim s ++ after
    /\ Forall (fun c => isWhiteSpace c = true) before
    /\ Forall (fun c => isWhiteSpace c = true) after.
Proof.
  destruct (trimStart_split s) as (before & E1 & H1).
  destruct (trimStart_split (reverse (trimStart s))) as (after & E2 & H2).
  exists before, (reverse after). split; [|split; [done|by apply Forall_reverse]].
  unfold trim, trimEnd. rewrite E1 at 1. f_equal.
  rewrite <- reverse_app, <- E2. by rewrite reverse_involutive.
Qed.

(** A trimmed text between white space is what [trim] gives. *)
Lemma trim_between before s after :
  Forall (fun c => isWhiteSpace c = true) before ->
  Forall (fun c => isWhiteSpace c = true) after ->
  trimmed s -> trim (before ++ s ++ after) = s.
Proof.
  intros Hb Ha [Hh Hl]. unfold trim, trimEnd. rewrite trimStart_white by done.
  destruct s as [|c s].
  - simpl. rewrite (trimStart_all_white after) by done. done.
  - rewrite (trimStart_fixed ((c :: s) ++ after)) by (simpl; intros d [= <-]; by apply Hh).
    rewrite reverse_app, trimStart_white by (by apply Forall_reverse).
    rewrite trimStart_fixed; [apply reverse_involutive|].
    intros d. rewrite head_reverse. apply Hl.
Qed.

Lemma trim_escapeEntities s : trim (escapeEntities s) = escapeEntities (trim s).
Proof.
  destruct (trim_split s) as (before & after & E & Hb & Ha).
  rewrite E at 1. rewrite !escapeEntities_app.
  rewrite (escapeEntities_white before), (escapeEntities_white after) by done.
  apply trim_between; [done..|]. apply escapeEntities_trimmed, trim_trimmed.
Qed.

(** C10: the output of [sanitizeInput] holds no [<] and no [>]. It is made
    as the claim says: with [y] the input without its tags, every code
    unit of the trimmed [y] stands in the output as itself or, for an angle
    bracket, a quote or an ampersand, as its entity, so that reading the
    entities back gives the trimmed [y]. And every question and option
    that [createPoll] or [updatePoll] writes to [polls] is free of angle
    brackets. *)
Theorem sanitizeInput_no_angle_brackets :
  (forall x : JsString,
      (Ch.lt ∉ sanitizeInput x) /\ (Ch.gt ∉ sanitizeInput x) /\
      exists y, TagsRemoved x y /\ decodeEntities (sanitizeInput x) = trim y) /\
  (forall (rt : JsRuntime) session formData w p,
      p ∈ polls (db (createPoll session formData w).2) ->
      p ∈ polls (db w) \/ angleFreePoll p) /\
  (forall (rt : JsRuntime) session pollId formData w p,
      p ∈ polls (db (updatePoll session pollId formData w).2) ->
      p ∈ polls (db w) \/ angleFreePoll p).
Proof.
  split.
  - intros x. destruct (sanitizeInput_angleFree x) as [Hlt Hgt].
    split; [done|]. split; [done|]. exists (stripTags x).
    split; [by apply (stripTags_removes (length x))|].
    unfold sanitizeInput. by rewrite trim_escapeEntities, decodeEntities_escapeEntities.
  - split; intros;
      [by eapply createPoll_stores_sanitized | by eapply updatePoll_stores_sanitized].
Qed.

(** C10 at an input with two tags, a lone [>] and a lone [<]: the tags go,
    the two brackets that are left become [&gt;] and [&lt;]. *)
Lemma sanitizeInput_no_angle_brackets_witness :
  let x := js "<b>bold</b> 3 > 2 and 1 < 2" in
  sanitizeInput x = js "bold 3 &gt; 2 and 1 &lt; 2" /\
  (Ch.lt ∉ sanitizeInput x) /\ (Ch.gt ∉ sanitizeInput x) /\
  exists y, TagsRemoved x y /\ decodeEntities (sanitizeInput x) = trim y.
Proof.
  cbv zeta. split; [vm_compute; reflexivity|].
  apply (proj1 sanitizeInput_no_angle_brackets).
Defined.

(* --------------------------------------------------------------------- *)
(** ** The store                                                          *)
(* --------------------------------------------------------------------- *)

(** A read changes no table and leaves the clock alone. *)
Lemma query_db {A} t (rows : Database -> Response A) w : db (query t rows w).2 = db w.
Proof. unfold query, reach. by destruct (faults w) as [|[m|] fs]. Qed.

(** An insert into [votes] adds its row or changes nothing. *)
Lemma insertVote_db p u i w :
  match insertVote p u i w with
  | (Success _, w') =>
      db w' = mkDatabase (polls (db w)) (user_roles (db w))
                (votes (db w) ++ [mkVote p u i (clock w)])
  | (Failure _, w') => db w' = db w
  end.
Proof.
  unfold insertVote, mutate, reach.
  destruct (faults w) as [|[m|] fs]; simpl; try done.
  all: by destruct (voteRuleBroken _ _).
Qed.

Section HealthyStore.
Variable w : World.
Hypothesis healthy : faults w = [].

Lemma query_healthy {A} t (rows : Database -> Response A) :
  query t rows w = (rows (db w), logged t VSelect w).
Proof. unfold query, reach. by rewrite healthy. Qed.

Lemma selectPollById_healthy id :
  selectPollById id w = (single (pollRows id (db w)), logged TPolls VSelect w).
Proof. apply query_healthy. Qed.

Lemma selectRole_healthy u r :
  selectRole u r w = (single (roleRows u r (db w)), logged TUserRoles VSelect w).
Proof. apply query_healthy. Qed.

Lemma selectVote_healthy p u :
  selectVote p u w = (single (voteRows p u (db w)), logged TVotes VSelect w).
Proof. apply query_healthy. Qed.

Lemma selectVotesSince_healthy u since :
  selectVotesSince u since w
  = (Success (recentRows u since (db w)), logged TVotes VSelect w).
Proof. apply query_healthy. Qed.

Lemma insertVote_healthy p u i :
  insertVote p u i w =
  match voteRuleBroken (db w) (mkVote p u i (clock w)) with
  | Some m => (Failure m, logged TVotes VInsert w)
  | None =>
      (Success tt,
       with_db (mkDatabase (polls (db w)) (user_roles (db w))
                  (votes (db w) ++ [mkVote p u i (clock w)]))
               (logged TVotes VInsert w))
  end.
Proof.
  unfold insertVote, mutate, reach. rewrite healthy. simpl.
  by destruct (voteRuleBroken _ _).
Qed.

Lemma hasRole_healthy u r :
  hasRole u r w = bool_decide (is_Some (data_of (single (roleRows u r (db w))))).
Proof. unfold hasRole. by rewrite selectRole_healthy. Qed.

Lemma updatePollRow_healthy id u question options :
  updatePollRow id u question options w =
  match (if bool_decide (Exists (fun x => poll_id x = id /\ poll_user_id x = u)
                           (polls (db w)))
         then pollRuleBroken question options else None) with
  | Some m => (Failure m, logged TPolls VUpdate w)
  | None =>
      (Success tt,
       with_db (mkDatabase
                  (map (fun x => if bool_decide (poll_id x = id /\ poll_user_id x = u)
                                 then mkPoll (poll_id x) (poll_user_id x) question options
                                 else x) (polls (db w)))
                  (user_roles (db w)) (votes (db w)))
               (logged TPolls VUpdate w))
  end.
Proof.
  unfold updatePollRow, mutate, reach. rewrite healthy. simpl.
  by destruct (if bool_decide _ then _ else _).
Qed.

Lemma insertPoll_healthy u question options :
  insertPoll u question options w =
  match pollRuleBroken question options with
  | Some m =>
      (Failure m,
       mkWorld (db w) [] ((TPolls, VInsert) :: journal w) (clock w) (uuid w) (S (serial w)))
  | None =>
      (Success tt,
       mkWorld (mkDatabase (polls (db w) ++ [mkPoll (uuid w (serial w)) u question options])
                  (user_roles (db w)) (votes (db w)))
         [] ((TPolls, VInsert) :: journal w) (clock w) (uuid w) (S (serial w)))
  end.
Proof.
  unfold insertPoll, mutate, reach. rewrite healthy. simpl.
  by destruct (pollRuleBroken _ _).
Qed.
End HealthyStore.

(** A form that [validatePollInput] lets through has two to ten options,
    so that of the checks of [polls] only the one on the length of the
    question can refuse what the actions write. *)
Lemma validatePollInput_options_count `{JsRuntime} question options :
  validatePollInput question options = None ->
  (MIN_OPTIONS <= length options <= MAX_OPTIONS)%nat.
Proof.
  unfold validatePollInput. destruct question as [q|]; [|done].
  destruct (blank q); [done|].
  destruct (Nat.ltb_spec MAX_QUESTION_LENGTH (length q)); [done|].
  destruct (suspicious q); [done|].
  destruct (Nat.ltb_spec (length options) MIN_OPTIONS); [done|].
  destruct (Nat.ltb_spec MAX_OPTIONS (length options)); [done|]. lia.
Qed.

Lemma pollRuleBroken_valid `{JsRuntime} question formData q :
  validatePollInput question (rawOptionsOf formData) = None ->
  pollRuleBroken q (map sanitizeInput (rawOptionsOf formData))
  = if (500 <? charLength q)%nat then Some questionCheck else None.
Proof.
  intros Hv%validatePollInput_options_count. unfold pollRuleBroken.
  destruct (500 <? charLength q)%nat; [done|]. rewrite length_map.
  unfold MIN_OPTIONS, MAX_OPTIONS in Hv.
  destruct (Nat.ltb_spec (length (rawOptionsOf formData)) 2); [lia|].
  destruct (Nat.ltb_spec 10 (length (rawOptionsOf formData))); [lia|]. done.
Qed.

(* --------------------------------------------------------------------- *)
(** ** isAdmin                                                            *)
(* --------------------------------------------------------------------- *)

(** A store that is down fails the role lookup. *)
Lemma selectRole_outage u r m fs w :
  faults w = Some m :: fs -> (selectRole u r w).1 = Failure m.
Proof. intros E. step_action. by rewrite E. Qed.

Lemma isAdmin_hasRole u w :
  u <> [] -> (isAdmin (Some u) w).1 = hasRole u ADMIN w.
Proof.
  intros Hu. unfold isAdmin, hasRole. destruct u; [done|]. simpl.
  unfold call, andThen, await. by destruct (selectRole _ _ w).
Qed.

Lemma isAdmin_lookup_failure u m w :
  (selectRole u ADMIN w).1 = Failure m -> (isAdmin (Some u) w).1 = false.
Proof.
  intros E. unfold isAdmin. destruct u; [done|]. simpl.
  unfold call, andThen, await. destruct (selectRole _ _ w) as [resp w']. simpl in *.
  by subst resp.
Qed.

(** An admin verdict is never without its row in [user_roles]. *)
Lemma isAdmin_sound userId w :
  (isAdmin userId w).1 = true ->
  exists u, userId = Some u /\ mkUserRole u ADMIN ∈ user_roles (db w).
Proof.
  destruct userId as [u|]; [|done]. unfold isAdmin.
  destruct u as [|c u]; [done|]. simpl.
  step_action. destruct (faults w) as [|[m|] fs]; simpl; [|done|].
  all: destruct (filter _ _) as [|r [|]] eqn:E; simpl; try done.
  all: intros _; exists (c :: u); split; [done|].
  all: assert (Hr : r ∈ filter (fun x => role_user_id x = c :: u /\ role_name x = ADMIN)
                        (user_roles (db w))) by (rewrite E; left).
  all: apply list_elem_of_filter in Hr as [[<- <-] Hr]; by destruct r.
Qed.

(** C3: [isAdmin] answers [false] when the user id is absent ([undefined]
    or the empty string), when the store fails the request, and whenever
    the lookup comes back with an error: no failure makes it answer
    [true]. *)
Theorem isAdmin_fails_closed (userId : option Id) (w : World) :
  userId = None \/ userId = Some [] \/
  (exists m fs, faults w = Some m :: fs) \/
  (exists u m, userId = Some u /\ (selectRole u ADMIN w).1 = Failure m) ->
  (isAdmin userId w).1 = false.
Proof.
  intros [->|[->|[(m & fs & E)|(u & m & -> & E)]]]; [done..| |].
  - destruct userId as [u|]; [|done].
    apply (isAdmin_lookup_failure u m). by eapply selectRole_outage.
  - by apply (isAdmin_lookup_failure u m).
Qed.

(** C3 for Bob, who is an admin, when the store is down. *)
Lemma isAdmin_fails_closed_witness :
  (isAdmin (Some Sample.bob) Sample.world).1 = true /\
  (isAdmin (Some Sample.bob) (Sample.outage Sample.refused)).1 = false.
Proof.
  split; [vm_compute; reflexivity|].
  apply (isAdmin_fails_closed (Some Sample.bob) (Sample.outage Sample.refused)).
  right; right; left. by eexists _, _.
Defined.

(* --------------------------------------------------------------------- *)
(** ** deletePoll                                                         *)
(* --------------------------------------------------------------------- *)

Section DeletePoll.
Variables (p id : Id) (pl : Poll) (w : World).
Hypothesis healthy : faults w = [].
Hypothesis listed : pollRows id (db w) = [pl].

Lemma deletePoll_owner :
  poll_user_id pl = p ->
  let (r, w') := deletePoll (authenticated p) id w in
  r = ok /\ pollRows id (db w') = [] /\
  journalled [(TPolls, VDelete); (TPolls, VSelect)] w w'.
Proof.
  intros Ho. unfold deletePoll, pollRows in *. step_action. simpl.
  rewrite healthy. simpl. rewrite listed. simpl.
  rewrite bool_decide_eq_false_2 by (by intros ?). simpl.
  split; [done|]. split; [|done].
  apply filter_none. by intros x [Hx _]%list_elem_of_filter.
Qed.

Lemma deletePoll_admin :
  poll_user_id pl <> p -> hasRole p ADMIN w = true ->
  let (r, w') := deletePoll (authenticated p) id w in
  r = ok /\ pollRows id (db w') = [] /\
  journalled [(TPolls, VDelete); (TUserRoles, VSelect); (TPolls, VSelect)] w w'.
Proof.
  intros Ho Ha. rewrite hasRole_healthy in Ha by done. unfold roleRows in Ha.
  unfold deletePoll, pollRows in *. step_action. simpl.
  rewrite healthy. simpl. rewrite listed. simpl.
  rewrite bool_decide_eq_true_2 by done. simpl.
  rewrite Ha. simpl.
  split; [done|]. split; [|done].
  apply filter_none. by intros x [Hx _]%list_elem_of_filter.
Qed.

Lemma deletePoll_denied :
  poll_user_id pl <> p -> hasRole p ADMIN w = false ->
  let (r, w') := deletePoll (authenticated p) id w in
  r = notPermitted /\ db w' = db w /\
  journalled [(TUserRoles, VSelect); (TPolls, VSelect)] w w'.
Proof.
  intros Ho Ha. rewrite hasRole_healthy in Ha by done. unfold roleRows in Ha.
  unfold deletePoll, pollRows in *. step_action. simpl.
  rewrite healthy. simpl. rewrite listed. simpl.
  rewrite bool_decide_eq_true_2 by done. simpl.
  rewrite Ha. simpl. done.
Qed.
End DeletePoll.

(** C1: on a store that answers, for a user [p] and an existing poll:
    the owner's [deletePoll] succeeds and deletes the poll with no request
    to [user_roles]; a non-owner's goes to [user_roles] after the ownership
    test and succeeds when [p] holds the admin role; otherwise it returns
    the authorization error and the tables are as they were. *)
Theorem deletePoll_owner_or_admin (p id : Id) (pl : Poll) (w : World) :
  faults w = [] ->
  pollRows id (db w) = [pl] ->
  let (r, w') := deletePoll (authenticated p) id w in
  (poll_user_id pl = p ->
     r = ok /\ pollRows id (db w') = [] /\
     journalled [(TPolls, VDelete); (TPolls, VSelect)] w w') /\
  (poll_user_id pl <> p -> hasRole p ADMIN w = true ->
     r = ok /\ pollRows id (db w') = [] /\
     journalled [(TPolls, VDelete); (TUserRoles, VSelect); (TPolls, VSelect)] w w') /\
  (poll_user_id pl <> p -> hasRole p ADMIN w = false ->
     r = notPermitted /\ db w' = db w /\
     journalled [(TUserRoles, VSelect); (TPolls, VSelect)] w w').
Proof.
  intros Hf He.
  pose proof (deletePoll_owner p id pl w Hf He) as H1.
  pose proof (deletePoll_admin p id pl w Hf He) as H2.
  pose proof (deletePoll_denied p id pl w Hf He) as H3.
  destruct (deletePoll (authenticated p) id w) as [r w']. auto.
Qed.

(** C1 in the scenario of the specification: Carol, who is neither the
    owner nor an admin, cannot delete Alice's poll. *)
Lemma deletePoll_owner_or_admin_witness :
  let (r, w') := deletePoll (authenticated Sample.carol) Sample.colors Sample.world in
  r = notPermitted /\ db w' = db Sample.world /\
  journalled [(TUserRoles, VSelect); (TPolls, VSelect)] Sample.world w'.
Proof.
  pose proof (deletePoll_owner_or_admin Sample.carol Sample.colors Sample.bestColor
                Sample.world eq_refl) as H.
  destruct (deletePoll _ _ _) as [r w'].
  destruct H as (_ & _ & H); [vm_compute; reflexivity|].
  apply H; [discriminate | vm_compute; reflexivity].
Defined.

(* --------------------------------------------------------------------- *)
(** ** updatePoll                                                         *)
(* --------------------------------------------------------------------- *)

Section UpdatePoll.
Context `{JsRuntime}.
Variables (p pollId : Id) (formData : FormData) (pl : Poll) (w : World).
Hypothesis healthy : faults w = [].
Hypothesis listed : pollRows pollId (db w) = [pl].
Hypothesis wellFormed : badPollId pollId = false.
Hypothesis valid : validatePollInput (get_question formData) (rawOptionsOf formData) = None.

Let question := sanitizeInput (default [] (get_question formData)).
Let options := map sanitizeInput (rawOptionsOf formData).

(** What the update does to a row. *)
Let rewritten (x : Poll) : Poll :=
  if bool_decide (poll_id x = pollId /\ poll_user_id x = p)
  then mkPoll (poll_id x) (poll_user_id x) question options
  else x.

(** The update selects a row exactly when the caller owns the poll. *)
Lemma selected_owner :
  Exists (fun x => poll_id x = pollId /\ poll_user_id x = p) (polls (db w))
  <-> poll_user_id pl = p.
Proof.
  assert (Hin : pl ∈ pollRows pollId (db w)) by (rewrite listed; left).
  apply list_elem_of_filter in Hin as [Hid Hin].
  rewrite Exists_exists. split.
  - intros (x & Hx & Hxid & Hxu).
    assert (Hx' : x ∈ pollRows pollId (db w)) by (by apply list_elem_of_filter).
    rewrite listed in Hx'. apply list_elem_of_singleton in Hx'. by subst x.
  - intros Ho. by exists pl.
Qed.

(** The update goes through when the caller does not own the poll, and
    when the store takes the sanitised question. *)
Lemma updatePoll_runs :
  (poll_user_id pl = p -> (charLength question <= 500)%nat) ->
  updatePoll (authenticated p) pollId formData w =
  (ok, mkWorld
         (mkDatabase (map rewritten (polls (db w))) (user_roles (db w)) (votes (db w)))
         [] ((TPolls, VUpdate) :: journal w) (clock w) (uuid w) (serial w)).
Proof.
  intros Hfits. unfold updatePoll. run_action. rewrite wellFormed, valid. simpl.
  rewrite updatePollRow_healthy by done.
  rewrite (pollRuleBroken_valid _ _ _ valid). fold question.
  case_bool_decide as Hs; [|done].
  apply selected_owner, Hfits in Hs.
  destruct (Nat.ltb_spec 500 (charLength question)); [lia|done].
Qed.

(** The store refuses the owner's update when the sanitised question is
    longer than its check allows, and [updatePoll] returns what the store
    says. *)
Lemma updatePoll_refused :
  poll_user_id pl = p -> (500 < charLength question)%nat ->
  updatePoll (authenticated p) pollId formData w
  = (failed questionCheck, logged TPolls VUpdate w).
Proof.
  intros Ho Hlong. unfold updatePoll. run_action. rewrite wellFormed, valid. simpl.
  rewrite updatePollRow_healthy by done.
  rewrite (pollRuleBroken_valid _ _ _ valid). fold question.
  rewrite bool_decide_eq_true_2 by (by apply selected_owner).
  destruct (Nat.ltb_spec 500 (charLength question)); [done|lia].
Qed.

Lemma pollRows_member x : x ∈ polls (db w) -> poll_id x = pollId -> x = pl.
Proof.
  intros Hx Hid.
  assert (Hin : x ∈ pollRows pollId (db w)) by (by apply list_elem_of_filter).
  rewrite listed in Hin. by apply list_elem_of_singleton in Hin.
Qed.

Lemma pollRows_id : poll_id pl = pollId.
Proof.
  assert (Hin : pl ∈ pollRows pollId (db w)) by (rewrite listed; left).
  by apply list_elem_of_filter in Hin as [? _].
Qed.

Lemma rewritten_id x : poll_id (rewritten x) = poll_id x.
Proof. unfold rewritten. by case_bool_decide. Qed.

Lemma filter_rewritten l :
  filter (fun x => poll_id x = pollId) (map rewritten l)
  = map rewritten (filter (fun x => poll_id x = pollId) l).
Proof.
  induction l as [|x l IH]; [done|]. simpl.
  rewrite !filter_cons, rewritten_id, IH. by case_decide.
Qed.

Lemma updatePoll_owner :
  poll_user_id pl = p -> (charLength question <= 500)%nat ->
  pollRows pollId (db (updatePoll (authenticated p) pollId formData w).2)
  = [mkPoll pollId p question options].
Proof.
  intros Ho Hfits. rewrite updatePoll_runs by done. unfold pollRows in *. simpl.
  rewrite filter_rewritten, listed. simpl. unfold rewritten.
  rewrite bool_decide_eq_true_2 by (split; [apply pollRows_id | done]).
  by rewrite pollRows_id, Ho.
Qed.


End UpdatePoll.




(* --------------------------------------------------------------------- *)
(** ** submitVote                                                         *)
(* --------------------------------------------------------------------- *)

(** A rejected call leaves the tables as they were, whatever the store
    does. *)
Lemma submitVote_rejection_no_effect session pollId optionIndex w :
  let (r, w') := submitVote session pollId optionIndex w in
  error r <> None -> db w' = db w.
Proof.
  unfold submitVote. run_action.
  destruct (badPollId pollId); [done|].
  destruct (ltZero optionIndex || negb (isInteger optionIndex)); [done|].
  pose proof (query_db TPolls
    (fun d => single (filter (fun p => poll_id p = pollId) (polls d))) w) as D1.
  fold (selectPollById pollId) in D1.
  destruct (selectPollById pollId w) as [[pl|m] w1]; simpl in *; [|done].
  destruct (geLength _ _); [done|].
  destruct (userIdOf _) as [u|]; [|done].
  pose proof (query_db TVotes
    (fun d => single (filter (fun v => vote_poll_id v = pollId /\ vote_user_id v = Some u)
                             (votes d))) w1) as D2.
  fold (selectVote pollId u) in D2.
  destruct (selectVote pollId u w1) as [existing w2]; simpl in *.
  destruct (bool_decide _); [congruence|].
  pose proof (query_db TVotes
    (fun d => Success (filter (fun v => vote_user_id v = Some u
                                        /\ clock w2 - 60000 <= vote_created_at v)
                              (votes d))) w2) as D3.
  fold (selectVotesSince u (clock w2 - 60000)) in D3.
  destruct (selectVotesSince u (clock w2 - 60000) w2) as [recent w3]; simpl in *.
  destruct (match data_of recent with Some _ => _ | None => _ end); [congruence|].
  pose proof (insertVote_db pollId (Some u) (integerOf optionIndex) w3) as D4.
  destruct (insertVote pollId (Some u) (integerOf optionIndex) w3) as [[[]|m] w4];
    simpl in *; [done|].
  congruence.
Qed.

(** C5, amended: on a store that answers, [submitVote] returns the message of
    the first gate that fails in the order of its body - format of the poll
    id, well-formedness of the index, poll lookup, index bounds, login,
    duplicate vote, ceiling of five votes a minute, insert - a rejection
    changes no table, and a call that passes every gate adds its vote and
    nothing else. *)
Theorem submitVote_gate_order session pollId optionIndex w :
  faults w = [] ->
  let (r, w') := submitVote session pollId optionIndex w in
  error r = firstRejection codeOrder session pollId optionIndex w /\
  (error r <> None -> db w' = db w) /\
  (error r = None ->
     db w' = mkDatabase (polls (db w)) (user_roles (db w))
               (votes (db w) ++ [voteOf session pollId optionIndex w])).
Proof.
  intros healthy.
  pose proof (submitVote_rejection_no_effect session pollId optionIndex w) as Hno.
  destruct (submitVote session pollId optionIndex w) as [r w'] eqn:E.
  split; [|split; [done|]]; clear Hno; revert E;
    unfold submitVote, firstRejection, codeOrder, voteOf;
    run_action; cbn [List.find gateFails fmap option_fmap option_map].
  all: destruct (badPollId pollId); [by intros [= <- <-]|].
  all: destruct (ltZero optionIndex || negb (isInteger optionIndex)); [by intros [= <- <-]|].
  all: rewrite (selectPollById_healthy w healthy).
  all: destruct (single (pollRows pollId (db w))) as [pl|m]; cbn [data_of];
    [|by intros [= <- <-]].
  all: try rewrite bool_decide_eq_false_2 by done.
  all: destruct (geLength _ _); [by intros [= <- <-]|].
  all: destruct (userIdOf _) as [u|]; [|by intros [= <- <-]].
  all: try rewrite bool_decide_eq_false_2 by done.
  all: rewrite selectVote_healthy by done; cbn [db logged].
  all: destruct (bool_decide (is_Some (data_of (single _)))); [by intros [= <- <-]|].
  all: rewrite selectVotesSince_healthy by done; cbn [db logged clock data_of].
  all: destruct (Nat.leb 5 _); [by intros [= <- <-]|].
  all: rewrite insertVote_healthy by done; cbn [db logged clock].
  all: destruct (voteRuleBroken _ _); cbn; by intros [= <- <-].
Qed.

(** C5, as the claim states it, fails: an anonymous caller with a negative
    index is stopped by the index gate, not by the login gate that section
    4.5 puts first. *)
Lemma submitVote_checks_index_before_login :
  (submitVote anonymous Sample.colors (Finite (-1 # 1)) Sample.world).1
  = failed "Invalid option selection" /\
  firstRejection specOrder anonymous Sample.colors (Finite (-1 # 1)) Sample.world
  = Some "Please log in to vote" /\
  firstRejection codeOrder anonymous Sample.colors (Finite (-1 # 1)) Sample.world
  = Some "Invalid option selection".
Proof. repeat split; vm_compute; reflexivity. Qed.

(** C5, amended, for Carol's first vote on Alice's poll: every gate passes
    and the vote is the one row added. *)
Lemma submitVote_gate_order_witness :
  let (r, w') := submitVote (authenticated Sample.carol) Sample.colors (Finite (1 # 1))
                   Sample.world in
  error r = None /\
  votes (db w') = [mkVote Sample.colors (Some Sample.carol) 1 (clock Sample.world)].
Proof.
  pose proof (submitVote_gate_order (authenticated Sample.carol) Sample.colors
                (Finite (1 # 1)) Sample.world eq_refl) as H.
  destruct (submitVote _ _ _ _) as [r w'].
  destruct H as (Hr & _ & Hdb).
  assert (E : error r = None) by (rewrite Hr; vm_compute; reflexivity).
  split; [done|]. by rewrite (Hdb E).
Defined.

(** The three tests of [submitVote] on the index let through what is an
    index, and only that. *)
Lemma index_checks_sound n len :
  ltZero n = false -> isInteger n = true -> geLength n len = false -> inRange n len.
Proof.
  destruct n as [[a b]| | |]; simpl; try done.
  intros Hneg Hint Hlen.
  apply Z.ltb_ge in Hneg. apply Z.eqb_eq in Hint. apply Z.leb_gt in Hlen.
  apply Z.mod_divide in Hint as [k Hk]; [|done].
  exists k. split.
  - unfold denotes, Qeq, inject_Z. cbn [Qnum Qden]. lia.
  - pose proof (Pos2Z.is_pos b). split; nia.
Qed.

Lemma index_checks_complete n len :
  inRange n len ->
  ltZero n = false /\ isInteger n = true /\ geLength n len = false /\
  0 <= integerOf n < Z.of_nat len.
Proof.
  intros (k & Hk & Hr). destruct n as [[a b]| | |]; try done.
  unfold denotes, Qeq, inject_Z in Hk. cbn [Qnum Qden] in Hk.
  assert (a = k * Z.pos b) as -> by lia. simpl.
  pose proof (Pos2Z.is_pos b).
  rewrite Z.mod_mul, Z.div_mul by lia.
  repeat split; try lia;
    first [apply Z.ltb_ge; nia | apply Z.leb_gt; nia | apply Z.eqb_eq; lia].
Qed.

(** C6: for a poll that the lookup finds and an [optionIndex] that is not an
    integer of [0, len(options)) - negative, fractional, NaN, infinite, or
    at least the number of options - [submitVote] returns one of its two
    invalid-option errors and [votes] is as it was. *)
Theorem submitVote_rejects_out_of_range session pollId optionIndex pollData w :
  badPollId pollId = false ->
  (selectPollById pollId w).1 = Success pollData ->
  ~ inRange optionIndex (length (poll_options pollData)) ->
  let (r, w') := submitVote session pollId optionIndex w in
  invalidOption r /\ votes (db w') = votes (db w).
Proof.
  intros Hid Hpoll Hout.
  pose proof (submitVote_rejection_no_effect session pollId optionIndex w) as Hno.
  destruct (submitVote session pollId optionIndex w) as [r w'] eqn:E.
  assert (Hr : invalidOption r); [|split; [done|]].
  - revert E. unfold submitVote. run_action. rewrite Hid.
    destruct (ltZero optionIndex) eqn:Hneg; [intros [= <- <-]; by left|].
    destruct (isInteger optionIndex) eqn:Hint; [|intros [= <- <-]; by left].
    simpl. destruct (selectPollById pollId w) as [found w1]. simpl in Hpoll. subst found.
    destruct (geLength _ _) eqn:Hlen; [intros [= <- <-]; by right|].
    destruct Hout. by apply index_checks_sound.
  - rewrite Hno; [done|]. by destruct Hr as [-> | ->].
Qed.

(** C6 for the index 2 on a poll of two options. *)
Lemma submitVote_rejects_out_of_range_witness :
  invalidOption (submitVote (authenticated Sample.carol) Sample.colors (Finite (2 # 1))
                   Sample.world).1.
Proof.
  pose proof (submitVote_rejects_out_of_range (authenticated Sample.carol) Sample.colors
                (Finite (2 # 1)) Sample.bestColor Sample.world) as H.
  destruct (submitVote _ _ _ _) as [r w']. apply H.
  - reflexivity.
  - reflexivity.
  - intros (k & Hk & Hr). unfold denotes, Qeq in Hk. simpl in *. lia.
Defined.

(* --------------------------------------------------------------------- *)
(** ** Error messages                                                     *)
(* --------------------------------------------------------------------- *)

(** [deletePoll] answers a failure of the store in its own words. *)
Lemma deletePoll_messages_fixed session id w m :
  error (deletePoll session id w).1 = Some m -> m ∈ deletePollMessages.
Proof.
  unfold deletePoll, deletePollMessages. run_action.
  destruct (userError session); [intros [= <-]; set_solver|].
  destruct (user session) as [u|]; [|intros [= <-]; set_solver].
  destruct (selectPollById id w) as [[pl|e] w1]; [|intros [= <-]; set_solver].
  case_bool_decide.
  - destruct (selectRole _ _ w1) as [role w2].
    destruct (negb _); [intros [= <-]; set_solver|].
    destruct (deletePollRow id w2) as [[?|e] w3]; simpl; [done|intros [= <-]; set_solver].
  - destruct (deletePollRow id w1) as [[?|e] w3]; simpl; [done|intros [= <-]; set_solver].
Qed.

(** So does [submitVote]. *)
Lemma submitVote_messages_fixed session pollId optionIndex w m :
  error (submitVote session pollId optionIndex w).1 = Some m -> m ∈ submitVoteMessages.
Proof.
  unfold submitVote, submitVoteMessages. run_action. simpl.
  destruct (badPollId pollId); [intros [= <-]; set_solver|].
  destruct (ltZero optionIndex || negb (isInteger optionIndex)); [intros [= <-]; set_solver|].
  destruct (selectPollById pollId w) as [[pl|e] w1]; [|intros [= <-]; set_solver].
  destruct (geLength _ _); [intros [= <-]; set_solver|].
  destruct (userIdOf _) as [u|]; [|intros [= <-]; set_solver].
  destruct (selectVote pollId u w1) as [existing w2].
  destruct (bool_decide _); [intros [= <-]; set_solver|].
  destruct (selectVotesSince u _ w2) as [recent w3].
  destruct (match data_of recent with Some _ => _ | None => _ end);
    [intros [= <-]; set_solver|].
  destruct (insertVote _ _ _ w3) as [[?|e] w4]; simpl; [done|intros [= <-]; set_solver].
Qed.

(** [createPoll], [updatePoll] and [getPollById] hand the message of the
    store to the caller as it came, whatever it says. *)
Lemma createPoll_store_message `{JsRuntime} p formData w m fs :
  validatePollInput (get_question formData) (rawOptionsOf formData) = None ->
  faults w = Some m :: fs ->
  (createPoll (authenticated p) formData w).1 = failed m.
Proof. intros Hv Hf. unfold createPoll. step_action. rewrite Hv. simpl. by rewrite Hf. Qed.

Lemma updatePoll_store_message `{JsRuntime} p pollId formData w m fs :
  badPollId pollId = false ->
  validatePollInput (get_question formData) (rawOptionsOf formData) = None ->
  faults w = Some m :: fs ->
  (updatePoll (authenticated p) pollId formData w).1 = failed m.
Proof.
  intros Hb Hv Hf. unfold updatePoll. step_action. rewrite Hb, Hv. simpl. by rewrite Hf.
Qed.

Lemma getPollById_store_message id w m fs :
  faults w = Some m :: fs -> (getPollById id w).1 = mkPollResult None (Some m).
Proof. intros Hf. unfold getPollById. step_action. by rewrite Hf. Qed.

(** C9, where the code departs from it: with the store refusing the
    connection, [createPoll] and [getPollById] return the store's own
    message, which is none of the fixed messages; [deletePoll], on the same
    failure, returns a message of its own. *)
Theorem createPoll_returns_raw_store_message :
  (@createPoll asciiRuntime (authenticated Sample.alice) Sample.newColors
     (Sample.outage Sample.refused)).1
  = failed Sample.refused /\
  (Sample.refused ∉ deletePollMessages ++ submitVoteMessages) /\
  (getPollById Sample.colors (Sample.outage Sample.refused)).1
  = mkPollResult None (Some Sample.refused) /\
  (deletePoll (authenticated Sample.alice) Sample.colors (Sample.outage Sample.refused)).1
  = failed "Poll not found".
Proof.
  split; [vm_compute; reflexivity|]. split; [|split; vm_compute; reflexivity].
  apply not_elem_of_app. split; vm_compute; intros H;
    repeat (apply elem_of_cons in H as [H|H]; [discriminate|]); by apply elem_of_nil in H.
Qed.

(* --------------------------------------------------------------------- *)
(** ** Concurrent calls of submitVote                                     *)
(* --------------------------------------------------------------------- *)

(** A call on its own is its five turns in a row. *)
Lemma submitVote_steps session pollId optionIndex w :
  voteSteps 5 session pollId optionIndex Called w
  = (Returned (submitVote session pollId optionIndex w).1,
     (submitVote session pollId optionIndex w).2).
Proof.
  unfold submitVote. run_action. cbn [voteSteps voteStep].
  destruct (badPollId pollId); [done|].
  destruct (ltZero optionIndex || negb (isInteger optionIndex)); [done|].
  cbn [voteSteps voteStep].
  destruct (selectPollById pollId w) as [[pl|m] w1]; [|done].
  destruct (geLength _ _); [done|].
  destruct (userIdOf _) as [u|]; [|done].
  cbn [voteSteps voteStep].
  destruct (selectVote pollId u w1) as [existing w2].
  destruct (bool_decide _); [done|].
  cbn [voteSteps voteStep].
  destruct (selectVotesSince u _ w2) as [recent w3].
  destruct (match data_of recent with Some _ => _ | None => _ end); [done|].
  cbn [voteSteps voteStep].
  destruct (insertVote _ _ _ w3) as [[?|e] w4]; done.
Qed.

(** C4, as the claim states it, fails: both of Carol's calls pass the
    duplicate check before either inserts; the second insert breaks the
    unique index, and that call answers with the message of a failed
    insert, not with the one of a duplicate vote. *)
Lemma concurrent_loser_not_already_voted :
  map call_task
    (runConcurrent (authenticated Sample.carol) Sample.colors Sample.lockstep
       (Sample.world, callsOf [Finite (0 # 1); Finite (1 # 1)])).2
  = [Returned ok; Returned (failed "Failed to submit vote. Please try again.")].
Proof. vm_compute. reflexivity. Qed.

Section Race.
Variables (p pollId : Id) (pollData : Poll) (w0 : World).
Hypothesis loggedIn : falsy p = false.
Hypothesis wellFormed : badPollId pollId = false.
Hypothesis listed : pollRows pollId (db w0) = [pollData].
Hypothesis notVoted : voteRows pollId p (db w0) = [].

Let session := authenticated p.

Lemma userIdOf_session : userIdOf (user session) = Some p.
Proof. simpl. by rewrite loggedIn. Qed.

Lemma pollData_listed w :
  polls (db w) = polls (db w0) -> pollRows pollId (db w) = [pollData].
Proof. unfold pollRows in *. by intros ->. Qed.

Lemma pollData_member : pollData ∈ polls (db w0) /\ poll_id pollData = pollId.
Proof.
  assert (H : pollData ∈ pollRows pollId (db w0)) by (rewrite listed; left).
  apply list_elem_of_filter in H. tauto.
Qed.

Lemma early_late t : early p w0 t -> late p t.
Proof. destruct t; simpl; tauto. Qed.

Section Turn.
Variables (optionIndex : JsNumber) (w : World).
Hypothesis healthy : faults w = [].
Hypothesis samePolls : polls (db w) = polls (db w0).
Hypothesis valid : inRange optionIndex (length (poll_options pollData)).

(** Of the rules on [votes], only the unique index can stop the vote of a
    valid call. *)
Lemma vote_rules_pass :
  voteRuleBroken (db w) (mkVote pollId (Some p) (integerOf optionIndex) (clock w))
  = if bool_decide (Exists (theVote p pollId) (votes (db w)))
    then Some "duplicate key value violates unique constraint idx_votes_unique_user_poll"
    else None.
Proof.
  destruct (index_checks_complete _ _ valid) as (_ & _ & _ & Hk).
  unfold voteRuleBroken. cbn [vote_poll_id vote_option_index vote_user_id].
  rewrite (bool_decide_eq_true_2 (Exists _ (polls (db w)))).
  2:{ apply Exists_exists. exists pollData. rewrite samePolls.
      destruct pollData_member. repeat split; [done..|lia]. }
  cbn [negb]. destruct (Z.ltb_spec (integerOf optionIndex) 0) as [|_]; [lia|].
  erewrite (bool_decide_ext (is_Some _ /\ _)); [done|].
  unfold theVote. split.
  - intros [_ Hx]. eapply Exists_impl; [exact Hx|]. done.
  - intros Hx. split; [by eexists|]. eapply Exists_impl; [exact Hx|]. done.
Qed.

(** A turn while no call has inserted: the call moves on, or it inserts. *)
Lemma turn_early t :
  votes (db w) = votes (db w0) ->
  (length (recentRows p (clock w - 60000) (db w0)) < 5)%nat ->
  early p w0 t ->
  let (t', w') := voteStep session pollId optionIndex t w in
  faults w' = [] /\ polls (db w') = polls (db w0) /\
  (early p w0 t' /\ votes (db w') = votes (db w0)
   \/ t' = Returned ok /\
      exists v, theVote p pollId v /\ votes (db w') = votes (db w0) ++ [v]).
Proof.
  intros sameVotes Hquiet Ht.
  destruct (index_checks_complete _ _ valid) as (Hneg & Hint & Hlen & _).
  destruct t as [| |u|u since|u|r]; cbn [voteStep early] in *.
  - rewrite wellFormed, Hneg, Hint. simpl. auto.
  - rewrite selectPollById_healthy, (pollData_listed w), userIdOf_session by done.
    cbn [single]. rewrite Hlen. simpl. auto.
  - subst u. rewrite selectVote_healthy by done.
    unfold voteRows in *. rewrite sameVotes, notVoted. simpl.
    split; [done|]. split; [done|]. left. by repeat split.
  - destruct Ht as [-> Hfew]. rewrite selectVotesSince_healthy by done.
    unfold recentRows in *. rewrite sameVotes. cbn [data_of].
    destruct (Nat.leb_spec 5 (length (filter
      (fun v => vote_user_id v = Some p /\ since <= vote_created_at v)
      (votes (db w0))))) as [|_]; [lia|]. simpl. auto.
  - subst u. rewrite insertVote_healthy, vote_rules_pass by done.
    rewrite bool_decide_eq_false_2.
    2:{ rewrite sameVotes, Exists_exists. intros (x & Hx & Hv).
        assert (Hin : x ∈ voteRows pollId p (db w0)) by (by apply list_elem_of_filter).
        rewrite notVoted in Hin. by apply elem_of_nil in Hin. }
    simpl. split; [done|]. split; [done|]. right. split; [done|].
    eexists. split; [|by rewrite sameVotes]. done.
  - done.
Qed.

(** A turn after a call has inserted: no other call gets through. *)
Lemma turn_late t v :
  theVote p pollId v -> votes (db w) = votes (db w0) ++ [v] ->
  late p t ->
  let (t', w') := voteStep session pollId optionIndex t w in
  faults w' = [] /\ db w' = db w /\ late p t' /\
  (t' = Returned ok <-> t = Returned ok).
Proof.
  intros Hv sameVotes Ht.
  destruct (index_checks_complete _ _ valid) as (Hneg & Hint & Hlen & _).
  destruct t as [| |u|u since|u|r]; cbn [voteStep late] in *.
  - rewrite wellFormed, Hneg, Hint. simpl. done.
  - rewrite selectPollById_healthy, (pollData_listed w), userIdOf_session by done.
    cbn [single]. rewrite Hlen. simpl. done.
  - subst u. rewrite selectVote_healthy by done.
    unfold voteRows in *. rewrite sameVotes, filter_app, notVoted.
    rewrite filter_cons_True by done. simpl.
    repeat split; try done. right. eexists. split; [|done]. set_solver.
  - subst u. rewrite selectVotesSince_healthy by done. cbn [data_of].
    destruct (Nat.leb 5 _); simpl; repeat split; try done.
    right. eexists. split; [|done]. set_solver.
  - subst u. rewrite insertVote_healthy, vote_rules_pass by done.
    rewrite bool_decide_eq_true_2.
    2:{ rewrite sameVotes, Exists_app. right. by left. }
    simpl. repeat split; try done. right. eexists. split; [|done]. set_solver.
  - done.
Qed.
(** A turn after a call has inserted, told by where the call stood when
    that happened. *)
Lemma turn_after_win t2 t v :
  theVote p pollId v -> votes (db w) = votes (db w0) ++ [v] ->
  pursues p t2 t ->
  let (t', w') := voteStep session pollId optionIndex t w in
  faults w' = [] /\ db w' = db w /\ pursues p t2 t'.
Proof.
  intros Hv sameVotes Ht.
  destruct (index_checks_complete _ _ valid) as (Hneg & Hint & Hlen & _).
  destruct t as [| |u|u since|u|r]; cbn [voteStep].
  - rewrite wellFormed, Hneg, Hint. simpl. by destruct t2.
  - rewrite selectPollById_healthy, (pollData_listed w), userIdOf_session by done.
    cbn [single]. rewrite Hlen. simpl. by destruct t2.
  - assert (u = p) as -> by (by destruct t2).
    rewrite selectVote_healthy by done.
    unfold voteRows in *. rewrite sameVotes, filter_app, notVoted.
    rewrite filter_cons_True by done. simpl. by destruct t2.
  - assert (u = p) as -> by (by destruct t2).
    rewrite selectVotesSince_healthy by done. cbn [data_of].
    destruct (Nat.leb 5 _); simpl; destruct t2; simpl in *; try contradiction; try discriminate; auto.
  - assert (u = p) as -> by (by destruct t2).
    rewrite insertVote_healthy, vote_rules_pass by done.
    rewrite bool_decide_eq_true_2.
    2:{ rewrite sameVotes, Exists_app. right. by left. }
    simpl. destruct t2; simpl in *; try contradiction; try discriminate; auto.
  - simpl. done.
Qed.
End Turn.

Lemma early_not_won calls :
  Forall (fun c => early p w0 (call_task c)) calls -> filter (returnedWith ok) calls = [].
Proof.
  intros H. apply filter_none. intros c Hc Hr.
  rewrite Forall_forall in H. specialize (H c Hc). unfold returnedWith in Hr.
  by rewrite Hr in H.
Qed.

(** A turn of any call keeps the invariant of the race. *)
Lemma concurrentStep_invariant s e :
  raceInvariant p pollId pollData w0 s -> quiet p w0 e ->
  raceInvariant p pollId pollData w0 (concurrentStep session pollId s e).
Proof.
  destruct s as [w calls]. destruct e as [i t].
  intros (healthy & samePolls & valid & phase) Hq.
  unfold concurrentStep, raceInvariant, raceOpen, raceWon, validCalls in *.
  cbn [fst snd] in *.
  destruct (calls !! i) as [c|] eqn:Hc; [|by repeat split].
  assert (Hvalid : inRange (call_index c) (length (poll_options pollData))).
  { rewrite Forall_lookup in valid. by eapply valid. }
  destruct phase as [[sameVotes Hearly]|[(v & Hv & sameVotes) [Hlate Hone]]].
  - assert (Hc' : early p w0 (call_task c)).
    { rewrite Forall_lookup in Hearly. by eapply Hearly. }
    pose proof (turn_early (call_index c) (at_time t w) healthy samePolls Hvalid
                  (call_task c) sameVotes Hq Hc') as Hturn.
    destruct (voteStep _ _ _ _ _) as [t' w'].
    destruct Hturn as (? & ? & Hcase).
    split; [done|]. split; [done|]. split; [by apply Forall_insert|].
    destruct Hcase as [[Ht' ?]|[-> Hvote]]; [left|right].
    + split; [done|]. by apply Forall_insert.
    + split; [done|]. split.
      * apply Forall_insert; [|by left].
        eapply Forall_impl; [done|]. intros ?. apply early_late.
      * pose proof (count_insert (returnedWith ok) calls i c
                      (mkCall (call_index c) (Returned ok)) Hc) as Hn.
        rewrite (early_not_won calls Hearly) in Hn.
        destruct (decide (returnedWith ok c)) as [Hr|_].
        { unfold returnedWith in Hr. by rewrite Hr in Hc'. }
        destruct (decide (returnedWith ok (mkCall (call_index c) (Returned ok))))
          as [_|Hr]; [cbn [snd length] in *; lia | by destruct Hr].
  - assert (Hc' : late p (call_task c)).
    { rewrite Forall_lookup in Hlate. by eapply Hlate. }
    pose proof (turn_late (call_index c) (at_time t w) healthy samePolls Hvalid
                  (call_task c) v Hv sameVotes Hc') as Hturn.
    destruct (voteStep _ _ _ _ _) as [t' w'].
    destruct Hturn as (? & Hdb & Ht' & Hiff).
    cbn [db at_time] in Hdb. cbn [fst snd].
    split; [done|]. split; [by rewrite Hdb|]. split; [by apply Forall_insert|].
    right. split; [exists v; by rewrite Hdb|].
    split; [by apply Forall_insert|].
    pose proof (count_insert (returnedWith ok) calls i c
                  (mkCall (call_index c) t') Hc) as Hn.
    unfold returnedWith in *. cbn [call_task] in Hn.
    destruct (decide (call_task c = Returned ok)) as [Hr|Hr];
      destruct (decide (t' = Returned ok)) as [Hr'|Hr']; cbn [snd] in *; try lia.
    * destruct Hr'. by apply Hiff.
    * destruct Hr. by apply Hiff.
Qed.

Lemma runConcurrent_invariant schedule : forall s,
  raceInvariant p pollId pollData w0 s -> Forall (quiet p w0) schedule ->
  raceInvariant p pollId pollData w0 (runConcurrent session pollId schedule s).
Proof.
  induction schedule as [|e schedule IH]; intros s Hs Hq; [done|].
  apply Forall_cons in Hq as [He Hq]. simpl.
  apply IH; [|done]. by apply concurrentStep_invariant.
Qed.

Lemma concurrentStep_length s e :
  length (concurrentStep session pollId s e).2 = length s.2.
Proof.
  unfold concurrentStep. destruct (s.2 !! e.1); [|done].
  destruct (voteStep _ _ _ _ _). simpl. apply length_insert.
Qed.

Lemma runConcurrent_length schedule : forall s,
  length (runConcurrent session pollId schedule s).2 = length s.2.
Proof.
  induction schedule as [|e schedule IH]; intros s; [done|].
  simpl. fold (runConcurrent session pollId schedule).
  by rewrite IH, concurrentStep_length.
Qed.
Lemma late_pursues t : late p t -> pursues p t t.
Proof. destruct t; simpl; tauto. Qed.

(** A turn of any call after the winning insert. *)
Lemma concurrentStep_afterWin calls2 v s e :
  theVote p pollId v ->
  afterWin p pollId pollData w0 calls2 v s ->
  afterWin p pollId pollData w0 calls2 v (concurrentStep session pollId s e).
Proof.
  destruct s as [w calls]. destruct e as [i t].
  intros Hv (healthy & samePolls & valid & sameVotes & Hfate).
  unfold concurrentStep, afterWin, validCalls in *. cbn [fst snd] in *.
  destruct (calls !! i) as [c|] eqn:Hc; [|by repeat split].
  assert (Hvalid : inRange (call_index c) (length (poll_options pollData))).
  { rewrite Forall_lookup in valid. by eapply valid. }
  destruct (Forall2_lookup_r _ _ _ _ _ Hfate Hc) as (c2 & Hc2 & Hp).
  pose proof (turn_after_win (call_index c) (at_time t w) healthy samePolls Hvalid
                (call_task c2) (call_task c) v Hv sameVotes Hp) as Hturn.
  destruct (voteStep _ _ _ _ _) as [t' w'].
  destruct Hturn as (? & Hdb & Ht'). cbn [db at_time] in Hdb. cbn [fst snd].
  split; [done|]. split; [by rewrite Hdb|]. split; [by apply Forall_insert|].
  split; [by rewrite Hdb|].
  rewrite <- (list_insert_id calls2 i c2 Hc2). by apply Forall2_insert.
Qed.

Lemma runConcurrent_afterWin calls2 v schedule : forall s,
  theVote p pollId v ->
  afterWin p pollId pollData w0 calls2 v s ->
  afterWin p pollId pollData w0 calls2 v (runConcurrent session pollId schedule s).
Proof.
  induction schedule as [|e schedule IH]; intros s Hv Hs; [done|].
  simpl. apply IH; [done|]. by apply concurrentStep_afterWin.
Qed.

(** A race that is open either stays open or has a turn at which it is
    won. *)
Lemma race_split schedule : forall s,
  raceInvariant p pollId pollData w0 s -> raceOpen p w0 s ->
  Forall (quiet p w0) schedule ->
  raceOpen p w0 (runConcurrent session pollId schedule s)
  \/ exists before e after,
       schedule = before ++ e :: after /\
       raceOpen p w0 (runConcurrent session pollId before s) /\
       raceInvariant p pollId pollData w0
         (concurrentStep session pollId (runConcurrent session pollId before s) e) /\
       raceWon p pollId w0
         (concurrentStep session pollId (runConcurrent session pollId before s) e).
Proof.
  induction schedule as [|e schedule IH]; intros s Hinv Hopen Hq; [by left|].
  apply Forall_cons in Hq as [He Hq].
  pose proof (concurrentStep_invariant s e Hinv He) as Hinv'.
  destruct (proj2 (proj2 (proj2 Hinv'))) as [Hopen'|Hwon].
  - destruct (IH _ Hinv' Hopen' Hq) as [?|(before & e' & after & -> & ?)]; [by left|].
    right. by exists (e :: before), e', after.
  - right. by exists [], e, schedule.
Qed.
End Race.

(** C4, amended: on a store that answers, let a logged-in user who has not
    voted on an existing poll, and who stays under the ceiling of five votes
    a minute, make any number of concurrent calls of [submitVote] on it with
    valid indices. Under every interleaving of their requests that lets all
    the calls return, exactly one call succeeds, [votes] holds exactly one
    row of the user for the poll, and every other call is rejected: with the
    duplicate-vote message, with the message of a failed insert, or with the
    message of the ceiling. Which one is told by where the call stands at
    the turn of the winning insert, the turn [e] before which [votes] has
    no row of the user for the poll and after which it has one: a call
    whose duplicate check is still to come then answers with the
    duplicate-vote message; a call that has passed its duplicate check and
    not its ceiling check answers with the message of the ceiling or of
    the failed insert; a call that has passed both answers with the
    message of the failed insert. *)
Theorem concurrent_votes_one_winner (p pollId : Id) (pollData : Poll) (w0 : World)
    (indices : list JsNumber) (schedule : list (nat * Millis)) :
  falsy p = false ->
  badPollId pollId = false ->
  faults w0 = [] ->
  pollRows pollId (db w0) = [pollData] ->
  voteRows pollId p (db w0) = [] ->
  indices <> [] ->
  Forall (fun i => inRange i (length (poll_options pollData))) indices ->
  Forall (quiet p w0) schedule ->
  let (w', calls) :=
    runConcurrent (authenticated p) pollId schedule (w0, callsOf indices) in
  Forall (fun c => hasReturned c = true) calls ->
  length calls = length indices /\
  length (filter (returnedWith ok) calls) = 1%nat /\
  Forall (fun c => returnedWith ok c \/ lost c) calls /\
  length (voteRows pollId p (db w')) = 1%nat /\
  exists before e after,
    schedule = before ++ e :: after /\
    let s1 := runConcurrent (authenticated p) pollId before (w0, callsOf indices) in
    let s2 := concurrentStep (authenticated p) pollId s1 e in
    voteRows pollId p (db s1.1) = [] /\
    length (voteRows pollId p (db s2.1)) = 1%nat /\
    Forall2 (fun c2 c => answerAfterWin (call_task c2) c) s2.2 calls.
Proof.
  intros loggedIn wellFormed healthy listed notVoted Hne Hvalid Hquiet.
  assert (Hopen0 : raceOpen p w0 (w0, callsOf indices)).
  { split; [done|]. unfold callsOf. by apply Forall_map, Forall_true. }
  assert (Hinv0 : raceInvariant p pollId pollData w0 (w0, callsOf indices)).
  { split; [done|]. split; [done|].
    split; [unfold validCalls, callsOf; by apply Forall_map|]. by left. }
  pose proof (runConcurrent_invariant p pollId pollData w0 loggedIn wellFormed listed
                notVoted schedule (w0, callsOf indices) Hinv0 Hquiet) as Hinv.
  pose proof (runConcurrent_length p pollId schedule (w0, callsOf indices)) as Hlen.
  pose proof (race_split p pollId pollData w0 loggedIn wellFormed listed notVoted
                schedule (w0, callsOf indices) Hinv0 Hopen0 Hquiet) as Hsplit.
  destruct (runConcurrent _ _ schedule _) as [w' calls] eqn:Erun. cbn [fst snd] in *.
  unfold callsOf in Hlen. rewrite length_map in Hlen.
  intros Hret.
  assert (Hstuck : ~ raceOpen p w0 (w', calls)).
  { intros [_ Hearly]. cbn [snd] in Hearly.
    destruct calls as [|c calls]; [by destruct indices|].
    apply Forall_cons in Hearly as [Hc _]. apply Forall_cons in Hret as [Hr _].
    unfold hasReturned in Hr. by destruct (call_task c). }
  split; [done|].
  destruct Hinv as (_ & _ & _ & [Hopen|[(v & Hv & Hvotes) [Hlate Hone]]]); [done|].
  cbn [fst snd] in *. split; [done|]. split; [|split].
  - rewrite Forall_forall in Hlate, Hret |- *. intros c Hc.
    specialize (Hlate c Hc). specialize (Hret c Hc).
    unfold hasReturned in Hret. unfold returnedWith, lost, returnedWith.
    destruct (call_task c) as [| | | | |r]; try done.
    destruct Hlate as [->|(m & Hm & ->)]; [by left|right; eauto].
  - unfold voteRows in *. rewrite Hvotes, filter_app, notVoted.
    by rewrite filter_cons_True.
  - destruct Hsplit as [Hopen|(before & e & after & -> & Hopen1 & Hinv2 & Hwon2)];
      [done|].
    exists before, e, after. split; [done|]. cbv zeta.
    unfold runConcurrent in Erun. rewrite fold_left_app in Erun. cbn [fold_left] in Erun.
    fold (runConcurrent (authenticated p) pollId before (w0, callsOf indices)) in Erun.
    set (s2 := concurrentStep (authenticated p) pollId
                 (runConcurrent (authenticated p) pollId before (w0, callsOf indices)) e)
      in *.
    destruct Hopen1 as [Hvotes1 _].
    destruct Hwon2 as ((v2 & Hv2 & Hvotes2) & Hlate2 & _).
    split; [unfold voteRows in *; by rewrite Hvotes1|].
    split.
    { unfold voteRows in *. rewrite Hvotes2, filter_app, notVoted.
      by rewrite filter_cons_True. }
    assert (Hafter : afterWin p pollId pollData w0 s2.2 v2 s2).
    { destruct Hinv2 as (? & ? & ? & _). repeat split; try done.
      apply Forall_Forall2_diag. eapply Forall_impl; [exact Hlate2|].
      intros c. apply late_pursues. }
    pose proof (runConcurrent_afterWin p pollId pollData w0 loggedIn wellFormed listed
                  notVoted s2.2 v2 after s2 Hv2 Hafter) as Hend.
    unfold runConcurrent in Hend. rewrite Erun in Hend.
    destruct Hend as (_ & _ & _ & _ & Hfate). cbn [snd] in Hfate.
    eapply Forall2_with_r; [exact Hfate | exact Hret |].
    intros c2 c. unfold hasReturned, answerAfterWin, returnedWith.
    destruct (call_task c) as [| | | | |r]; try done.
    destruct (call_task c2); simpl; intros Hp _; try done; try contradiction;
      try (by rewrite Hp).
    destruct Hp as [->| ->]; auto.
Qed.

(** C4, amended, for Carol's two calls taking turns. *)
Lemma concurrent_votes_one_winner_witness :
  let calls :=
    (runConcurrent (authenticated Sample.carol) Sample.colors Sample.lockstep
       (Sample.world, callsOf [Finite (0 # 1); Finite (1 # 1)])).2 in
  length (filter (returnedWith ok) calls) = 1%nat.
Proof.
  intros calls.
  pose proof (concurrent_votes_one_winner Sample.carol Sample.colors Sample.bestColor
                Sample.world [Finite (0 # 1); Finite (1 # 1)] Sample.lockstep) as H.
  unfold calls. destruct (runConcurrent _ _ _ _) as [w' cs] eqn:E.
  apply H.
  - reflexivity.
  - reflexivity.
  - reflexivity.
  - vm_compute. reflexivity.
  - vm_compute. reflexivity.
  - discriminate.
  - repeat constructor; [exists 0 | exists 1]; (split; [reflexivity | simpl; lia]).
  - repeat constructor; vm_compute; lia.
  - vm_compute in E. injection E as <- <-. repeat constructor.
Defined.

(* --------------------------------------------------------------------- *)
(** ** The rate limiter                                                   *)
(* --------------------------------------------------------------------- *)

Section RateLimiter.
Variable passedOn : Request -> HttpResponse.
Implicit Types (rl : gmap JsString RateEntry) (k : JsString).

(** A first request, or one after the window ran out, opens a window. *)
Lemma isRateLimited_stale request now rl :
  stale (getRateLimitKey request) now rl ->
  isRateLimited request now rl
  = (false, <[getRateLimitKey request := mkEntry 1 now]> rl).
Proof.
  unfold stale, isRateLimited. destruct (rl !! _) as [current|]; [|done].
  intros H. apply Z.ltb_lt in H. by rewrite H.
Qed.

Lemma isRateLimited_counts request now rl c t0 :
  rl !! getRateLimitKey request = Some (mkEntry c t0) ->
  now - t0 <= windowMs -> c < maxRequests ->
  isRateLimited request now rl
  = (false, <[getRateLimitKey request := mkEntry (c + 1) t0]> rl).
Proof.
  unfold isRateLimited. intros -> Hw Hc. simpl.
  apply Z.ltb_ge in Hw. rewrite Hw. apply Z.leb_gt in Hc. by rewrite Hc.
Qed.

Lemma isRateLimited_full request now rl c t0 :
  rl !! getRateLimitKey request = Some (mkEntry c t0) ->
  now - t0 <= windowMs -> maxRequests <= c ->
  isRateLimited request now rl = (true, rl).
Proof.
  unfold isRateLimited. intros -> Hw Hc. simpl.
  apply Z.ltb_ge in Hw. rewrite Hw. apply Z.leb_le in Hc. by rewrite Hc.
Qed.

(** A request leaves the windows of the other keys alone. *)
Lemma isRateLimited_other request now rl k :
  getRateLimitKey request <> k -> (isRateLimited request now rl).2 !! k = rl !! k.
Proof.
  intros Hk. unfold isRateLimited.
  destruct (rl !! getRateLimitKey request) as [current|]; simpl.
  - destruct (windowMs <? _); simpl; [by rewrite lookup_insert_ne|].
    destruct (maxRequests <=? _); simpl; [done | by rewrite lookup_insert_ne].
  - by rewrite lookup_insert_ne.
Qed.

(** The sweep keeps a window that has not run out. *)
Lemma sweep_keeps now rl k c t0 :
  rl !! k = Some (mkEntry c t0) -> now - t0 <= windowMs ->
  sweep now rl !! k = Some (mkEntry c t0).
Proof.
  intros Hk Hw. unfold sweep. apply map_lookup_filter_Some. split; [done|].
  simpl. unfold windowMs in Hw. lia.
Qed.

(** The sweep only removes windows that the next request would reset. *)
Lemma sweep_removes_stale now rl k :
  sweep now rl !! k = None -> stale k now rl.
Proof.
  unfold sweep, stale. intros H. destruct (rl !! k) as [current|] eqn:E; [|done].
  apply map_lookup_filter_None in H as [H|H]; [congruence|].
  specialize (H _ E). simpl in H. unfold windowMs. lia.
Qed.

(** Inside an open window of [k] with [c] requests counted: the request
    number [j] from here passes while [c + j] is below the maximum and is
    limited from then on. *)
Lemma serve_in_window k events : forall rl c t0 (j : nat) request response,
  rl !! k = Some (mkEntry c t0) ->
  Forall (fun e => eventTime e - t0 <= windowMs) events ->
  filter (fromKey k) (serve passedOn events rl) !! j = Some (request, response) ->
  (c + Z.of_nat j < maxRequests -> response = passedOn request) /\
  (maxRequests <= c + Z.of_nat j -> exists now', response = tooManyRequests now').
Proof.
  induction events as [|e events IH]; intros rl c t0 j request response Hk Hw; [done|].
  apply Forall_cons in Hw as [He Hw]. destruct e as [r now now'|now]; simpl in *.
  - unfold updateSession. destruct (decide (getRateLimitKey r = k)) as [Hr|Hr].
    + subst k. destruct (Z_lt_le_dec c maxRequests) as [Hc|Hc].
      * rewrite (isRateLimited_counts r now rl c t0) by done.
        rewrite filter_cons_True by done.
        destruct j as [|j]; simpl.
        -- intros [= <- <-]. split; [done|lia].
        -- intros Hj. eapply IH in Hj; [|apply lookup_insert_eq|done].
           split; intros; apply Hj; lia.
      * rewrite (isRateLimited_full r now rl c t0) by done.
        rewrite filter_cons_True by done.
        destruct j as [|j]; simpl.
        -- intros [= <- <-]. split; [lia|eauto].
        -- intros Hj. eapply IH in Hj; [|done..].
           split; intros; apply Hj; lia.
    + pose proof (isRateLimited_other r now rl k Hr) as Ho.
      destruct (isRateLimited r now rl) as [[] rl']; simpl in *;
        rewrite filter_cons_False by done; intros Hj;
        (eapply IH; [by rewrite Ho | done | done]).
  - intros Hj. eapply IH; [by apply sweep_keeps | done | done].
Qed.

(** C8: a request of a client whose window is stale, or who has none,
    resets the window to count 1 and is let through. From there, while the
    window has not rolled over (every event comes within 300000 ms of its
    start), whatever the other clients and the sweep do, the first 100
    requests of the client are passed on and every request from the 101st
    on is answered with status 429 and a [Retry-After] header. *)
Theorem rate_limit_window (first : Request) (t0 t0' : Millis) (events : list Event) rl :
  stale (getRateLimitKey first) t0 rl ->
  Forall (fun e => eventTime e - t0 <= windowMs) events ->
  isRateLimited first t0 rl = (false, <[getRateLimitKey first := mkEntry 1 t0]> rl) /\
  forall (j : nat) request response,
    filter (fromKey (getRateLimitKey first))
           (serve passedOn (Arrives first t0 t0' :: events) rl) !! j
    = Some (request, response) ->
    ((j < 100)%nat -> response = passedOn request) /\
    ((100 <= j)%nat ->
       status response = 429 /\ header "Retry-After" response = Some "300").
Proof.
  intros Hs Hw. pose proof (isRateLimited_stale first t0 rl Hs) as E.
  split; [done|]. intros j request response. simpl. unfold updateSession.
  rewrite E. rewrite filter_cons_True by done.
  destruct j as [|j]; simpl.
  - intros [= <- <-]. split; [done|lia].
  - intros Hj. eapply serve_in_window in Hj as [H1 H2]; [|apply lookup_insert_eq|done].
    unfold maxRequests in *. split.
    + intros. apply H1. lia.
    + intros. destruct H2 as [now' ->]; [lia|done].
Qed.
End RateLimiter.

(** C8 for a browser's first request, with another client and a sweep in
    its window. *)
Lemma rate_limit_window_witness :
  isRateLimited Sample.browser 1000 ∅
  = (false, {[getRateLimitKey Sample.browser := mkEntry 1 1000]}).
Proof.
  apply (rate_limit_window Sample.passedOn Sample.browser 1000 1000
           [Arrives Sample.other 2000 2000; Sweeps 300000;
            Arrives Sample.browser 300999 301000] ∅).
  - unfold stale. by rewrite lookup_empty.
  - unfold windowMs. repeat constructor; simpl; lia.
Defined.

(** A hundred and two requests of one client in one window: the hundredth
    passes, the last two are limited. *)
Example hundred_and_two_requests :
  let events := replicate 102 (Arrives Sample.browser 1000 1000) in
  map (fun x => status x.2) (drop 99 (serve Sample.passedOn events ∅)) = [200; 429; 429].
Proof. vm_compute. reflexivity. Qed.

(* --------------------------------------------------------------------- *)
(** ** At the scenarios                                                   *)
(* --------------------------------------------------------------------- *)

(** Bob's admin verdict comes with his row. *)
Lemma isAdmin_sound_witness :
  exists u, Some Sample.bob = Some u /\ mkUserRole u ADMIN ∈ user_roles (db Sample.world).
Proof. apply (isAdmin_sound (Some Sample.bob) Sample.world). vm_compute. reflexivity. Defined.

(** A window opened at 1000 is swept at 400000, when a request would reset
    it. *)
Lemma sweep_removes_stale_witness :
  stale (getRateLimitKey Sample.browser) 400000
    {[getRateLimitKey Sample.browser := mkEntry 3 1000]}.
Proof. apply sweep_removes_stale. vm_compute. reflexivity. Defined.

(** With the store down, [deletePoll] says that the poll was not found. *)
Lemma deletePoll_messages_fixed_witness :
  "Poll not found" ∈ deletePollMessages.
Proof.
  apply (deletePoll_messages_fixed (authenticated Sample.alice) Sample.colors
           (Sample.outage Sample.refused)).
  vm_compute. reflexivity.
Defined.


(* --------------------------------------------------------------------- *)
(** ** What a call does to the tables, whatever the store does            *)
(* --------------------------------------------------------------------- *)

Lemma single_Success {A} (rows : list A) x : single rows = Success x -> rows = [x].
Proof. destruct rows as [|a [|b rows]]; simpl; congruence. Qed.

(** A read answers from the tables it leaves as they were, or fails. *)
Lemma query_result {A} t (rows : Database -> Response A) w r w' :
  query t rows w = (r, w') ->
  db w' = db w /\ clock w' = clock w /\ uuid w' = uuid w /\ serial w' = serial w /\
  journal w' = (t, VSelect) :: journal w /\
  (faults w = [] -> faults w' = []) /\
  (r = rows (db w) \/ exists m, r = Failure m).
Proof.
  unfold query, reach.
  destruct (faults w) as [|[m|] fs]; intros [= <- <-]; simpl;
    repeat split; try done; eauto.
Qed.

(** A write installs the tables that its change gives, or fails and leaves
    them. *)
Lemma mutate_result t v (change : World -> Database + string) w r w' :
  mutate t v change w = (r, w') ->
  (exists m, r = Failure m /\ db w' = db w) \/
  (exists w1, r = Success tt /\ change w1 = inl (db w')
              /\ db w1 = db w /\ clock w1 = clock w /\ uuid w1 = uuid w
              /\ serial w1 = serial w).
Proof.
  unfold mutate, reach.
  destruct (faults w) as [|[m|] fs]; simpl.
  - destruct (change _) as [d|m] eqn:E; intros [= <- <-]; [right|left; eauto].
    eexists. split; [done|]. split; [exact E|]. done.
  - intros [= <- <-]. left. eauto.
  - destruct (change _) as [d|m] eqn:E; intros [= <- <-]; [right|left; eauto].
    eexists. split; [done|]. split; [exact E|]. done.
Qed.

Lemma selectPollById_result id w r w' :
  selectPollById id w = (r, w') ->
  db w' = db w /\
  forall pl, r = Success pl -> pl ∈ polls (db w) /\ poll_id pl = id /\ pollRows id (db w) = [pl].
Proof.
  intros (Hdb & _ & _ & _ & _ & _ & Hr)%query_result. split; [done|].
  intros pl ->. destruct Hr as [Hr|[m Hr]]; [|done].
  symmetry in Hr. apply single_Success in Hr.
  assert (Hin : pl ∈ filter (fun p => poll_id p = id) (polls (db w))) by (rewrite Hr; left).
  apply list_elem_of_filter in Hin as [? ?]. done.
Qed.

Lemma selectRole_result u role w r w' :
  selectRole u role w = (r, w') ->
  db w' = db w /\
  (is_Some (data_of r) -> mkUserRole u role ∈ user_roles (db w)).
Proof.
  intros (Hdb & _ & _ & _ & _ & _ & Hr)%query_result. split; [done|].
  intros [x Hx]. destruct r as [y|]; [|done]. destruct Hr as [Hr|[m Hr]]; [|done].
  symmetry in Hr. apply single_Success in Hr.
  assert (Hin : y ∈ filter (fun x => role_user_id x = u /\ role_name x = role)
                      (user_roles (db w))) by (rewrite Hr; left).
  apply list_elem_of_filter in Hin as [[<- <-] ?]. by destruct y.
Qed.

Lemma insertVote_result p u i w r w' :
  insertVote p u i w = (r, w') ->
  (exists m, r = Failure m /\ db w' = db w) \/
  (r = Success tt /\ voteRuleBroken (db w) (mkVote p u i (clock w)) = None
   /\ db w' = mkDatabase (polls (db w)) (user_roles (db w))
                (votes (db w) ++ [mkVote p u i (clock w)])).
Proof.
  intros [?|(w1 & -> & Hc & Hdb & Hclock & _)]%mutate_result; [left; assumption|right].
  cbv zeta in Hc. rewrite Hdb, Hclock in Hc.
  destruct (voteRuleBroken _ _); [done|]. injection Hc as <-. done.
Qed.

Lemma deletePollRow_result id w r w' :
  deletePollRow id w = (r, w') ->
  (exists m, r = Failure m /\ db w' = db w) \/
  (r = Success tt
   /\ db w' = mkDatabase (filter (fun p => poll_id p <> id) (polls (db w)))
                (user_roles (db w))
                (filter (fun v => vote_poll_id v <> id) (votes (db w)))).
Proof.
  intros [?|(w1 & -> & Hc & Hdb & _)]%mutate_result; [left; assumption|right].
  rewrite Hdb in Hc. by injection Hc as <-.
Qed.

Lemma updatePollRow_result id u question options w r w' :
  updatePollRow id u question options w = (r, w') ->
  (exists m, r = Failure m /\ db w' = db w) \/
  (r = Success tt
   /\ (Exists (fun x => poll_id x = id /\ poll_user_id x = u) (polls (db w)) ->
       pollRuleBroken question options = None)
   /\ db w' = mkDatabase (map (revised id u question options) (polls (db w)))
                (user_roles (db w)) (votes (db w))).
Proof.
  intros [?|(w1 & -> & Hc & Hdb & _)]%mutate_result; [left; assumption|right].
  cbv zeta in Hc. rewrite Hdb in Hc. split; [done|].
  case_bool_decide as Hs.
  - destruct (pollRuleBroken question options); [done|]. by injection Hc as <-.
  - by injection Hc as <-.
Qed.

Lemma insertPoll_result u question options w r w' :
  insertPoll u question options w = (r, w') ->
  (exists m, r = Failure m /\ db w' = db w) \/
  (r = Success tt
   /\ pollRuleBroken question options = None
   /\ db w' = mkDatabase (polls (db w) ++ [mkPoll (uuid w (serial w)) u question options])
                (user_roles (db w)) (votes (db w))).
Proof.
  unfold insertPoll.
  destruct (mutate _ _ _ w) as [r0 w0] eqn:E. intros [= <- <-]. simpl.
  apply mutate_result in E as [?|(w1 & -> & Hc & Hdb & _)]; [left; assumption|right].
  rewrite Hdb in Hc. destruct (pollRuleBroken question options); [done|].
  by injection Hc as <-.
Qed.

(** [createPoll] adds the caller's sanitised poll, or changes nothing. *)
Lemma createPoll_effect `{JsRuntime} session formData w :
  let (r, w') := createPoll session formData w in
  (error r <> None /\ db w' = db w) \/
  (error r = None /\
   exists u, user session = Some u /\ userError session = None
     /\ validatePollInput (get_question formData) (rawOptionsOf formData) = None
     /\ (charLength (sanitizeInput (default [] (get_question formData))) <= 500)%nat
     /\ db w' = mkDatabase
          (polls (db w) ++
             [mkPoll (uuid w (serial w)) (user_id u)
                (sanitizeInput (default [] (get_question formData)))
                (map sanitizeInput (rawOptionsOf formData))])
          (user_roles (db w)) (votes (db w))).
Proof.
  unfold createPoll. run_action.
  destruct (validatePollInput _ _) eqn:Hv; [by left|].
  destruct (userError session) eqn:He; [by left|].
  destruct (user session) as [u|] eqn:Hu; [|by left].
  destruct (insertPoll _ _ _ w) as [r w'] eqn:E.
  apply insertPoll_result in E as [(m & -> & ?)|(-> & Hrule & ?)]; [by left|right].
  split; [done|]. exists u. do 3 (split; [done|]). split; [|done].
  rewrite (pollRuleBroken_valid _ _ _ Hv) in Hrule.
  by destruct (Nat.ltb_spec 500
    (charLength (sanitizeInput (default [] (get_question formData))))).
Qed.

(** [updatePoll] revises the rows of the given id that the caller owns, or
    changes nothing. *)
Lemma updatePoll_effect `{JsRuntime} session pollId formData w :
  let (r, w') := updatePoll session pollId formData w in
  db w' = db w \/
  (error r = None /\
   exists u, user session = Some u /\ userError session = None
     /\ badPollId pollId = false
     /\ validatePollInput (get_question formData) (rawOptionsOf formData) = None
     /\ db w' = mkDatabase
          (map (revised pollId (user_id u)
                  (sanitizeInput (default [] (get_question formData)))
                  (map sanitizeInput (rawOptionsOf formData))) (polls (db w)))
          (user_roles (db w)) (votes (db w))).
Proof.
  unfold updatePoll. run_action.
  destruct (badPollId pollId) eqn:Hb; [by left|].
  destruct (validatePollInput _ _) eqn:Hv; [by left|].
  destruct (userError session) eqn:He; [by left|].
  destruct (user session) as [u|] eqn:Hu; [|by left].
  destruct (updatePollRow _ _ _ _ w) as [r w'] eqn:E.
  apply updatePollRow_result in E as [(m & -> & ?)|(-> & _ & ?)]; [by left|right].
  split; [done|]. exists u. done.
Qed.

(** [deletePoll] deletes the poll, and its votes with it, for its owner or
    for a user with the admin row, or changes nothing. *)
Lemma deletePoll_effect session id w :
  let (r, w') := deletePoll session id w in
  (error r <> None /\ db w' = db w) \/
  (error r = None /\
   exists u pl, user session = Some u /\ userError session = None
     /\ pl ∈ polls (db w) /\ poll_id pl = id
     /\ (poll_user_id pl = user_id u
         \/ mkUserRole (user_id u) ADMIN ∈ user_roles (db w))
     /\ db w' = mkDatabase (filter (fun p => poll_id p <> id) (polls (db w)))
                  (user_roles (db w))
                  (filter (fun v => vote_poll_id v <> id) (votes (db w)))).
Proof.
  unfold deletePoll. run_action.
  destruct (userError session) eqn:He; [by left|].
  destruct (user session) as [u|] eqn:Hu; [|by left].
  destruct (selectPollById id w) as [[pl|m] w1] eqn:E1; [|left; split; [done|]].
  2:{ by apply selectPollById_result in E1 as [? _]. }
  apply selectPollById_result in E1 as [D1 Hpl].
  destruct (Hpl pl eq_refl) as (Hin & Hid & _).
  case_bool_decide as Hown.
  - destruct (selectRole (user_id u) ADMIN w1) as [role w2] eqn:E2.
    apply selectRole_result in E2 as [D2 Hrole]. rewrite D1 in *.
    destruct (bool_decide (is_Some (data_of role))) eqn:Hadm; simpl.
    + apply bool_decide_eq_true in Hadm.
      destruct (deletePollRow id w2) as [r w3] eqn:E3.
      apply deletePollRow_result in E3 as [(m & -> & ?)|(-> & ?)];
        [left; split; [done|congruence]|right].
      split; [done|]. exists u, pl. rewrite D2 in *.
      do 4 (split; [done|]). split; [|done]. right. by apply Hrole.
    + left. split; [done|congruence].
  - destruct (deletePollRow id w1) as [r w3] eqn:E3.
    apply deletePollRow_result in E3 as [(m & -> & ?)|(-> & ?)];
      [left; split; [done|congruence]|right].
    split; [done|]. exists u, pl. rewrite D1 in *.
    do 4 (split; [done|]). split; [|done]. left.
    destruct (decide (poll_user_id pl = user_id u)) as [|Hne]; [done|by destruct Hown].
Qed.

(** [submitVote] adds the caller's vote, which the rules of the store let
    in, or changes nothing. *)
Lemma submitVote_effect session pollId optionIndex w :
  let (r, w') := submitVote session pollId optionIndex w in
  (error r <> None /\ db w' = db w) \/
  (error r = None /\
   exists u, userIdOf (user session) = Some u
     /\ voteRuleBroken (db w) (mkVote pollId (Some u) (integerOf optionIndex) (clock w)) = None
     /\ db w' = mkDatabase (polls (db w)) (user_roles (db w))
                  (votes (db w) ++ [mkVote pollId (Some u) (integerOf optionIndex) (clock w)])).
Proof.
  unfold submitVote. run_action.
  destruct (badPollId pollId); [by left|].
  destruct (ltZero optionIndex || negb (isInteger optionIndex)); [by left|].
  destruct (selectPollById pollId w) as [[pl|m] w1] eqn:E1;
    apply query_result in E1 as (D1 & C1 & _); [|by left].
  destruct (geLength _ _); [by left|].
  destruct (userIdOf _) as [u|]; [|by left].
  destruct (selectVote pollId u w1) as [existing w2] eqn:E2.
  apply query_result in E2 as (D2 & C2 & _).
  destruct (bool_decide _); [left; split; [done|congruence]|].
  destruct (selectVotesSince u _ w2) as [recent w3] eqn:E3.
  apply query_result in E3 as (D3 & C3 & _).
  destruct (match data_of recent with Some _ => _ | None => _ end);
    [left; split; [done|congruence]|].
  destruct (insertVote _ _ _ w3) as [r w4] eqn:E4.
  assert (Hdb : db w3 = db w) by congruence.
  assert (Hclock : clock w3 = clock w) by congruence.
  apply insertVote_result in E4 as [(m & -> & ?)|(-> & Hrule & ?)].
  - left. split; [done|congruence].
  - right. split; [done|]. exists u. rewrite Hdb, Hclock in *. done.
Qed.

(** The reads leave the tables as they were. *)
Lemma getPollById_db id w : db (getPollById id w).2 = db w.
Proof.
  unfold getPollById. run_action.
  destruct (selectPollById id w) as [found w1] eqn:E.
  apply query_result in E as (? & _). by destruct (error_of found).
Qed.

Lemma isAdmin_db userId w : db (isAdmin userId w).2 = db w.
Proof.
  unfold isAdmin. run_action. destruct userId as [u|]; [|done].
  destruct (falsy u); [done|].
  destruct (selectRole u ADMIN w) as [found w1] eqn:E.
  by apply query_result in E as (? & _).
Qed.

(** A store that answers every request keeps doing so. *)
Lemma reach_healthy t v w : faults w = [] -> faults (reach t v w).2 = [].
Proof. unfold reach. by intros ->. Qed.

Lemma mutate_healthy t v change w : faults w = [] -> faults (mutate t v change w).2 = [].
Proof. unfold mutate, reach. intros ->. simpl. by destruct (change _). Qed.

Lemma insertVote_stays_healthy p u i w :
  faults w = [] -> faults (insertVote p u i w).2 = [].
Proof. apply mutate_healthy. Qed.

Lemma submitVote_stays_healthy session pollId optionIndex w :
  faults w = [] -> faults (submitVote session pollId optionIndex w).2 = [].
Proof.
  intros healthy. unfold submitVote. run_action.
  destruct (badPollId pollId); [done|].
  destruct (ltZero optionIndex || negb (isInteger optionIndex)); [done|].
  destruct (selectPollById pollId w) as [[pl|m] w1] eqn:E1;
    apply query_result in E1 as (_ & _ & _ & _ & _ & H1 & _); [|by apply H1].
  destruct (geLength _ _); [by apply H1|].
  destruct (userIdOf _) as [u|]; [|by apply H1].
  destruct (selectVote pollId u w1) as [existing w2] eqn:E2.
  apply query_result in E2 as (_ & _ & _ & _ & _ & H2 & _).
  destruct (bool_decide _); [by apply H2, H1|].
  destruct (selectVotesSince u _ w2) as [recent w3] eqn:E3.
  apply query_result in E3 as (_ & _ & _ & _ & _ & H3 & _).
  destruct (match data_of recent with Some _ => _ | None => _ end);
    [by apply H3, H2, H1|].
  pose proof (insertVote_stays_healthy pollId (Some u) (integerOf optionIndex) w3
                (H3 (H2 (H1 healthy)))) as H4.
  destruct (insertVote _ _ _ w3) as [r w4]. simpl in *. by destruct (error_of r).
Qed.


(* --------------------------------------------------------------------- *)
(** ** validatePollInput                                                  *)
(* --------------------------------------------------------------------- *)

(** The size of the set of a list is its length exactly when nothing is
    listed twice. *)
Lemma size_list_to_set_le (l : list JsString) :
  (size (list_to_set l : gset JsString) <= length l)%nat.
Proof.
  induction l as [|x l IH]; [done|].
  rewrite list_to_set_cons, size_union_alt, size_singleton. simpl.
  assert (size (list_to_set l ∖ {[x]} : gset JsString) <= size (list_to_set l : gset JsString))%nat
    by (apply subseteq_size, subseteq_difference_l; reflexivity).
  lia.
Qed.

Lemma size_list_to_set_NoDup (l : list JsString) :
  size (list_to_set l : gset JsString) = length l <-> NoDup l.
Proof.
  split; [|apply size_list_to_set].
  induction l as [|x l IH]; [constructor|].
  rewrite list_to_set_cons. simpl. intros Hsize.
  pose proof (size_list_to_set_le l) as Hle.
  destruct (decide (x ∈ l)) as [Hin|Hin].
  - rewrite subseteq_union_1_L in Hsize by set_solver. lia.
  - rewrite size_union, size_singleton in Hsize by set_solver.
    constructor; [done|]. apply IH. lia.
Qed.

(** The loop over the options finds nothing exactly when every option is
    in order. *)
Lemma validateOptions_None i options :
  validateOptions i options = None <->
  Forall (fun o => blank o = false /\ (length o <= MAX_OPTION_LENGTH)%nat
                   /\ suspicious o = false) options.
Proof.
  revert i. induction options as [|o options IH]; intros i; simpl.
  - split; [constructor|done].
  - rewrite Forall_cons, <- (IH (S i)).
    destruct (blank o); [by split; [|intros [[? _] _]]|].
    destruct (Nat.ltb_spec MAX_OPTION_LENGTH (length o)).
    { split; [done|]. intros [(_ & ? & _) _]. lia. }
    destruct (suspicious o); [by split; [|intros [(_ & _ & ?) _]]|].
    split; [|by intros [_ ?]]. intros ?. repeat split; [lia|done].
Qed.

(** [validatePollInput] lets a form through exactly when: the question is
    there, not blank, of at most 500 code units and without a forbidden
    pattern; there are 2 to 10 options; each option is not blank, of at most
    200 code units and without a forbidden pattern; and no two options are
    the same once lower-cased and trimmed. *)
Theorem validatePollInput_accepts_iff `{JsRuntime} (question : option JsString)
    (options : list JsString) :
  validatePollInput question options = None <-> wellFormedPoll question options.
Proof.
  unfold validatePollInput, wellFormedPoll, uniqueOptions.
  destruct question as [q|]; [|by split; [|intros [(q & ? & _) _]]].
  destruct (blank q) eqn:Hb.
  { split; [done|]. intros [(q' & [= <-] & ? & _) _]. congruence. }
  destruct (Nat.ltb_spec MAX_QUESTION_LENGTH (length q)).
  { split; [done|]. intros [(q' & [= <-] & _ & ? & _) _]. lia. }
  destruct (suspicious q) eqn:Hs.
  { split; [done|]. intros [(q' & [= <-] & _ & _ & ?) _]. congruence. }
  destruct (Nat.ltb_spec (length options) MIN_OPTIONS).
  { split; [done|]. intros (_ & ? & _). lia. }
  destruct (Nat.ltb_spec MAX_OPTIONS (length options)).
  { split; [done|]. intros (_ & ? & _). lia. }
  destruct (validateOptions 0 options) as [e|] eqn:Hv.
  { split; [done|]. intros (_ & _ & Hall & _).
    apply (validateOptions_None 0) in Hall. congruence. }
  apply (validateOptions_None 0) in Hv.
  destruct (Nat.eqb_spec
    (size (list_to_set (map (fun opt => trim (toLowerCase opt)) options) : gset JsString))
    (length options)) as [Hsize|Hsize]; simpl.
  - split; [intros _|done].
    split; [exists q; repeat split; [done|lia|done]|]. split; [lia|]. split; [done|].
    apply size_list_to_set_NoDup. by rewrite length_map.
  - split; [done|]. intros (_ & _ & _ & Hnd).
    apply size_list_to_set_NoDup in Hnd. rewrite length_map in Hnd. congruence.
Qed.

(** The form of the specification's scenario passes. *)
Lemma validatePollInput_accepts_iff_witness :
  @wellFormedPoll asciiRuntime (Some (js "Best color?")) [js "Red"; js "Blue"].
Proof. apply (@validatePollInput_accepts_iff asciiRuntime). vm_compute. reflexivity. Defined.

(** The pattern matches at the start of a text when the text starts with a
    run that is the pattern up to case. *)
Lemma matchesAt_spec pat s :
  matchesAt pat s = true <-> exists mid post, s = mid ++ post /\ sameIgnoringCase mid pat.
Proof.
  revert s. induction pat as [|p pat IH]; intros s; simpl.
  - split; [intros _; exists [], s; split; [done|constructor]|done].
  - destruct s as [|c s].
    + split; [done|]. intros (mid & post & E & Hm).
      inversion Hm; subst. done.
    + rewrite andb_true_iff, IH. split.
      * intros (Hc & mid & post & -> & Hm). exists (c :: mid), post.
        split; [done|]. by constructor.
      * intros (mid & post & E & Hm). inversion Hm as [|c' p' mid' pat' Hc Hm']; subst.
        injection E as -> ->. split; [done|]. eauto.
Qed.

Lemma testIgnoreCase_spec pat s :
  testIgnoreCase pat s = true <->
  exists pre mid post, s = pre ++ mid ++ post /\ sameIgnoringCase mid pat.
Proof.
  induction s as [|c s IH]; simpl.
  - rewrite orb_false_r, matchesAt_spec. split.
    + intros (mid & post & E & Hm). by exists [], mid, post.
    + intros (pre & mid & post & E & Hm).
      symmetry in E. apply app_eq_nil in E as [-> E]. eauto.
  - rewrite orb_true_iff, matchesAt_spec, IH. split.
    + intros [(mid & post & E & Hm)|(pre & mid & post & -> & Hm)].
      * by exists [], mid, post.
      * by exists (c :: pre), mid, post.
    + intros (pre & mid & post & E & Hm). destruct pre as [|c' pre].
      * left. by exists mid, post.
      * injection E as -> ->. right. by exists pre, mid, post.
Qed.

(** The forbidden-pattern scan finds [<script], [javascript:] or [data:]
    wherever it stands in the text and however its letters are cased, and
    finds nothing else. *)
Theorem suspicious_iff (s : JsString) :
  suspicious s = true <->
  exists pat pre mid post,
    pat ∈ [js "<script"; js "javascript:"; js "data:"]
    /\ s = pre ++ mid ++ post /\ sameIgnoringCase mid pat.
Proof.
  unfold suspicious. rewrite !orb_true_iff, !testIgnoreCase_spec. split.
  - intros [[(pre & mid & post & ? & ?)|(pre & mid & post & ? & ?)]
           |(pre & mid & post & ? & ?)];
      eexists _, pre, mid, post; (split; [|done]); set_solver.
  - intros (pat & pre & mid & post & Hpat & ? & ?).
    apply elem_of_cons in Hpat as [->|Hpat]; [left; left; eauto|].
    apply elem_of_cons in Hpat as [->|Hpat]; [left; right; eauto|].
    apply list_elem_of_singleton in Hpat as ->. right; eauto.
Qed.

(* --------------------------------------------------------------------- *)
(** ** What the actions do to the tables                                  *)
(* --------------------------------------------------------------------- *)

(** [createPoll] leaves [user_roles] and [votes] alone, and either returns
    an error and leaves [polls] alone too, or returns no error and has
    added one row at the end of [polls]: a poll of the caller, with no angle
    bracket in its text and with two to ten options. *)
Theorem createPoll_adds_one_owned_poll `{JsRuntime} (session : UserResponse)
    (formData : FormData) (w : World) :
  let (r, w') := createPoll session formData w in
  user_roles (db w') = user_roles (db w) /\ votes (db w') = votes (db w) /\
  ((error r <> None /\ polls (db w') = polls (db w)) \/
   (error r = None /\ exists u p,
      user session = Some u /\ polls (db w') = polls (db w) ++ [p]
      /\ poll_user_id p = user_id u /\ angleFreePoll p
      /\ (MIN_OPTIONS <= length (poll_options p) <= MAX_OPTIONS)%nat)).
Proof.
  pose proof (createPoll_effect session formData w) as E.
  destruct (createPoll session formData w) as [r w'].
  destruct E as [[He Hd]|[He (u & Hu & _ & Hv & _ & Hd)]]; rewrite Hd; simpl.
  - split; [done|]. split; [done|]. by left.
  - split; [done|]. split; [done|]. right. split; [done|].
    eexists u, _. split; [done|]. split; [done|]. simpl. split; [done|].
    split; [apply sanitized_poll|]. rewrite length_map.
    by apply validatePollInput_options_count in Hv.
Qed.

Lemma insertPoll_stays_healthy u question options w :
  faults w = [] -> faults (insertPoll u question options w).2 = [].
Proof.
  intros Hf. rewrite insertPoll_healthy by done. by destruct (pollRuleBroken _ _).
Qed.

Lemma createPoll_stays_healthy `{JsRuntime} session formData w :
  faults w = [] -> faults (createPoll session formData w).2 = [].
Proof.
  intros Hf. unfold createPoll, call.
  destruct (validatePollInput _ _); [done|].
  destruct (userError session); [done|].
  destruct (user session) as [u|]; [|done].
  unfold andThen, await.
  pose proof (insertPoll_stays_healthy (user_id u)
    (sanitizeInput (default [] (get_question formData)))
    (map sanitizeInput (rawOptionsOf formData)) w Hf) as Hi.
  destruct (insertPoll _ _ _ w) as [r w']. simpl in *.
  by destruct (error_of r).
Qed.

Lemma getPollById_healthy id w :
  faults w = [] ->
  (getPollById id w).1
  = match single (pollRows id (db w)) with
    | Success pl => mkPollResult (Some pl) None
    | Failure m => mkPollResult None (Some m)
    end.
Proof.
  intros Hf. unfold getPollById, call, andThen, await.
  rewrite selectPollById_healthy by done.
  by destruct (single _).
Qed.

(** Round trip: on a store that answers and draws an id that no poll has,
    a poll that [createPoll] accepted is what [getPollById] gives for that
    id, with the sanitised question and options, and with no error. *)
Theorem createPoll_then_getPollById `{JsRuntime} (session : UserResponse)
    (formData : FormData) (w : World) :
  faults w = [] ->
  pollRows (uuid w (serial w)) (db w) = [] ->
  let (r, w') := createPoll session formData w in
  error r = None ->
  exists u, user session = Some u /\
    (getPollById (uuid w (serial w)) w').1
    = mkPollResult
        (Some (mkPoll (uuid w (serial w)) (user_id u)
                 (sanitizeInput (default [] (get_question formData)))
                 (map sanitizeInput (rawOptionsOf formData))))
        None.
Proof.
  intros Hf Hfresh.
  pose proof (createPoll_effect session formData w) as E.
  pose proof (createPoll_stays_healthy session formData w Hf) as Hh.
  destruct (createPoll session formData w) as [r w']. simpl in Hh.
  intros He. destruct E as [[He' _]|[_ (u & Hu & _ & _ & _ & Hd)]]; [done|].
  exists u. split; [done|].
  rewrite getPollById_healthy by done. unfold pollRows in *. rewrite Hd. simpl.
  rewrite filter_app, Hfresh. simpl.
  by rewrite filter_cons_True, filter_nil by done.
Qed.

Lemma createPoll_then_getPollById_witness :
  exists u, user (authenticated Sample.alice) = Some u /\
    (getPollById Sample.fresh
       (@createPoll asciiRuntime (authenticated Sample.alice) Sample.newColors
          Sample.world).2).1
    = mkPollResult
        (Some (mkPoll Sample.fresh (user_id u) (js "Best colour?") [js "Red"; js "Green"]))
        None.
Proof.
  pose proof (@createPoll_then_getPollById asciiRuntime (authenticated Sample.alice)
                Sample.newColors Sample.world) as H.
  destruct (createPoll _ _ _) as [r w'] eqn:E.
  assert (E' : (r, w') = (r, w')) by reflexivity.
  rewrite <- E in E' at 1. clear E.
  vm_compute in E'. injection E' as <- <-.
  destruct H as (u & Hu & Hg); [vm_compute; reflexivity..|].
  exists u. split; [done|]. injection Hu as <-.
  vm_compute in Hg. vm_compute. exact Hg.
Defined.

(** [deletePoll] returns no error only to a caller who is logged in and
    who owns the poll or has the admin row in [user_roles], whatever the
    store answers to the requests; and whether it deletes or not, the polls
    with another id and the votes on them stay as they were, and so does
    [user_roles]. *)
Theorem deletePoll_authorized_only (session : UserResponse) (id : Id) (w : World) :
  let (r, w') := deletePoll session id w in
  (error r = None ->
     exists u pl, user session = Some u /\ pl ∈ polls (db w) /\ poll_id pl = id
       /\ (poll_user_id pl = user_id u
           \/ mkUserRole (user_id u) ADMIN ∈ user_roles (db w))) /\
  user_roles (db w') = user_roles (db w) /\
  (forall other, other <> id ->
     pollRows other (db w') = pollRows other (db w)
     /\ filter (fun v => vote_poll_id v = other) (votes (db w'))
        = filter (fun v => vote_poll_id v = other) (votes (db w))).
Proof.
  pose proof (deletePoll_effect session id w) as E.
  destruct (deletePoll session id w) as [r w'].
  destruct E as [[He Hd]|[He (u & pl & Hu & _ & Hpl & Hid & Hown & Hd)]]; rewrite Hd.
  - split; [done|]. split; [done|]. by intros other _.
  - split; [intros _; by exists u, pl|]. split; [done|].
    intros other Hne. unfold pollRows. simpl.
    rewrite !list_filter_filter.
    split; apply list_filter_iff; intros x;
      (split; [by intros [? ?] | intros E; split; [done | congruence]]).
Qed.

Lemma getPollById_found id w pl :
  poll (getPollById id w).1 = Some pl -> pollRows id (db w) = [pl].
Proof.
  unfold getPollById. run_action.
  destruct (selectPollById id w) as [[x|m] w1] eqn:E; simpl; [|done].
  intros [= ->]. apply selectPollById_result in E as [_ Hx].
  by destruct (Hx pl eq_refl) as (_ & _ & ?).
Qed.

(** After a [deletePoll] that returned no error, whatever the store
    answered on the way, no poll has the id and no vote is on it, and
    [getPollById] gives no poll for it in any later condition of the
    store. *)
Theorem deletePoll_then_gone (session : UserResponse) (id : Id) (w : World) :
  error (deletePoll session id w).1 = None ->
  let w' := (deletePoll session id w).2 in
  pollRows id (db w') = [] /\
  Forall (fun v => vote_poll_id v <> id) (votes (db w')) /\
  forall w'', db w'' = db w' -> poll (getPollById id w'').1 = None.
Proof.
  pose proof (deletePoll_effect session id w) as E.
  destruct (deletePoll session id w) as [r w']. simpl. intros He.
  destruct E as [[He' _]|[_ (u & pl & _ & _ & _ & _ & _ & Hd)]]; [done|].
  assert (Hgone : pollRows id (db w') = []).
  { unfold pollRows. rewrite Hd. simpl. rewrite list_filter_filter.
    apply filter_none. intros x _. tauto. }
  split; [done|]. split.
  - rewrite Hd. simpl. apply Forall_forall. by intros v [? _]%list_elem_of_filter.
  - intros w'' Hw''. destruct (poll (getPollById id w'').1) as [x|] eqn:Hx; [|done].
    apply getPollById_found in Hx. rewrite Hw'', Hgone in Hx. done.
Qed.

Lemma deletePoll_then_gone_witness :
  pollRows Sample.colors
    (db (deletePoll (authenticated Sample.alice) Sample.colors Sample.world).2) = [].
Proof.
  apply (deletePoll_then_gone (authenticated Sample.alice) Sample.colors Sample.world).
  vm_compute. reflexivity.
Defined.

(** A caller with no user in the session gets an error from [createPoll],
    [updatePoll] and [deletePoll] before any request to the store: the
    world is as it was, journal included. [submitVote] looks the poll up
    first, and changes no table. *)
Theorem anonymous_changes_nothing `{JsRuntime} (session : UserResponse) (w : World) :
  user session = None ->
  (forall formData,
     let (r, w') := createPoll session formData w in error r <> None /\ w' = w) /\
  (forall pollId formData,
     let (r, w') := updatePoll session pollId formData w in error r <> None /\ w' = w) /\
  (forall id,
     let (r, w') := deletePoll session id w in error r <> None /\ w' = w) /\
  (forall pollId optionIndex,
     let (r, w') := submitVote session pollId optionIndex w in
     error r <> None /\ db w' = db w).
Proof.
  intros Hu. split; [|split; [|split]].
  - intros formData. unfold createPoll, call.
    destruct (validatePollInput _ _); [done|].
    destruct (userError session); [done|]. by rewrite Hu.
  - intros pollId formData. unfold updatePoll, call. destruct (badPollId _); [done|].
    destruct (validatePollInput _ _); [done|].
    destruct (userError session); [done|]. by rewrite Hu.
  - intros id. unfold deletePoll, call. destruct (userError session); [done|].
    by rewrite Hu.
  - intros pollId optionIndex.
    pose proof (submitVote_effect session pollId optionIndex w) as E.
    destruct (submitVote _ _ _ w) as [r w'].
    destruct E as [[? ?]|(_ & u & Hid & _)]; [done|]. by rewrite Hu in Hid.
Qed.

Lemma anonymous_changes_nothing_witness :
  let (r, w') := deletePoll anonymous Sample.colors Sample.world in
  error r <> None /\ w' = Sample.world.
Proof.
  apply (@anonymous_changes_nothing asciiRuntime anonymous Sample.world eq_refl).
Defined.

Lemma revised_id pollId u question options x :
  poll_id (revised pollId u question options x) = poll_id x.
Proof. unfold revised. by case_bool_decide. Qed.

Lemma revised_owner pollId u question options x :
  poll_user_id (revised pollId u question options x) = poll_user_id x.
Proof. unfold revised. by case_bool_decide. Qed.

(** Whatever the session, the form and the store, [updatePoll] leaves
    [user_roles] and [votes] alone, adds and removes no poll, changes no
    id and no owner, and when it changes a row, that row has the id it was
    given and belongs to the caller. *)
Theorem updatePoll_frame `{JsRuntime} (session : UserResponse) (pollId : JsString)
    (formData : FormData) (w : World) :
  let w' := (updatePoll session pollId formData w).2 in
  user_roles (db w') = user_roles (db w) /\ votes (db w') = votes (db w) /\
  map poll_id (polls (db w')) = map poll_id (polls (db w)) /\
  map poll_user_id (polls (db w')) = map poll_user_id (polls (db w)) /\
  forall (i : nat) x x',
    polls (db w) !! i = Some x -> polls (db w') !! i = Some x' -> x' <> x ->
    poll_id x = pollId /\ exists u, user session = Some u /\ poll_user_id x = user_id u.
Proof.
  pose proof (updatePoll_effect session pollId formData w) as E.
  destruct (updatePoll session pollId formData w) as [r w']. simpl.
  destruct E as [Hd|(_ & u & Hu & _ & _ & _ & Hd)]; rewrite Hd; simpl.
  - do 4 (split; [done|]). intros i x x' Hx Hx' Hne. congruence.
  - split; [done|]. split; [done|].
    rewrite <- !list_fmap_compose.
    split; [apply list_fmap_ext; intros i x _; apply revised_id|].
    split; [apply list_fmap_ext; intros i x _; apply revised_owner|].
    intros i x x' Hx Hx' Hne. rewrite list_lookup_fmap, Hx in Hx'. simpl in Hx'.
    injection Hx' as <-. unfold revised in Hne. case_bool_decide as Hc; [|done].
    destruct Hc as [? ?]. split; [done|]. by exists u.
Qed.

(* --------------------------------------------------------------------- *)
(** ** What holds of the tables at all times                              *)
(* --------------------------------------------------------------------- *)

Lemma requireAdmin_db session w : db (requireAdmin session w).2 = db w.
Proof.
  unfold requireAdmin. destruct (requireAuth session) as [m|u]; [done|].
  pose proof (isAdmin_db (Some (user_id u)) w) as E.
  destruct (isAdmin _ w) as [[] w']; done.
Qed.

Lemma EditPollPage_db session id w : db (EditPollPage session id w).2 = db w.
Proof.
  unfold EditPollPage. run_action. destruct (badPollId id); [done|].
  destruct (getCurrentUser session) as [u|]; [|done].
  pose proof (getPollById_db id w) as E.
  destruct (getPollById id w) as [fetched w']. simpl in *.
  destruct (poll_error fetched); [done|]. destruct (poll fetched); [|done].
  by case_bool_decide.
Qed.

(** The rules of the store let a vote in only when it has its voter's
    poll, an index that is not negative, and no other vote of the voter on
    the poll. *)
Lemma voteRuleBroken_None d v :
  voteRuleBroken d v = None ->
  Exists (fun p => poll_id p = vote_poll_id v) (polls d) /\ 0 <= vote_option_index v /\
  (forall u, vote_user_id v = Some u -> voteRows (vote_poll_id v) u d = []).
Proof.
  unfold voteRuleBroken. case_bool_decide as Hp; [|done]. simpl.
  destruct (Z.ltb_spec (vote_option_index v) 0); [done|].
  case_bool_decide as Hu; [done|]. intros _.
  split; [eapply Exists_impl; [exact Hp|]; by intros p [? _]|]. split; [done|].
  intros u Hv. apply filter_none. intros x Hx [Hx1 Hx2]. apply Hu.
  split; [by rewrite Hv|]. apply Exists_exists. exists x. by rewrite Hv.
Qed.

Lemma votesSound_more_polls ps rs vs p :
  votesSound (mkDatabase ps rs vs) -> votesSound (mkDatabase (ps ++ [p]) rs vs).
Proof.
  intros [Hv Hu]. split; [|exact Hu]. simpl in *.
  eapply Forall_impl; [exact Hv|]. intros v (? & ? & Hp). do 2 (split; [done|]).
  apply Exists_app. by left.
Qed.

Lemma votesSound_revised ps rs vs (f : Poll -> Poll) :
  (forall x, poll_id (f x) = poll_id x) ->
  votesSound (mkDatabase ps rs vs) -> votesSound (mkDatabase (map f ps) rs vs).
Proof.
  intros Hf [Hv Hu]. split; [|exact Hu]. simpl in *.
  eapply Forall_impl; [exact Hv|]. intros v (? & ? & Hp). do 2 (split; [done|]).
  apply Exists_exists in Hp as (x & Hx & Hid). apply Exists_exists.
  exists (f x). split; [by apply list_elem_of_fmap_2|]. by rewrite Hf.
Qed.

Lemma length_filter_filter {A} (P Q : A -> Prop)
    `{!forall x, Decision (P x)} `{!forall x, Decision (Q x)} (l : list A) :
  (length (filter P (filter Q l)) <= length (filter P l))%nat.
Proof.
  induction l as [|a l IH]; [done|].
  destruct (decide (Q a)); destruct (decide (P a));
    rewrite ?(filter_cons_True Q), ?(filter_cons_False Q),
            ?(filter_cons_True P), ?(filter_cons_False P) by done; simpl; lia.
Qed.

Lemma votesSound_deleted ps rs vs id :
  votesSound (mkDatabase ps rs vs) ->
  votesSound (mkDatabase (filter (fun p => poll_id p <> id) ps) rs
                (filter (fun v => vote_poll_id v <> id) vs)).
Proof.
  intros [Hv Hu]. split; simpl in *.
  - apply Forall_forall. intros v [Hne Hin]%list_elem_of_filter.
    rewrite Forall_forall in Hv. destruct (Hv v Hin) as (? & ? & Hp).
    do 2 (split; [done|]). apply Exists_exists in Hp as (x & Hx & Hid).
    apply Exists_exists. exists x. split; [|done].
    apply list_elem_of_filter. split; [congruence|done].
  - intros p u. specialize (Hu p u). unfold voteRows in *. simpl in *.
    etrans; [apply length_filter_filter|exact Hu].
Qed.

Lemma votesSound_voted d v :
  voteRuleBroken d v = None -> is_Some (vote_user_id v) ->
  votesSound d ->
  votesSound (mkDatabase (polls d) (user_roles d) (votes d ++ [v])).
Proof.
  intros (Hp & Hi & Hnew)%voteRuleBroken_None [u Hu] [Hv Huniq]. split; simpl.
  - apply Forall_app. split; [done|]. apply Forall_singleton. by rewrite Hu.
  - intros p' u'. unfold voteRows in *. simpl. rewrite filter_app, length_app.
    destruct (decide (vote_poll_id v = p' /\ vote_user_id v = Some u')) as [[<- Hu']|Hn].
    + rewrite (Hnew u' Hu'). rewrite filter_cons_True by done. simpl. lia.
    + rewrite filter_cons_False by done. specialize (Huniq p' u'). simpl. lia.
Qed.

Lemma perform_votesSound `{JsRuntime} c w :
  votesSound (db w) -> votesSound (db (perform c w)).
Proof.
  intros Hs. destruct c; simpl.
  - pose proof (createPoll_effect session formData w) as E.
    destruct (createPoll session formData w) as [r w']. simpl.
    destruct E as [[_ ->]|(_ & u & _ & _ & _ & _ & ->)]; [done|].
    destruct (db w). by apply votesSound_more_polls.
  - pose proof (updatePoll_effect session pollId formData w) as E.
    destruct (updatePoll session pollId formData w) as [r w']. simpl.
    destruct E as [->|(_ & u & _ & _ & _ & _ & ->)]; [done|].
    destruct (db w). apply votesSound_revised; [|done]. intros x. apply revised_id.
  - pose proof (deletePoll_effect session id w) as E.
    destruct (deletePoll session id w) as [r w']. simpl.
    destruct E as [[_ ->]|(_ & u & pl & _ & _ & _ & _ & _ & ->)]; [done|].
    destruct (db w). by apply votesSound_deleted.
  - pose proof (submitVote_effect session pollId optionIndex w) as E.
    destruct (submitVote session pollId optionIndex w) as [r w']. simpl.
    destruct E as [[_ ->]|(_ & u & _ & Hr & ->)]; [done|].
    by apply votesSound_voted.
  - by rewrite getPollById_db.
  - by rewrite isAdmin_db.
  - by rewrite requireAdmin_db.
  - by rewrite EditPollPage_db.
Qed.

Lemma perform_roles `{JsRuntime} c w : user_roles (db (perform c w)) = user_roles (db w).
Proof.
  destruct c; simpl.
  - pose proof (createPoll_effect session formData w) as E.
    destruct (createPoll session formData w) as [r w']. simpl.
    by destruct E as [[_ ->]|(_ & u & _ & _ & _ & _ & ->)].
  - pose proof (updatePoll_effect session pollId formData w) as E.
    destruct (updatePoll session pollId formData w) as [r w']. simpl.
    by destruct E as [->|(_ & u & _ & _ & _ & _ & ->)].
  - pose proof (deletePoll_effect session id w) as E.
    destruct (deletePoll session id w) as [r w']. simpl.
    by destruct E as [[_ ->]|(_ & u & pl & _ & _ & _ & _ & _ & ->)].
  - pose proof (submitVote_effect session pollId optionIndex w) as E.
    destruct (submitVote session pollId optionIndex w) as [r w']. simpl.
    by destruct E as [[_ ->]|(_ & u & _ & Hr & ->)].
  - by rewrite getPollById_db.
  - by rewrite isAdmin_db.
  - by rewrite requireAdmin_db.
  - by rewrite EditPollPage_db.
Qed.

(** Over any history of calls of the actions, by any sessions, with time
    passing and the store failing requests as it will: when every vote had
    its voter, a non-negative index and its poll, and nobody had two votes
    on one poll, that is still so; and [user_roles] is what it was, since
    no action writes to it. *)
Theorem history_keeps_votes_sound `{JsRuntime} (history : list Happening) (w : World) :
  votesSound (db w) ->
  votesSound (db (after history w))
  /\ user_roles (db (after history w)) = user_roles (db w).
Proof.
  unfold after. revert w. induction history as [|h history IH]; intros w Hs; [done|].
  simpl. destruct h as [c|t fs]; simpl.
  - destruct (IH (perform c w) (perform_votesSound c w Hs)) as [H1 H2].
    split; [done|]. by rewrite H2, perform_roles.
  - by apply (IH (mkWorld (db w) fs (journal w) t (uuid w) (serial w))).
Qed.

Lemma votesSound_empty ps rs : votesSound (mkDatabase ps rs []).
Proof. split; [constructor|]. intros p u. unfold voteRows. simpl. lia. Qed.

Lemma history_keeps_votes_sound_witness :
  user_roles (db (@after asciiRuntime
    [Calls (CallSubmitVote (authenticated Sample.carol) Sample.colors (Finite (1 # 1)));
     Passes 1700000060000 [Some Sample.refused];
     Calls (CallSubmitVote (authenticated Sample.carol) Sample.colors (Finite (0 # 1)));
     Calls (CallDeletePoll (authenticated Sample.bob) Sample.colors)]
    Sample.world))
  = user_roles (db Sample.world).
Proof.
  apply (@history_keeps_votes_sound asciiRuntime). apply votesSound_empty.
Defined.

(* --------------------------------------------------------------------- *)
(** ** submitVote, one call after another                                 *)
(* --------------------------------------------------------------------- *)

(** What a call of [submitVote] that returned no error went through. *)
Lemma submitVote_accepted session pollId optionIndex w :
  let (r, w') := submitVote session pollId optionIndex w in
  error r = None ->
  badPollId pollId = false /\ ltZero optionIndex || negb (isInteger optionIndex) = false /\
  exists pl u, pollRows pollId (db w) = [pl]
    /\ geLength optionIndex (length (poll_options pl)) = false
    /\ userIdOf (user session) = Some u
    /\ voteRuleBroken (db w) (mkVote pollId (Some u) (integerOf optionIndex) (clock w)) = None
    /\ db w' = mkDatabase (polls (db w)) (user_roles (db w))
                 (votes (db w) ++ [mkVote pollId (Some u) (integerOf optionIndex) (clock w)]).
Proof.
  unfold submitVote. run_action.
  destruct (badPollId pollId); [done|].
  destruct (ltZero optionIndex || negb (isInteger optionIndex)); [done|].
  destruct (selectPollById pollId w) as [[pl|m] w1] eqn:E1; [|done].
  pose proof E1 as (D1 & C1 & _)%query_result.
  apply selectPollById_result in E1 as [_ Hpl]. destruct (Hpl pl eq_refl) as (_ & _ & Hrows).
  destruct (geLength _ _) eqn:Hge; [done|].
  destruct (userIdOf _) as [u|]; [|done].
  destruct (selectVote pollId u w1) as [existing w2] eqn:E2.
  apply query_result in E2 as (D2 & C2 & _).
  destruct (bool_decide _); [done|].
  destruct (selectVotesSince u _ w2) as [recent w3] eqn:E3.
  apply query_result in E3 as (D3 & C3 & _).
  destruct (match data_of recent with Some _ => _ | None => _ end); [done|].
  destruct (insertVote _ _ _ w3) as [r w4] eqn:E4.
  assert (Hdb : db w3 = db w) by congruence.
  assert (Hclock : clock w3 = clock w) by congruence.
  apply insertVote_result in E4 as [(m & -> & ?)|(-> & Hrule & ?)]; [done|].
  intros _. do 2 (split; [done|]). exists pl, u. rewrite Hdb, Hclock in *. done.
Qed.

(** A user who voted on a poll and calls [submitVote] again for it, with
    the same arguments, at any later time and with the store answering,
    is told that they have voted, and no table changes. *)
Theorem submitVote_twice (session : UserResponse) (pollId : JsString)
    (optionIndex : JsNumber) (w later : World) :
  error (submitVote session pollId optionIndex w).1 = None ->
  db later = db (submitVote session pollId optionIndex w).2 ->
  faults later = [] ->
  let (r, w') := submitVote session pollId optionIndex later in
  r = failed "You have already voted on this poll" /\ db w' = db later.
Proof.
  pose proof (submitVote_accepted session pollId optionIndex w) as E.
  destruct (submitVote session pollId optionIndex w) as [r0 w0]. simpl.
  intros He Hdb Hf.
  destruct (E He) as (Hbad & Hwf & pl & u & Hrows & Hge & Hu & Hrule & Hd).
  apply voteRuleBroken_None in Hrule as (_ & _ & Hnew). simpl in Hnew.
  specialize (Hnew u eq_refl).
  unfold submitVote. run_action. rewrite Hbad, Hwf.
  rewrite selectPollById_healthy by done. unfold pollRows in *.
  rewrite Hdb, Hd. cbn [polls]. rewrite Hrows. cbn [single]. rewrite Hge, Hu.
  rewrite selectVote_healthy by done. unfold voteRows in *.
  cbn [logged db]. rewrite Hdb, Hd. cbn [votes].
  rewrite filter_app, Hnew, filter_cons_True by done. simpl.
  split; [done|congruence].
Qed.

Lemma submitVote_twice_witness :
  let (r, w') :=
    submitVote (authenticated Sample.carol) Sample.colors (Finite (1 # 1))
      (at_time 1700000999000
         (submitVote (authenticated Sample.carol) Sample.colors (Finite (1 # 1))
            Sample.world).2) in
  r = failed "You have already voted on this poll"
  /\ db w' = db (at_time 1700000999000
         (submitVote (authenticated Sample.carol) Sample.colors (Finite (1 # 1))
            Sample.world).2).
Proof.
  apply (submitVote_twice (authenticated Sample.carol) Sample.colors (Finite (1 # 1))
           Sample.world); vm_compute; reflexivity.
Defined.

(** The ceiling of five votes a minute fails open: when the store fails
    the request that counts the recent votes, a vote that passes the other
    checks is inserted, however many votes the user cast in the last
    minute. *)
Theorem submitVote_ceiling_fails_open (session : UserResponse) (pollId : JsString)
    (optionIndex : JsNumber) (pl : Poll) (u : Id) (m : string) (w : World) :
  faults w = [None; None; Some m] ->
  badPollId pollId = false ->
  pollRows pollId (db w) = [pl] ->
  inRange optionIndex (length (poll_options pl)) ->
  userIdOf (user session) = Some u ->
  voteRows pollId u (db w) = [] ->
  let (r, w') := submitVote session pollId optionIndex w in
  r = ok /\ votes (db w') = votes (db w) ++ [voteOf session pollId optionIndex w].
Proof.
  intros Hf Hbad Hrows Hin Hu Hnone.
  destruct (index_checks_complete _ _ Hin) as (Hneg & Hint & Hge & _).
  pose proof (vote_rules_pass u pollId pl w Hrows optionIndex w eq_refl Hin) as Hrule.
  rewrite bool_decide_eq_false_2 in Hrule.
  2:{ intros (v & Hv & Hv')%Exists_exists.
      assert (Hv'' : v ∈ voteRows pollId u (db w)) by by apply list_elem_of_filter.
      rewrite Hnone in Hv''. by apply elem_of_nil in Hv''. }
  unfold submitVote, voteOf, pollRows, voteRows in *. step_action.
  rewrite Hbad, Hneg, Hint. cbn -[filter voteRuleBroken Nat.leb].
  rewrite Hf. cbn -[filter voteRuleBroken Nat.leb].
  rewrite Hrows. cbn -[filter voteRuleBroken Nat.leb]. rewrite Hge, Hu.
  cbn -[filter voteRuleBroken Nat.leb]. rewrite Hnone.
  cbn -[filter voteRuleBroken Nat.leb]. rewrite Hrule. done.
Qed.

Lemma submitVote_ceiling_fails_open_witness :
  let busy :=
    mkWorld
      (mkDatabase [Sample.bestColor] []
         (map (fun p => mkVote p (Some Sample.carol) 0 1699999990000)
              [js "poll-00001"; js "poll-00002"; js "poll-00003"; js "poll-00004";
               js "poll-00005"]))
      [None; None; Some Sample.refused] [] 1700000000000 (fun _ => Sample.fresh) 0 in
  (5 <=? length (recentRows Sample.carol (clock busy - 60000) (db busy)))%nat = true /\
  let (r, w') := submitVote (authenticated Sample.carol) Sample.colors (Finite (1 # 1)) busy in
  r = ok /\
  votes (db w') = votes (db busy)
                  ++ [voteOf (authenticated Sample.carol) Sample.colors (Finite (1 # 1)) busy].
Proof.
  split; [vm_compute; reflexivity|].
  apply (submitVote_ceiling_fails_open _ _ _ Sample.bestColor Sample.carol Sample.refused).
  - reflexivity.
  - reflexivity.
  - vm_compute. reflexivity.
  - exists 1. split; [reflexivity|]. simpl. lia.
  - reflexivity.
  - vm_compute. reflexivity.
Defined.

(* --------------------------------------------------------------------- *)
(** ** getUserPolls                                                       *)
(* --------------------------------------------------------------------- *)

Section UserPolls.
Variable newestFirst : list Poll -> list Poll.
(** Ordering the rows neither adds nor drops one. *)
Hypothesis reorders : forall rows, Permutation (newestFirst rows) rows.

(** [getUserPolls] changes no table; every poll it gives is a row of the
    caller in [polls], whatever the store answers; and when it gives no
    error, the caller is logged in and the polls are all of theirs. *)
Theorem getUserPolls_own_polls (session : UserResponse) (w : World) :
  let (r, w') := getUserPolls newestFirst session w in
  db w' = db w /\
  (forall p, p ∈ polls_found r ->
     p ∈ polls (db w) /\ exists u, user session = Some u /\ poll_user_id p = user_id u) /\
  (polls_error r = None ->
     exists u, user session = Some u /\
       Permutation (polls_found r)
         (filter (fun p => poll_user_id p = user_id u) (polls (db w)))).
Proof.
  unfold getUserPolls. run_action. destruct (user session) as [u|]; simpl.
  2:{ split; [done|]. split; [|done]. by intros p ?%elem_of_nil. }
  destruct (selectPollsByUser newestFirst (user_id u) w) as [found w1] eqn:E.
  apply query_result in E as (D & _ & _ & _ & _ & _ & [->| [m ->]]); simpl.
  - split; [done|]. split.
    + intros p Hp. rewrite (reorders _) in Hp.
      apply list_elem_of_filter in Hp as [? ?]. split; [done|]. by exists u.
    + intros _. exists u. split; [done|]. apply reorders.
  - split; [done|]. split; [|done]. by intros p ?%elem_of_nil.
Qed.
End UserPolls.

Lemma getUserPolls_own_polls_witness :
  let (r, w') := getUserPolls reverse (authenticated Sample.alice) Sample.world in
  db w' = db Sample.world /\
  (forall p, p ∈ polls_found r ->
     p ∈ polls (db Sample.world)
     /\ exists u, user (authenticated Sample.alice) = Some u /\ poll_user_id p = user_id u) /\
  (polls_error r = None ->
     exists u, user (authenticated Sample.alice) = Some u /\
       Permutation (polls_found r)
         (filter (fun p => poll_user_id p = user_id u) (polls (db Sample.world)))).
Proof.
  apply (getUserPolls_own_polls reverse).
  intros rows. apply reverse_Permutation.
Defined.

(* --------------------------------------------------------------------- *)
(** ** requireAdmin and the edit page                                     *)
(* --------------------------------------------------------------------- *)

Lemma isAdmin_true_row userId w :
  (isAdmin userId w).1 = true ->
  exists u, userId = Some u /\ mkUserRole u ADMIN ∈ user_roles (db w).
Proof.
  unfold isAdmin. run_action. destruct userId as [u|]; [|done].
  destruct (falsy u); [done|].
  destruct (selectRole u ADMIN w) as [found w1] eqn:E. simpl.
  apply selectRole_result in E as [_ Hrow].
  intros Hb%bool_decide_eq_true. exists u. split; [done|]. by apply Hrow.
Qed.

(** [requireAdmin] gives a user only when the session has one and
    [user_roles] holds their admin row, whatever the store answers;
    otherwise it throws, with one of two messages, and with the first one
    exactly when nobody is logged in. *)
Theorem requireAdmin_sound (session : UserResponse) (w : World) :
  match (requireAdmin session w).1 with
  | inr u => user session = Some u /\ mkUserRole (user_id u) ADMIN ∈ user_roles (db w)
  | inl message =>
      (message = "Authentication required" /\ user session = None)
      \/ (message = "Admin access required" /\ user session <> None)
  end.
Proof.
  unfold requireAdmin, requireAuth, getCurrentUser.
  destruct (user session) as [u|]; [|by left].
  pose proof (isAdmin_true_row (Some (user_id u)) w) as Hrow.
  destruct (isAdmin _ w) as [[] w1]; simpl in *; [|by right].
  destruct (Hrow eq_refl) as (u' & [= <-] & ?). done.
Qed.

Lemma EditPollPage_rendered session id w pl :
  (EditPollPage session id w).1 = Renders pl ->
  badPollId id = false /\ pollRows id (db w) = [pl] /\
  exists u, user session = Some u /\ poll_user_id pl = user_id u.
Proof.
  unfold EditPollPage, getCurrentUser. run_action.
  destruct (badPollId id); [done|].
  destruct (user session) as [u|]; [|done].
  pose proof (getPollById_found id w) as Hfound.
  destruct (getPollById id w) as [fetched w1]. simpl in *.
  destruct (poll_error fetched); [done|].
  destruct (poll fetched) as [x|]; [|done].
  case_bool_decide as Hown; [done|]. simpl. intros [= ->].
  split; [done|]. split; [by apply Hfound|]. exists u. split; [done|].
  destruct (decide (poll_user_id pl = user_id u)); [done|by destruct Hown].
Qed.

(** The edit page shows the form only for a poll that is the one row with
    the id and that belongs to the user of the session, whatever the store
    answers; and it changes no table. *)
Theorem EditPollPage_renders_owner_only (session : UserResponse) (id : JsString)
    (w : World) (pl : Poll) :
  (EditPollPage session id w).1 = Renders pl ->
  badPollId id = false /\ pollRows id (db w) = [pl] /\
  (exists u, user session = Some u /\ poll_user_id pl = user_id u) /\
  db (EditPollPage session id w).2 = db w.
Proof.
  intros (? & ? & ?)%EditPollPage_rendered. by rewrite EditPollPage_db.
Qed.

Lemma EditPollPage_renders_owner_only_witness :
  badPollId Sample.colors = false /\ pollRows Sample.colors (db Sample.world) = [Sample.bestColor]
  /\ (exists u, user (authenticated Sample.alice) = Some u
                /\ poll_user_id Sample.bestColor = user_id u)
  /\ db (EditPollPage (authenticated Sample.alice) Sample.colors Sample.world).2
     = db Sample.world.
Proof.
  apply (EditPollPage_renders_owner_only (authenticated Sample.alice) Sample.colors
           Sample.world Sample.bestColor).
  vm_compute. reflexivity.
Defined.

(** The page and the action agree: on a store that answers, a session
    without an auth error for which the edit page shows the form of a poll
    is one whose [updatePoll] reaches the poll. It saves a valid form whose
    sanitised question is within the 500 characters that the table allows,
    and the poll then has the sanitised question and options of the form;
    for a longer one it returns the refusal of the store and the poll is
    as it was. *)
Theorem EditPollPage_then_updatePoll `{JsRuntime} (session : UserResponse)
    (id : JsString) (formData : FormData) (w : World) (pl : Poll) :
  faults w = [] ->
  userError session = None ->
  (EditPollPage session id w).1 = Renders pl ->
  validatePollInput (get_question formData) (rawOptionsOf formData) = None ->
  let question := sanitizeInput (default [] (get_question formData)) in
  let (r, w') := updatePoll session id formData (EditPollPage session id w).2 in
  ((charLength question <= 500)%nat ->
     r = ok /\
     pollRows id (db w')
     = [mkPoll id (poll_user_id pl) question (map sanitizeInput (rawOptionsOf formData))]) /\
  ((500 < charLength question)%nat ->
     r = failed questionCheck /\ pollRows id (db w') = [pl]).
Proof.
  intros Hf He Hpage Hv question.
  destruct (EditPollPage_rendered session id w pl Hpage)
    as (Hbad & Hrows & u & Hu & Hown).
  pose proof (EditPollPage_db session id w) as Hdb.
  assert (Hf1 : faults (EditPollPage session id w).2 = []).
  { clear Hpage. unfold EditPollPage, getCurrentUser, getPollById. run_action.
    rewrite Hbad, Hu. rewrite selectPollById_healthy by done. simpl.
    destruct (single _); simpl; [by case_bool_decide|done]. }
  destruct (EditPollPage session id w) as [page w1]. simpl in *.
  assert (Hs : session = authenticated (user_id u)).
  { destruct session as [su se]. simpl in *. subst. by destruct u. }
  rewrite <- Hdb in Hrows.
  pose proof (updatePoll_runs (user_id u) id formData pl w1 Hf1 Hrows Hbad Hv) as Hrun.
  pose proof (updatePoll_refused (user_id u) id formData pl w1 Hf1 Hrows Hbad Hv Hown)
    as Hno.
  pose proof (updatePoll_owner (user_id u) id formData pl w1 Hf1 Hrows Hbad Hv Hown) as Hrow.
  rewrite <- Hs in *. rewrite Hown.
  destruct (updatePoll session id formData w1) as [r w']. simpl in *.
  split.
  - intros Hfits. split; [|by apply Hrow].
    by injection (Hrun (fun _ => Hfits)) as -> _.
  - intros Hlong. by injection (Hno Hlong) as -> ->.
Qed.

Lemma EditPollPage_then_updatePoll_witness :
  let (r, w') :=
    @updatePoll asciiRuntime (authenticated Sample.alice) Sample.colors Sample.newColors
      (EditPollPage (authenticated Sample.alice) Sample.colors Sample.world).2 in
  r = ok /\
  pollRows Sample.colors (db w')
  = [mkPoll Sample.colors (poll_user_id Sample.bestColor)
       (sanitizeInput (default [] (get_question Sample.newColors)))
       (map sanitizeInput (rawOptionsOf Sample.newColors))].
Proof.
  pose proof (@EditPollPage_then_updatePoll asciiRuntime (authenticated Sample.alice)
                Sample.colors Sample.newColors Sample.world Sample.bestColor) as H.
  cbv zeta in H. destruct (updatePoll _ _ _ _) as [r w'].
  destruct H as [H _];
    [reflexivity | reflexivity | vm_compute; reflexivity | vm_compute; reflexivity |].
  apply H. apply Nat.leb_le. vm_compute. reflexivity.
Defined.

(* --------------------------------------------------------------------- *)
(** ** Passwords                                                          *)
(* --------------------------------------------------------------------- *)

Lemma existsb_Exists {A} (f : A -> bool) (l : list A) :
  existsb f l = true <-> Exists (fun x => f x = true) l.
Proof.
  rewrite existsb_exists, Exists_exists. split; intros (x & Hx & ?); exists x.
  - by rewrite list_elem_of_In.
  - by rewrite <- list_elem_of_In.
Qed.

Lemma negb_existsb_Exists {A} (f : A -> bool) (l : list A) :
  negb (existsb f l) = false <-> Exists (fun x => f x = true) l.
Proof. by rewrite negb_false_iff, existsb_Exists. Qed.

(** No common password has a special character. *)
Lemma commonPasswords_plain p c :
  p ∈ commonPasswords -> c ∈ p -> isPasswordSpecial c = false.
Proof.
  intros Hp Hc.
  assert (H : forallb (fun p => forallb (fun c => negb (isPasswordSpecial c)) p)
                commonPasswords = true) by (vm_compute; reflexivity).
  rewrite forallb_forall in H. apply list_elem_of_In in Hp. specialize (H p Hp).
  rewrite forallb_forall in H. apply list_elem_of_In in Hc. specialize (H c Hc).
  by apply negb_true_iff.
Qed.

(** What [validatePassword] lets through has what it asks for. *)
Lemma validatePassword_strong `{JsRuntime} password :
  validatePassword password = None -> strongPassword password.
Proof.
  unfold validatePassword, strongPassword.
  destruct (falsy password || (length password <? 8)%nat) eqn:E1; [done|].
  apply orb_false_iff in E1 as [_ E1]. apply Nat.ltb_ge in E1.
  destruct (Nat.ltb_spec 128 (length password)); [done|].
  destruct (negb (existsb isLowerLetter password)) eqn:E3; [done|].
  destruct (negb (existsb isUpperLetter password)) eqn:E4; [done|].
  destruct (negb (existsb isDigit password)) eqn:E5; [done|].
  destruct (negb (existsb isPasswordSpecial password)) eqn:E6; [done|].
  intros _. rewrite negb_existsb_Exists in E3, E4, E5, E6. repeat split; (lia || done).
Qed.

Section Passwords.
Context `{JsRuntime}.
Hypothesis lowering : keepsSpecials.

(** [validatePassword] accepts exactly the passwords of 8 to 128 code
    units, 128 included, with a lower-case letter, an upper-case letter, a
    digit and a special character; and its test against the list of common
    passwords never fires, since no password of the list has a special
    character and the tests before it ask for one. *)
Theorem validatePassword_accepts_iff (password : JsString) :
  (validatePassword password = None <-> strongPassword password) /\
  validatePassword password
  <> Some "This password is too common. Please choose a stronger password".
Proof.
  assert (Hc : Exists (fun c => isPasswordSpecial c = true) password ->
               bool_decide (toLowerCase password ∈ commonPasswords) = false).
  { intros (c & Hin & Hs)%Exists_exists. apply bool_decide_eq_false. intros Hcommon.
    pose proof (commonPasswords_plain _ c Hcommon (lowering _ _ Hs Hin)). congruence. }
  split; [split; [apply validatePassword_strong|]|].
  - intros ([Hlo Hhi] & H3 & H4 & H5 & H6). unfold validatePassword.
    replace (falsy password) with false by (destruct password; [simpl in Hlo; lia|done]).
    destruct (Nat.ltb_spec (length password) 8); [lia|].
    destruct (Nat.ltb_spec 128 (length password)); [lia|]. simpl.
    rewrite (proj2 (negb_existsb_Exists _ _) H3), (proj2 (negb_existsb_Exists _ _) H4),
      (proj2 (negb_existsb_Exists _ _) H5), (proj2 (negb_existsb_Exists _ _) H6).
    by rewrite (Hc H6).
  - unfold validatePassword.
    destruct (falsy password || (length password <? 8)%nat); [done|].
    destruct (128 <? length password)%nat; [done|].
    destruct (negb (existsb isLowerLetter password)); [done|].
    destruct (negb (existsb isUpperLetter password)); [done|].
    destruct (negb (existsb isDigit password)); [done|].
    destruct (negb (existsb isPasswordSpecial password)) eqn:E6; [done|].
    rewrite negb_existsb_Exists in E6. by rewrite (Hc E6).
Qed.
End Passwords.

Lemma asciiLower_special c : isPasswordSpecial c = true -> asciiLower c = c.
Proof.
  unfold isPasswordSpecial. rewrite existsb_exists. intros (x & Hx & E).
  apply N.eqb_eq in E. subst x. vm_compute in Hx.
  repeat (destruct Hx as [<-|Hx]; [reflexivity|]). done.
Qed.

Lemma asciiRuntime_keepsSpecials : @keepsSpecials asciiRuntime.
Proof.
  intros s c Hs Hc. simpl. apply list_elem_of_fmap. exists c.
  by rewrite asciiLower_special.
Qed.

Lemma validatePassword_accepts_iff_witness :
  @validatePassword asciiRuntime (js "Tr1cky!pass") = None
  <-> strongPassword (js "Tr1cky!pass").
Proof.
  apply (@validatePassword_accepts_iff asciiRuntime asciiRuntime_keepsSpecials).
Defined.

(* --------------------------------------------------------------------- *)
(** ** login, register, logout                                            *)
(* --------------------------------------------------------------------- *)

(** Whatever the auth service answers, [login], [register] and [logout]
    return no message but the literals of their bodies: the message of the
    service never reaches the caller. *)
Theorem auth_messages_fixed `{JsRuntime} `{AuthService} :
  (forall data m, error (login data) = Some m -> m ∈ loginMessages) /\
  (forall data m, error (register data) = Some m -> m ∈ registerMessages) /\
  (forall m, error logout = Some m -> m = "Logout failed. Please try again.").
Proof.
  split; [|split].
  - intros data m. unfold login, loginMessages.
    destruct (badEmail _); [intros [= <-]; set_solver|].
    destruct (falsy _); [intros [= <-]; set_solver|].
    destruct (signInWithPassword _ _); [|done].
    destruct (includes _ _); intros [= <-]; set_solver.
  - intros data m. unfold register, registerMessages, passwordMessages.
    destruct (badEmail _); [intros [= <-]; set_solver|].
    destruct (blank _); [intros [= <-]; set_solver|].
    destruct (100 <? _)%nat; [intros [= <-]; set_solver|].
    destruct (validatePassword _) as [e|] eqn:E.
    + intros [= <-]. unfold validatePassword in E.
      repeat (match type of E with
              | (if ?b then _ else _) = _ => destruct b; [injection E as <-; set_solver|]
              end). done.
    + destruct (signUp _ _ _); [|done].
      destruct (includes _ _); intros [= <-]; set_solver.
  - intros m. unfold logout. destruct signOut; [by intros [= <-]|done].
Qed.

Lemma auth_messages_fixed_witness :
  "Invalid email or password" ∈ loginMessages.
Proof.
  apply (proj1 (@auth_messages_fixed asciiRuntime SampleAuth.closed)
           (mkLogin (js "dave@example.com") (js "guess"))).
  vm_compute. reflexivity.
Defined.

(* --------------------------------------------------------------------- *)
(** ** Tags                                                               *)
(* --------------------------------------------------------------------- *)

Lemma stripTagsFrom_elem b s d : d ∈ stripTagsFrom b s -> d ∈ s.
Proof.
  revert b. induction s as [|c s IH]; intros b; simpl; [done|].
  destruct b.
  - destruct (c =? Ch.gt)%N; intros ?%IH; by right.
  - destruct ((c =? Ch.lt)%N && hasGt s).
    + intros ?%IH. by right.
    + rewrite !elem_of_cons. intros [->|?%IH]; auto.
Qed.

Lemma hasGt_stripTagsFrom b s : hasGt s = false -> hasGt (stripTagsFrom b s) = false.
Proof.
  intros H. apply not_true_is_false. intros H'%hasGt_elem%stripTagsFrom_elem%hasGt_elem.
  congruence.
Qed.

Lemma stripTagsFrom_tagFree b s : tagFree (stripTagsFrom b s) = true.
Proof.
  revert b. induction s as [|c s IH]; intros b; simpl; [done|].
  destruct b.
  - destruct (c =? Ch.gt)%N; apply IH.
  - destruct ((c =? Ch.lt)%N && hasGt s) eqn:E; [apply IH|]. simpl.
    rewrite IH, andb_true_r. apply negb_true_iff.
    apply andb_false_iff in E as [E|E]; [by rewrite E|].
    rewrite (hasGt_stripTagsFrom false s E). apply andb_false_r.
Qed.

Lemma tagFree_fixed s : tagFree s = true -> stripTags s = s.
Proof.
  unfold stripTags. induction s as [|c s IH]; simpl; [done|].
  intros [Hc Hs]%andb_true_iff. apply negb_true_iff in Hc. rewrite Hc.
  by rewrite IH.
Qed.

Lemma tagFree_split pre post :
  tagFree (pre ++ Ch.lt :: post) = true -> (Ch.gt ∉ post).
Proof.
  induction pre as [|c pre IH]; cbn [tagFree app].
  - rewrite N.eqb_refl. cbn [andb]. intros [Hc _]%andb_true_iff.
    apply negb_true_iff in Hc. intros Hgt%hasGt_elem. congruence.
  - intros [_ H]%andb_true_iff. by apply IH.
Qed.

(** What [.replace(/<[^>]*>/g, "")] gives has no tag left, that is, no [<]
    with a [>] after it, and a second pass changes nothing; this is the
    first step of [sanitizeInput] and, after the trim, the whole sanitising
    of the name by [register]. *)
Theorem stripTags_leaves_no_tag (s : JsString) :
  (forall pre post, stripTags s = pre ++ Ch.lt :: post -> Ch.gt ∉ post) /\
  stripTags (stripTags s) = stripTags s /\
  stripTags (registeredName s) = registeredName s.
Proof.
  pose proof (stripTagsFrom_tagFree false) as Hfree.
  split; [|split].
  - intros pre post E. apply (tagFree_split pre). rewrite <- E. apply Hfree.
  - apply tagFree_fixed, Hfree.
  - apply tagFree_fixed, Hfree.
Qed.

Lemma length_trimStart s : (length (trimStart s) <= length s)%nat.
Proof.
  induction s as [|c s IH]; simpl; [done|]. destruct (isWhiteSpace c); simpl; lia.
Qed.

Lemma length_trim s : (length (trim s) <= length s)%nat.
Proof.
  unfold trim, trimEnd. rewrite length_reverse.
  etrans; [apply length_trimStart|]. rewrite length_reverse. apply length_trimStart.
Qed.

Lemma length_stripTagsFrom b s : (length (stripTagsFrom b s) <= length s)%nat.
Proof.
  revert b. induction s as [|c s IH]; intros b; simpl; [done|].
  destruct b.
  - destruct (c =? Ch.gt)%N; [specialize (IH false)|specialize (IH true)]; lia.
  - destruct ((c =? Ch.lt)%N && hasGt s);
      [specialize (IH true)|specialize (IH false); simpl]; lia.
Qed.

(** The auth service is asked only about input that passed the checks:
    [login] sends an address with an [@] and a password that is not empty,
    [register] an address with an [@], a password that [validatePassword]
    accepts and a name without tags. Two services that answer alike to
    such input make [login] and [register] return alike. *)
Theorem auth_service_gets_checked_input `{JsRuntime} (s1 s2 : AuthService) :
  (forall data,
     (forall email password, loginChecked email password ->
        @signInWithPassword s1 email password = @signInWithPassword s2 email password) ->
     @login _ s1 data = @login _ s2 data) /\
  (forall data,
     (forall email password name, registerChecked email password name ->
        @signUp s1 email password name = @signUp s2 email password name) ->
     @register _ s1 data = @register _ s2 data).
Proof.
  split; intros data Hsame.
  - unfold login. destruct (badEmail _) eqn:He; [done|].
    destruct (falsy (login_password data)) eqn:Hp; [done|].
    rewrite Hsame; [done|]. split; [done|]. by destruct (login_password data).
  - unfold register. destruct (badEmail _) eqn:He; [done|].
    destruct (blank _); [done|].
    destruct (Nat.ltb_spec 100 (length (register_name data))); [done|].
    destruct (validatePassword _) eqn:Hv; [done|].
    rewrite Hsame; [done|]. split; [done|]. split; [by apply validatePassword_strong|].
    split; [apply stripTagsFrom_tagFree|]. unfold registeredName, stripTags.
    etrans; [apply length_stripTagsFrom|]. etrans; [apply length_trim|]. done.
Qed.

(** A weak password is refused before the service is asked, so that the
    password rule of the service makes no difference. *)
Lemma auth_service_gets_checked_input_witness :
  @register asciiRuntime SampleAuth.picky SampleAuth.weak
  = @register asciiRuntime SampleAuth.open SampleAuth.weak.
Proof.
  apply (proj2 (@auth_service_gets_checked_input asciiRuntime SampleAuth.picky
                  SampleAuth.open)).
  intros email password name (_ & ([Hlen _] & _) & _). simpl.
  destruct (Nat.ltb_spec (length password) 8); [lia|done].
Defined.

(* --------------------------------------------------------------------- *)
(** ** The rate-limit map over time                                       *)
(* --------------------------------------------------------------------- *)

(** What [isRateLimited] answers and what it leaves for the key of the
    request depend on the map through the entry of that key only. *)
Lemma isRateLimited_agree request now rl1 rl2 :
  rl1 !! getRateLimitKey request = rl2 !! getRateLimitKey request ->
  (isRateLimited request now rl1).1 = (isRateLimited request now rl2).1 /\
  (isRateLimited request now rl1).2 !! getRateLimitKey request
  = (isRateLimited request now rl2).2 !! getRateLimitKey request.
Proof.
  intros E. unfold isRateLimited. cbv zeta. rewrite E.
  destruct (rl2 !! getRateLimitKey request) as [current|] eqn:E2; simpl.
  - destruct (windowMs <? now - timestamp current); simpl;
      [by rewrite !lookup_insert_eq|].
    destruct (maxRequests <=? count current); simpl;
      [split; [done|congruence] | by rewrite !lookup_insert_eq].
  - by rewrite !lookup_insert_eq.
Qed.

Lemma isRateLimited_bounded request now rl :
  countsBounded rl -> countsBounded (isRateLimited request now rl).2.
Proof.
  intros Hb k e. unfold isRateLimited. cbv zeta.
  destruct (rl !! getRateLimitKey request) as [current|] eqn:E; simpl.
  - destruct (windowMs <? now - timestamp current); simpl.
    { destruct (decide (getRateLimitKey request = k)) as [<-|Hk].
      - rewrite lookup_insert_eq. intros [= <-]. simpl. unfold maxRequests. lia.
      - rewrite lookup_insert_ne by done. apply Hb. }
    destruct (Z.leb_spec maxRequests (count current)); simpl; [apply Hb|].
    destruct (decide (getRateLimitKey request = k)) as [<-|Hk].
    + rewrite lookup_insert_eq. intros [= <-]. simpl.
      pose proof (Hb _ _ E). lia.
    + rewrite lookup_insert_ne by done. apply Hb.
  - destruct (decide (getRateLimitKey request = k)) as [<-|Hk].
    + rewrite lookup_insert_eq. intros [= <-]. simpl. unfold maxRequests. lia.
    + rewrite lookup_insert_ne by done. apply Hb.
Qed.

(** Whatever requests arrive and whenever the sweep runs, every window in
    the map has counted at least one request and at most a hundred: the
    count of a full window is never raised. *)
Theorem rate_counts_bounded (events : list Event) (rl : gmap JsString RateEntry) :
  countsBounded rl -> countsBounded (tableAfter events rl).
Proof.
  revert rl. induction events as [|[request now now'|now] events IH]; intros rl Hb; simpl.
  - done.
  - by apply IH, isRateLimited_bounded.
  - apply IH. intros k e [? _]%map_lookup_filter_Some. by eapply Hb.
Qed.

Lemma rate_counts_bounded_witness :
  let table := tableAfter (replicate 102 (Arrives Sample.browser 1000 1000)) ∅ in
  table !! getRateLimitKey Sample.browser = Some (mkEntry 100 1000)
  /\ 1 <= count (mkEntry 100 1000) <= maxRequests.
Proof.
  cbv zeta.
  assert (E : tableAfter (replicate 102 (Arrives Sample.browser 1000 1000)) ∅
              !! getRateLimitKey Sample.browser = Some (mkEntry 100 1000))
    by (vm_compute; reflexivity).
  split; [exact E|].
  refine (rate_counts_bounded (replicate 102 (Arrives Sample.browser 1000 1000)) ∅ _
            (getRateLimitKey Sample.browser) _ E).
  intros k e H. by rewrite lookup_empty in H.
Defined.

Lemma sweep_lookup now rl1 rl2 k :
  rl1 !! k = rl2 !! k -> sweep now rl1 !! k = sweep now rl2 !! k.
Proof. intros E. unfold sweep. cbv zeta. by rewrite !map_lookup_filter, E. Qed.

Section Clients.
Variable passedOn : Request -> HttpResponse.

(** The clients do not touch each other's windows: what a client is
    answered is what they would be answered if no other client had sent
    anything, whatever else the map held. *)
Theorem rate_limit_isolation (k : JsString) (events : list Event)
    (rl1 rl2 : gmap JsString RateEntry) :
  rl1 !! k = rl2 !! k ->
  filter (fromKey k) (serve passedOn events rl1)
  = filter (fromKey k) (serve passedOn (filter (concerns k) events) rl2).
Proof.
  revert rl1 rl2. induction events as [|[request now now'|now] events IH]; intros rl1 rl2 E.
  - done.
  - destruct (decide (getRateLimitKey request = k)) as [Hk|Hk].
    + rewrite (filter_cons_True (concerns k)) by done. simpl. unfold updateSession.
      subst k. destruct (isRateLimited_agree request now rl1 rl2 E) as [H1 H2].
      destruct (isRateLimited request now rl1) as [l1 rl1'].
      destruct (isRateLimited request now rl2) as [l2 rl2']. simpl in *. subst l2.
      destruct l1; rewrite !(filter_cons_True (fromKey _)) by done;
        f_equal; by apply IH.
    + rewrite (filter_cons_False (concerns k)) by done. simpl. unfold updateSession.
      pose proof (isRateLimited_other request now rl1 k Hk) as Ho.
      destruct (isRateLimited request now rl1) as [l1 rl1']. simpl in Ho.
      destruct l1; rewrite (filter_cons_False (fromKey k)) by done;
        apply IH; congruence.
  - rewrite (filter_cons_True (concerns k)) by done. simpl.
    by apply IH, sweep_lookup.
Qed.

Lemma sweptBy_later t t' swept whole :
  t <= t' -> sweptBy t swept whole -> sweptBy t' swept whole.
Proof.
  intros Ht Hs k. destruct (Hs k) as [?|(? & e & ? & ?)]; [by left|right].
  split; [done|]. exists e. split; [done|lia].
Qed.

Lemma sweptBy_request t request now swept whole :
  t <= now -> sweptBy t swept whole ->
  (isRateLimited request now swept).1 = (isRateLimited request now whole).1 /\
  sweptBy now (isRateLimited request now swept).2 (isRateLimited request now whole).2.
Proof.
  intros Ht Hs. destruct (Hs (getRateLimitKey request)) as [E|(E & e & Ee & Hstale)].
  - destruct (isRateLimited_agree request now swept whole E) as [H1 H2].
    split; [done|]. intros k. destruct (decide (getRateLimitKey request = k)) as [<-|Hk].
    + by left.
    + rewrite !isRateLimited_other by done. by apply (sweptBy_later t).
  - rewrite (isRateLimited_stale request now swept) by (unfold stale; by rewrite E).
    rewrite (isRateLimited_stale request now whole)
      by (unfold stale, windowMs; rewrite Ee; lia).
    split; [done|]. simpl. intros k.
    destruct (decide (getRateLimitKey request = k)) as [<-|Hk].
    + left. by rewrite !lookup_insert_eq.
    + rewrite !lookup_insert_ne by done. by apply (sweptBy_later t).
Qed.

Lemma sweptBy_sweep t now swept whole :
  t <= now -> sweptBy t swept whole -> sweptBy now (sweep now swept) whole.
Proof.
  intros Ht Hs k. unfold sweep. cbv zeta.
  destruct (Hs k) as [E|(E & e & Ee & Hstale)].
  - destruct (whole !! k) as [e|] eqn:Ee.
    + destruct (decide (timestamp e < now - 5 * 60 * 1000)) as [Hold|Hnew].
      * right. split; [|by exists e].
        apply map_lookup_filter_None. right. intros e' He'. simpl.
        assert (e' = e) as -> by congruence. tauto.
      * left. apply map_lookup_filter_Some. split; [done|]. done.
    + left. apply map_lookup_filter_None. left. done.
  - right. split; [apply map_lookup_filter_None; by left|].
    exists e. split; [done|lia].
Qed.

Lemma serve_swept events : forall t swept whole,
  inTimeOrder t events -> sweptBy t swept whole ->
  serve passedOn events swept = serve passedOn (filter arrival events) whole.
Proof.
  induction events as [|[request now now'|now] events IH]; intros t swept whole Ho Hs.
  - done.
  - destruct Ho as [Ht Ho]. simpl in Ht, Ho.
    rewrite filter_cons_True by done. simpl. unfold updateSession.
    destruct (sweptBy_request t request now swept whole Ht Hs) as [H1 H2].
    destruct (isRateLimited request now swept) as [l1 rl1'].
    destruct (isRateLimited request now whole) as [l2 rl2']. simpl in *. subst l2.
    destruct l1; f_equal; by apply (IH now).
  - destruct Ho as [Ht Ho]. simpl in Ht, Ho.
    rewrite filter_cons_False by (by intros ?). simpl.
    apply (IH now); [done|]. by apply (sweptBy_sweep t).
Qed.

(** The sweep is invisible: when the events come in the order of their
    times, every request is answered as if the sweep never ran. *)
Theorem sweep_invisible (t : Millis) (events : list Event)
    (rl : gmap JsString RateEntry) :
  inTimeOrder t events ->
  serve passedOn events rl = serve passedOn (filter arrival events) rl.
Proof. intros Ho. apply (serve_swept events t); [done|]. intros k. by left. Qed.
End Clients.

Lemma rate_limit_isolation_witness :
  filter (fromKey (getRateLimitKey Sample.browser))
    (serve Sample.passedOn
       [Arrives Sample.other 1000 1000; Arrives Sample.browser 2000 2000;
        Arrives Sample.other 3000 3000] ∅)
  = filter (fromKey (getRateLimitKey Sample.browser))
      (serve Sample.passedOn
         (filter (concerns (getRateLimitKey Sample.browser))
            [Arrives Sample.other 1000 1000; Arrives Sample.browser 2000 2000;
             Arrives Sample.other 3000 3000])
         {[getRateLimitKey Sample.other := mkEntry 100 0]}).
Proof. apply rate_limit_isolation. vm_compute. reflexivity. Defined.

Lemma sweep_invisible_witness :
  serve Sample.passedOn
    [Arrives Sample.browser 1000 1000; Sweeps 400000; Arrives Sample.browser 400001 400001] ∅
  = serve Sample.passedOn
      (filter arrival
         [Arrives Sample.browser 1000 1000; Sweeps 400000;
          Arrives Sample.browser 400001 400001]) ∅.
Proof. apply (sweep_invisible Sample.passedOn 0). simpl. lia. Defined.

(* --------------------------------------------------------------------- *)
(** ** hasCSRFProtection                                                  *)
(* --------------------------------------------------------------------- *)

Section CsrfToken.
Variable urlHost : JsString -> option JsString.

(** [hasCSRFProtection] never looks at what the token says: two tokens
    that are both sent and not empty give the same answer, a request
    without [Origin] or without [Host] passes with any such token, and
    with [Origin] and [Host] both sent the token makes no difference at
    all. *)
Theorem hasCSRFProtection_ignores_token_value (request : CsrfView) :
  (forall token token', token <> [] -> token' <> [] ->
     hasCSRFProtection urlHost (withToken (Some token) request)
     = hasCSRFProtection urlHost (withToken (Some token') request)) /\
  (forall token, token <> [] ->
     truthy (csrf_origin request) && truthy (csrf_host request) = false ->
     hasCSRFProtection urlHost (withToken (Some token) request) = Some true) /\
  (forall token token',
     truthy (csrf_origin request) && truthy (csrf_host request) = true ->
     hasCSRFProtection urlHost (withToken token request)
     = hasCSRFProtection urlHost (withToken token' request)).
Proof.
  unfold hasCSRFProtection, withToken. simpl.
  destruct (bool_decide (csrf_method request ∈ _)); [done|].
  destruct (csrf_origin request) as [[|o origin]|], (csrf_host request) as [[|h host]|];
    simpl; repeat split; try done; intros [|c token]; try done;
    intros [|c' token']; done.
Qed.
End CsrfToken.

Lemma hasCSRFProtection_ignores_token_value_witness :
  hasCSRFProtection SampleCsrf.urlHost (withToken (Some (js "anything")) SampleCsrf.bare)
  = Some true.
Proof.
  apply (hasCSRFProtection_ignores_token_value SampleCsrf.urlHost SampleCsrf.bare);
    [discriminate | reflexivity].
Defined.

(* --------------------------------------------------------------------- *)
(** ** How long sanitised text gets                                       *)
(* --------------------------------------------------------------------- *)

Lemma entity_length_le c : (length (entity c) <= 6)%nat.
Proof.
  unfold entity.
  repeat match goal with |- context [if ?b then _ else _] => destruct b end;
    vm_compute; repeat constructor.
Qed.

Lemma escapeEntities_length_le s : (length (escapeEntities s) <= 6 * length s)%nat.
Proof.
  induction s as [|c s IH]; simpl; [done|].
  rewrite length_app. pose proof (entity_length_le c). lia.
Qed.

Lemma escapeEntities_quotes n :
  length (escapeEntities (replicate n Ch.quot)) = (6 * n)%nat.
Proof.
  induction n as [|n IH]; [done|].
  change (escapeEntities (replicate (S n) Ch.quot))
    with (entity Ch.quot ++ escapeEntities (replicate n Ch.quot)).
  rewrite length_app, IH. change (length (entity Ch.quot)) with 6%nat. lia.
Qed.

Lemma replicate_trimmed n c : isWhiteSpace c = false -> trimmed (replicate n c).
Proof.
  intros Hc. split; intros d Hd.
  - apply head_Some_elem_of, elem_of_replicate in Hd as [-> _]. done.
  - apply last_Some_elem_of, elem_of_replicate in Hd as [-> _]. done.
Qed.

(** Validation is of the raw question and the store checks the sanitised
    one, which [sanitizeInput] can make up to six times as long (and does,
    on a text of double quotes). So a form that [validatePollInput] let
    through can be refused by the check of [polls] on the length of the
    question: on a store that answers, [createPoll] then returns the
    message of the store and stores nothing. Every question that
    [createPoll] does store is within the 500 characters of the check. *)
Theorem createPoll_length_check `{JsRuntime} :
  (forall x, (length (sanitizeInput x) <= 6 * length x)%nat) /\
  (forall n, length (sanitizeInput (replicate n Ch.quot)) = (6 * n)%nat) /\
  (forall u formData w,
     faults w = [] ->
     validatePollInput (get_question formData) (rawOptionsOf formData) = None ->
     (500 < charLength (sanitizeInput (default [] (get_question formData))))%nat ->
     (createPoll (authenticated u) formData w).1 = failed questionCheck
     /\ db (createPoll (authenticated u) formData w).2 = db w) /\
  (forall session formData w,
     error (createPoll session formData w).1 = None ->
     exists p, polls (db (createPoll session formData w).2) = polls (db w) ++ [p]
               /\ (charLength (poll_question p) <= 500)%nat).
Proof.
  split; [|split; [|split]].
  - intros x. unfold sanitizeInput.
    etrans; [apply length_trim|]. etrans; [apply escapeEntities_length_le|].
    pose proof (length_stripTagsFrom false x). unfold stripTags. lia.
  - intros n. unfold sanitizeInput.
    rewrite stripTags_plain by (by intros [? _]%elem_of_replicate).
    rewrite trim_fixed; [apply escapeEntities_quotes|].
    by apply escapeEntities_trimmed, replicate_trimmed.
  - intros u formData w Hf Hv Hlong. unfold createPoll. run_action. rewrite Hv. simpl.
    rewrite insertPoll_healthy by done.
    rewrite (pollRuleBroken_valid _ _ _ Hv).
    destruct (Nat.ltb_spec 500
      (charLength (sanitizeInput (default [] (get_question formData))))); [done|lia].
  - intros session formData w.
    pose proof (createPoll_effect session formData w) as E.
    destruct (createPoll session formData w) as [r w']. simpl. intros He.
    destruct E as [[He' _]|[_ (u & _ & _ & _ & Hfits & ->)]]; [done|].
    eexists. split; [done|]. done.
Qed.

(** A question of a hundred double quotes passes the validation and is
    refused by the store. *)
Lemma createPoll_length_check_witness :
  let quotes := mkFormData (Some (replicate 100 Ch.quot)) [js "Red"; js "Green"] in
  @validatePollInput asciiRuntime (get_question quotes) (rawOptionsOf quotes) = None /\
  (@createPoll asciiRuntime (authenticated Sample.alice) quotes Sample.world).1
  = failed questionCheck /\
  db (@createPoll asciiRuntime (authenticated Sample.alice) quotes Sample.world).2
  = db Sample.world.
Proof.
  cbv zeta. split; [vm_compute; reflexivity|].
  apply (proj1 (proj2 (proj2 (@createPoll_length_check asciiRuntime)))).
  - reflexivity.
  - vm_compute. reflexivity.
  - apply Nat.ltb_lt. vm_compute. reflexivity.
Defined.

(* --------------------------------------------------------------------- *)
(** ** Votes and the options of their polls                               *)
(* --------------------------------------------------------------------- *)

Lemma voteRuleBroken_range d v :
  voteRuleBroken d v = None ->
  Exists (fun p => poll_id p = vote_poll_id v
                   /\ 0 <= vote_option_index v < Z.of_nat (length (poll_options p)))
         (polls d).
Proof.
  unfold voteRuleBroken. case_bool_decide as Hp; [|done]. simpl.
  destruct (Z.ltb_spec (vote_option_index v) 0); [done|]. intros _.
  eapply Exists_impl; [exact Hp|]. intros p [? ?]. split; [done|lia].
Qed.

Lemma perform_votesInRange `{JsRuntime} c w :
  noUpdate (Calls c) -> votesInRange (db w) -> votesInRange (db (perform c w)).
Proof.
  unfold votesInRange. intros Hc Hs. destruct c; simpl.
  - pose proof (createPoll_effect session formData w) as E.
    destruct (createPoll session formData w) as [r w']. simpl.
    destruct E as [[_ ->]|(_ & u & _ & _ & _ & _ & ->)]; [done|]. simpl.
    eapply Forall_impl; [exact Hs|]. intros v Hv. apply Exists_app. by left.
  - done.
  - pose proof (deletePoll_effect session id w) as E.
    destruct (deletePoll session id w) as [r w']. simpl.
    destruct E as [[_ ->]|(_ & u & pl & _ & _ & _ & _ & _ & ->)]; [done|]. simpl.
    apply Forall_forall. intros v [Hne Hin]%list_elem_of_filter.
    rewrite Forall_forall in Hs. specialize (Hs v Hin).
    apply Exists_exists in Hs as (x & Hx & Hid & Hr). apply Exists_exists.
    exists x. split; [|done]. apply list_elem_of_filter. split; [congruence|done].
  - pose proof (submitVote_effect session pollId optionIndex w) as E.
    destruct (submitVote session pollId optionIndex w) as [r w']. simpl.
    destruct E as [[_ ->]|(_ & u & _ & Hr & ->)]; [done|]. simpl.
    apply Forall_app. split; [done|]. apply Forall_singleton.
    by apply voteRuleBroken_range in Hr.
  - by rewrite getPollById_db.
  - by rewrite isAdmin_db.
  - by rewrite requireAdmin_db.
  - by rewrite EditPollPage_db.
Qed.

(** Over any history in which [updatePoll] is not called, every vote stays
    a vote for an option that its poll has: [submitVote] inserts such votes
    only, and [deletePoll] takes the votes of the poll away with it. *)
Theorem votes_in_range_without_updates `{JsRuntime} (history : list Happening)
    (w : World) :
  Forall noUpdate history ->
  votesInRange (db w) -> votesInRange (db (after history w)).
Proof.
  unfold after. revert w. induction history as [|h history IH]; intros w Hh Hs; [done|].
  apply Forall_cons in Hh as [Hh Hrest]. simpl. destruct h as [c|t fs]; simpl.
  - apply IH; [done|]. by apply perform_votesInRange.
  - by apply IH.
Qed.

Lemma votes_in_range_without_updates_witness :
  votesInRange (db (@after asciiRuntime
    [Calls (CallSubmitVote (authenticated Sample.carol) Sample.colors (Finite (1 # 1)));
     Passes 1700000060000 [];
     Calls (CallCreatePoll (authenticated Sample.carol) Sample.newColors);
     Calls (CallDeletePoll (authenticated Sample.bob) Sample.colors)]
    Sample.world)).
Proof.
  apply (@votes_in_range_without_updates asciiRuntime).
  - repeat constructor.
  - constructor.
Defined.

(** [updatePoll] is what breaks it: when the owner saves a valid form that
    the store takes (its sanitised question is within the 500 characters
    of the table) and that has no more options than the index of a vote on
    the poll, the vote stays and is a vote for an option that the poll no
    longer has. *)
Theorem updatePoll_orphans_votes `{JsRuntime} (p pollId : Id) (formData : FormData)
    (pl : Poll) (v : Vote) (w : World) :
  faults w = [] ->
  pollRows pollId (db w) = [pl] ->
  poll_user_id pl = p ->
  badPollId pollId = false ->
  validatePollInput (get_question formData) (rawOptionsOf formData) = None ->
  (charLength (sanitizeInput (default [] (get_question formData))) <= 500)%nat ->
  v ∈ votes (db w) ->
  vote_poll_id v = pollId ->
  Z.of_nat (length (rawOptionsOf formData)) <= vote_option_index v ->
  let (r, w') := updatePoll (authenticated p) pollId formData w in
  r = ok /\ v ∈ votes (db w') /\ ~ votesInRange (db w').
Proof.
  intros Hf Hrows Hown Hbad Hvalid Hfits Hv Hid Hlen.
  pose proof (updatePoll_runs p pollId formData pl w Hf Hrows Hbad Hvalid
                (fun _ => Hfits)) as Hrun.
  pose proof (updatePoll_owner p pollId formData pl w Hf Hrows Hbad Hvalid Hown Hfits)
    as Hrow.
  destruct (updatePoll (authenticated p) pollId formData w) as [r w']. simpl in Hrow.
  injection Hrun as -> Hw.
  assert (Hvotes : votes (db w') = votes (db w)) by (by rewrite Hw).
  clear Hw.
  split; [done|]. split; [by rewrite Hvotes|].
  unfold votesInRange. rewrite Hvotes, Forall_forall. intros Hall.
  specialize (Hall v Hv). apply Exists_exists in Hall as (x & Hx & Hxid & Hxr).
  rewrite Hid in Hxid.
  pose proof (pollRows_member pollId _ w' Hrow x Hx Hxid) as ->.
  simpl in Hxr. rewrite length_map in Hxr. lia.
Qed.

Lemma updatePoll_orphans_votes_witness :
  let third := mkVote Sample.colors (Some Sample.carol) 2 1700000000000 in
  let w :=
    mkWorld
      (mkDatabase
         [mkPoll Sample.colors Sample.alice (js "Best color?")
            [js "Red"; js "Green"; js "Blue"]]
         [] [third])
      [] [] 1700000000000 (fun _ => Sample.fresh) 0 in
  votesInRange (db w) /\
  let (r, w') :=
    @updatePoll asciiRuntime (authenticated Sample.alice) Sample.colors Sample.newColors w in
  r = ok /\ third ∈ votes (db w') /\ ~ votesInRange (db w').
Proof.
  cbv zeta. split.
  - constructor; [|constructor]. apply Exists_cons_hd. simpl. split; [reflexivity|lia].
  - apply (@updatePoll_orphans_votes asciiRuntime Sample.alice Sample.colors Sample.newColors
             (mkPoll Sample.colors Sample.alice (js "Best color?")
                [js "Red"; js "Green"; js "Blue"])).
    + reflexivity.
    + vm_compute. reflexivity.
    + reflexivity.
    + reflexivity.
    + vm_compute. reflexivity.
    + apply Nat.leb_le. vm_compute. reflexivity.
    + simpl. left.
    + reflexivity.
    + simpl. lia.
Defined.

(* --------------------------------------------------------------------- *)
(** ** The two admin checks                                               *)
(* --------------------------------------------------------------------- *)

(** The admin test that [deletePoll] makes in its own body agrees with
    [isAdmin]: on a store that answers, a user who does not own the poll
    can delete it exactly when [isAdmin] says yes for them. *)
Theorem deletePoll_agrees_with_isAdmin (p id : Id) (pl : Poll) (w : World) :
  faults w = [] ->
  pollRows id (db w) = [pl] ->
  poll_user_id pl <> p ->
  p <> [] ->
  (deletePoll (authenticated p) id w).1 = ok <-> (isAdmin (Some p) w).1 = true.
Proof.
  intros Hf Hrows Hown Hp. rewrite isAdmin_hasRole by done.
  pose proof (deletePoll_admin p id pl w Hf Hrows Hown) as Hyes.
  pose proof (deletePoll_denied p id pl w Hf Hrows Hown) as Hno.
  destruct (deletePoll (authenticated p) id w) as [r w']. simpl.
  destruct (hasRole p ADMIN w).
  - by destruct (Hyes eq_refl) as [-> _].
  - by destruct (Hno eq_refl) as [-> _].
Qed.

Lemma deletePoll_agrees_with_isAdmin_witness :
  (deletePoll (authenticated Sample.bob) Sample.colors Sample.world).1 = ok
  <-> (isAdmin (Some Sample.bob) Sample.world).1 = true.
Proof.
  apply (deletePoll_agrees_with_isAdmin Sample.bob Sample.colors Sample.bestColor);
    [reflexivity | vm_compute; reflexivity | discriminate | discriminate].
Defined.
